(** * PlatinaArchive client: scoring engine, recognition pipeline and
      archive reconciler

    A shallow embedding of [analyzer.py], [models.py] and the reconciliation
    part of [client.py], together with the properties of the specification
    that concern them.

    Conventions of the embedding.
    - A Python [int] is a [Z].
    - A Python [float] is an IEEE-754 binary64 value: a [spec_float] of the
      Standard Library, operated on at precision 53 and maximal exponent
      1024 ([SF64div], [SF64mul], [SF64sub], [SFleb], ...).
    - A Python exception is a constructor of [exn]; a function that can
      raise returns a [result].
    - The OCR engine, the perceptual hash and the pixel reads are opaque
      capabilities: what they return for one screenshot is a record of
      readings, the input of the pipeline. A perceptual hash is the 64-bit
      number its hexadecimal string denotes.
    - A [dict] whose iteration order matters is an association list in
      insertion order; the archive, which is only looked up and stored
      into, is a [gmap].
    - The log is the list of the lines written, each kept as its format
      and the values it shows; the requests sent to the archive service
      are the list of their payloads.

    Image acquisition, region scaling and cropping, the Tk widgets, the
    hotkey thread and the HTTP fetches are outside the embedding. *)

From Stdlib Require Import ZArith Lia Bool List.
From Stdlib Require Import Floats.
From stdpp Require Import base option list strings pretty gmap.

Local Open Scope Z_scope.

(** ** Exceptions and the error monad *)

Inductive exn : Set :=
| ArchiveException
| ZeroDivisionError
| OverflowError
| KeyError
| ValueError
| UnboundLocalError.

Inductive result (A : Type) : Type :=
| Return (a : A)
| Raise (e : exn).

Arguments Return {A} a.
Arguments Raise {A} e.

Definition rbind {A B : Type} (m : result A) (k : A -> result B) : result B :=
  match m with
  | Return a => k a
  | Raise e => Raise e
  end.

Notation "'let*' x ':=' m 'in' k" := (rbind m (fun x => k))
  (at level 10, x name, m at level 100, k at level 200).

(** ** Python numbers *)

Module PyNum.

Definition pyfloat : Set := spec_float.

(** The integer [n] as an unrounded binary number [n * 2^0]. *)
Definition exact_of_int (n : Z) : spec_float :=
  match n with
  | Z0 => S754_zero false
  | Zpos p => S754_finite false p 0
  | Zneg p => S754_finite true p 0
  end.

Definition is_infinite (x : pyfloat) : bool :=
  match x with
  | S754_infinity _ => true
  | _ => false
  end.

(** [a / b] on two [int]s: the quotient correctly rounded to binary64;
    [ZeroDivisionError] on a zero divisor, [OverflowError] when the
    quotient is too large for a float. *)
Definition int_truediv (a b : Z) : result pyfloat :=
  if b =? 0 then Raise ZeroDivisionError
  else
    let q := SF64div (exact_of_int a) (exact_of_int b) in
    if is_infinite q then Raise OverflowError else Return q.

(** [float(n)], the conversion an [int] operand undergoes next to a
    [float] one. *)
Definition float_of_int (n : Z) : result pyfloat :=
  let x := binary_normalize prec emax n 0 false in
  if is_infinite x then Raise OverflowError else Return x.

(** The decimal literal [n / 10^k], correctly rounded: [99.8] is
    [float_lit 998 1], [100] as a float is [float_lit 100 0]. *)
Definition float_lit (n : Z) (k : Z) : pyfloat :=
  SF64div (exact_of_int n) (exact_of_int (10 ^ k)).

(** Nearest integer to [num / den], ties to even ([den > 0]). *)
Definition div_half_even (num den : Z) : Z :=
  let q := num / den in
  let r := num mod den in
  match 2 * r ?= den with
  | Lt => q
  | Gt => q + 1
  | Eq => if Z.even q then q else q + 1
  end.

(** [round(x, ndigits)] on a float, [ndigits >= 0]: the exact binary value
    is rounded to [ndigits] decimals, ties to even, and the decimal is
    converted back to the nearest float. Zeros, infinities and NaN round
    to themselves. *)
Definition py_round (x : pyfloat) (ndigits : Z) : result pyfloat :=
  match x with
  | S754_finite s m e =>
      let scaled := Zpos m * 10 ^ ndigits in
      let n :=
        match e with
        | Zneg k => div_half_even scaled (2 ^ Zpos k)
        | _ => scaled * 2 ^ e
        end in
      let r :=
        if n =? 0 then S754_zero s
        else SF64div (exact_of_int (if s then - n else n))
                     (exact_of_int (10 ^ ndigits)) in
      if is_infinite r then Raise OverflowError else Return r
  | _ => Return x
  end.

(** [math.ceil(x)] *)
Definition py_ceil (x : pyfloat) : result Z :=
  match x with
  | S754_zero _ => Return 0
  | S754_infinity _ => Raise OverflowError
  | S754_nan => Raise ValueError
  | S754_finite s m e =>
      let v := if s then Zneg m else Zpos m in
      match e with
      | Zneg k => Return (- ((- v) / 2 ^ Zpos k))
      | _ => Return (v * 2 ^ e)
      end
  end.

(** Comparisons; every comparison with NaN is false. *)
Definition fge (x y : pyfloat) : bool := SFleb y x.
Definition fgt (x y : pyfloat) : bool := SFltb y x.
Definition fle (x y : pyfloat) : bool := SFleb x y.
Definition feq (x y : pyfloat) : bool := SFeqb x y.

(** [len(str(n))] for [n >= 0]. *)
Fixpoint ndigits_fuel (fuel : nat) (n : Z) : Z :=
  match fuel with
  | O => 1
  | S fuel' => if n <? 10 then 1 else 1 + ndigits_fuel fuel' (n / 10)
  end.

Definition ndigits (n : Z) : Z := ndigits_fuel (Z.to_nat (Z.log2 n)) n.

(** [float(f"{major}.{minor}")] where [minor] has been left-padded with
    zeros to [width] characters: the decimal [major.minor], correctly
    rounded. A negative [minor] prints a sign after the point, which
    [float] refuses. *)
Definition float_of_parts (major minor width : Z) : result pyfloat :=
  if minor <? 0 then Raise ValueError
  else
    let k := Z.max width (ndigits minor) in
    let n := Z.abs major * 10 ^ k + minor in
    Return (float_lit (if major <? 0 then - n else n) k).

End PyNum.

Import PyNum.

(** ** Catalog and records ([models.py]) *)

Module Models.

Record Pattern : Type := {
  pattern_line : Z;
  pattern_difficulty : string;
  pattern_level : Z;
  pattern_designer : string
}.

(** [phash] and [plus_phash] are [None] when the source value is falsy. *)
Record Song : Type := {
  song_id : Z;
  song_title : string;
  song_artist : string;
  song_bpm : string;
  song_dlc : string;
  song_phash : option Z;
  song_plus_phash : option Z;
  song_patterns : list Pattern
}.

(** [Song.get_available_levels] *)
Fixpoint get_available_levels (patterns : list Pattern) (line : Z)
    (difficulty : string) : list Z :=
  match patterns with
  | [] => []
  | pat :: rest =>
      if (pattern_line pat =? line) && String.eqb (pattern_difficulty pat) difficulty
      then pattern_level pat :: get_available_levels rest line difficulty
      else get_available_levels rest line difficulty
  end.

(** [x in l] on a list of [int]s. *)
Fixpoint contains (l : list Z) (x : Z) : bool :=
  match l with
  | [] => false
  | y :: l' => (x =? y) || contains l' x
  end.

(** [AnalysisReport]; the jacket image itself is not carried. *)
Record AnalysisReport : Type := {
  report_song : Song;
  report_score : Z;
  report_judge : pyfloat;
  report_patch : pyfloat;
  report_line : Z;
  report_difficulty : string;
  report_level : Z;
  report_jacket_hash : Z;
  report_match_distance : Z;
  report_rank : string;
  report_is_full_combo : bool;
  report_is_perfect_decode : bool;
  report_is_maximum_patch : bool;
  report_total_notes : Z;
  report_perfect_high : Z
}.

(** [DecodeResult]; a [datetime] is a number of microseconds since the
    epoch. *)
Record DecodeResult : Type := {
  decode_song_id : Z;
  decode_line : Z;
  decode_difficulty : string;
  decode_level : Z;
  decode_judge : pyfloat;
  decode_score : Z;
  decode_patch : pyfloat;
  decode_decoded_at : Z;
  decode_is_full_combo : bool;
  decode_is_max_patch : bool
}.

(** The dictionary [AnalysisReport.json] builds. *)
Record ArchiveUpdate : Type := {
  update_song_id : Z;
  update_line : Z;
  update_difficulty : string;
  update_level : Z;
  update_judge : pyfloat;
  update_score : Z;
  update_patch : pyfloat;
  update_is_full_combo : bool;
  update_is_max_patch : bool
}.

Definition report_json (r : AnalysisReport) : ArchiveUpdate :=
  {| update_song_id := song_id (report_song r);
     update_line := report_line r;
     update_difficulty := report_difficulty r;
     update_level := report_level r;
     update_judge := report_judge r;
     update_score := report_score r;
     update_patch := report_patch r;
     update_is_full_combo := report_is_full_combo r;
     update_is_max_patch := report_is_maximum_patch r |}.

End Models.

Import Models.

(** ** Scoring engine ([ScreenshotAnalyzer], static methods) *)

Module Scoring.

Definition f0 : pyfloat := S754_zero false.
Definition f100 : pyfloat := float_lit 100 0.

(** [calculate_judge_rate] *)
Definition calculate_judge_rate (ph p g d m : Z) : result pyfloat :=
  let total_judge := (ph + p) * 100 + g * 70 + d * 30 in
  let total_notes := ph + p + g + d + m in
  let* q := int_truediv total_judge total_notes in
  py_round q 4.

(** [calculate_score] *)
Definition calculate_score (perfect_high perfect great : Z) : Z :=
  200 * perfect_high + 150 * perfect + 100 * great.

(** [calculate_rank] *)
Definition calculate_rank (judge_rate : pyfloat) : string :=
  if fge judge_rate (float_lit 998 1) then "SS+"
  else if fge judge_rate (float_lit 995 1) then "SS"
  else if fge judge_rate (float_lit 99 0) then "S+"
  else if fge judge_rate (float_lit 98 0) then "S"
  else if fge judge_rate (float_lit 97 0) then "AA+"
  else if fge judge_rate (float_lit 95 0) then "AA"
  else if fge judge_rate (float_lit 90 0) then "A+"
  else if fge judge_rate (float_lit 80 0) then "A"
  else if fge judge_rate (float_lit 70 0) then "B"
  else "C".

(** The dictionary [rank_ratio] of [calculate_patch], in source order.
    The entry of ["SS+"] is the [int] 1, which the multiplication
    converts to [1.0]. *)
Definition rank_ratio : list (string * pyfloat) :=
  [ ("C", float_lit 2 1);
    ("B", float_lit 3 1);
    ("A", float_lit 4 1);
    ("A+", float_lit 5 1);
    ("AA", float_lit 6 1);
    ("AA+", float_lit 7 1);
    ("S", float_lit 8 1);
    ("S+", float_lit 9 1);
    ("SS", float_lit 95 2);
    ("SS+", float_lit 1 0) ].

(** [d[k]] on a dictionary with string keys. *)
Fixpoint dict_get {V : Type} (d : list (string * V)) (k : string) : result V :=
  match d with
  | [] => Raise KeyError
  | (k', v) :: d' => if String.eqb k k' then Return v else dict_get d' k
  end.

(** [calculate_patch] *)
Definition calculate_patch (level : Z) (rank : string) (is_plus : bool)
    (judge : pyfloat) : result pyfloat :=
  if String.eqb rank "F" then Return f0
  else
    let* l42 := float_of_int (level * 42) in
    let acc := SF64div judge f100 in
    let* ratio := dict_get rank_ratio rank in
    let patch_base := SF64mul (SF64mul l42 acc) ratio in
    let patch_base :=
      if is_plus then SF64mul patch_base (float_lit 102 2) else patch_base in
    py_round patch_base 2.

(** [verify_notes_count] *)
Definition verify_notes_count (total perfect_high perfect great good miss : Z)
    : Z * Z * Z * Z * Z :=
  if total =? perfect_high + perfect + great + good + miss then
    (perfect_high, perfect, great, good, miss)
  else if perfect_high >? total then
    (total - (perfect + great + good + miss), perfect, great, good, miss)
  else if perfect >? total then
    (perfect_high, total - (perfect_high + great + good + miss), great, good, miss)
  else if great >? total then
    (perfect_high, perfect, total - (perfect_high + perfect + good + miss), good, miss)
  else if good >? total then
    (perfect_high, perfect, great, total - (perfect_high + perfect + great + miss), miss)
  else
    (perfect_high, perfect, great, good, total - (perfect_high + perfect + great + good)).

(** [DIFFICULTY_COLORS] and [COLOR_TOLERANCE] *)
Definition DIFFICULTY_COLORS : list (string * (Z * Z * Z)) :=
  [ ("EASY", (254, 179, 26));
    ("HARD", (252, 109, 111));
    ("OVER", (187, 99, 219));
    ("PLUS", (69, 81, 141)) ].

Definition COLOR_TOLERANCE : Z := 5.

Definition color_close (target color : Z * Z * Z) : bool :=
  let '(r, g, b) := target in
  let '(cr, cg, cb) := color in
  (Z.abs (r - cr) <=? COLOR_TOLERANCE)
  && (Z.abs (g - cg) <=? COLOR_TOLERANCE)
  && (Z.abs (b - cb) <=? COLOR_TOLERANCE).

Fixpoint first_close (colors : list (string * (Z * Z * Z))) (target : Z * Z * Z)
    : string :=
  match colors with
  | [] => "UNKNOWN"
  | (difficulty, color) :: rest =>
      if color_close target color then difficulty else first_close rest target
  end.

(** [get_difficulty] *)
Definition get_difficulty (r g b : Z) : string :=
  first_close DIFFICULTY_COLORS (r, g, b).

(** [is_pivot_pixel] *)
Definition is_pivot_pixel (rgb : Z * Z * Z) : option string :=
  let '(r, g, b) := rgb in
  if (Z.abs (r - 231) <? 5) && (Z.abs (g - 136) <? 5) && (Z.abs (b - 40) <? 5)
  then Some "EASY"
  else if (Z.abs (r - 234) <? 5) && (Z.abs (g - 98) <? 5) && (Z.abs (b - 124) <? 5)
  then Some "HARD"
  else if (Z.abs (r - 146) <? 5) && (Z.abs (g - 115) <? 5) && (Z.abs (b - 254) <? 5)
  then Some "OVER"
  else if (Z.abs (r - 31) <? 5) && (Z.abs (g - 45) <? 5) && (Z.abs (b - 90) <? 5)
  then Some "PLUS"
  else None.

End Scoring.

Import Scoring.

(** ** Song matcher and recognition pipeline ([ScreenshotAnalyzer]) *)

Module Analyzer.

(** Number of one bits of a positive number. *)
Fixpoint popcount (p : positive) : Z :=
  match p with
  | xH => 1
  | xO q => popcount q
  | xI q => 1 + popcount q
  end.

(** [h1 - h2] on two [ImageHash]es: the Hamming distance. *)
Definition hash_distance (h1 h2 : Z) : Z :=
  match Z.lxor h1 h2 with
  | Zpos p => popcount p
  | _ => 0
  end.

(** [d[k] = v] on an insertion-ordered dictionary: an existing key keeps
    its place. *)
Fixpoint dict_set {V : Type} (d : list (Z * V)) (k : Z) (v : V) : list (Z * V) :=
  match d with
  | [] => [(k, v)]
  | (k', v') :: d' =>
      if k =? k' then (k, v) :: d' else (k', v') :: dict_set d' k v
  end.

(** [self.song_db], from the constructor. *)
Definition build_song_db (song_database : list Song) : list (Z * Song) :=
  fold_left (fun db song => dict_set db (song_id song) song) song_database [].

(** [_build_jacket_hash_map]. A jacket hash is kept as the 64-bit number
    its hex string denotes, so the keys are these numbers: the map is that
    of the source for a catalog whose hash strings are all in one
    spelling (two strings that spell one number differently are two keys
    of the source and one key here). *)
Definition _build_jacket_hash_map (song_db : list (Z * Song)) : list (Z * Song) :=
  fold_left
    (fun hash_map entry =>
       let song := snd entry in
       let hash_map :=
         match song_phash song with
         | Some h => dict_set hash_map h song
         | None => hash_map
         end in
       match song_plus_phash song with
       | Some h => dict_set hash_map h song
       | None => hash_map
       end)
    song_db [].

(** The loop of [get_best_match_song]: [best] is [None] while
    [min_distance] is infinite and [best_match_song] is [None]. *)
Fixpoint best_match_loop (items : list (Z * Song)) (target_hash : Z)
    (best : option (Song * Z)) : option (Song * Z) :=
  match items with
  | [] => best
  | (ref_hash, song_obj) :: rest =>
      let distance := hash_distance target_hash ref_hash in
      let closer :=
        match best with
        | None => true
        | Some (_, min_distance) => distance <? min_distance
        end in
      best_match_loop rest target_hash
        (if closer then Some (song_obj, distance) else best)
  end.

(** [get_best_match_song] *)
Definition get_best_match_song (jacket_hash_map : list (Z * Song))
    (target_hash : Z) : option (Song * Z) :=
  best_match_loop jacket_hash_map target_hash None.

(** What the recognizers return on a result screen. *)
Record ResultReadings : Type := {
  result_jacket_hash : Z;
  result_line : Z;
  result_level : Z;
  result_patch : pyfloat;
  result_score : Z;
  result_total_notes : Z;
  result_perfect_high : Z;
  result_perfect : Z;
  result_great : Z;
  result_good : Z;
  result_miss : Z;
  result_rank_hash : Z;
  result_difficulty_color : Z * Z * Z
}.

(** What the recognizers return on a select screen. The three functions
    take the reference row [pivot_y] of the column scanned for the
    difficulty arrow: the pixel read there, and the OCR and hash readings of
    the level region derived from it. *)
Record SelectReadings : Type := {
  select_jacket_hash : Z;
  select_line : Z;
  select_score : Z;
  select_major_patch : Z;
  select_minor_patch : Z;
  select_major_judge : Z;
  select_minor_judge : Z;
  select_pivot_pixel : Z -> Z * Z * Z;
  select_level_ocr : Z -> Z;
  select_level_by_phash : Z -> Z;
  select_full_combo_hash : Z;
  select_max_patch_pixel : Z * Z * Z;
  select_rank_hash : Z
}.

Record Screenshot : Type := {
  shot_select_speed_hash : Z;
  shot_result : ResultReadings;
  shot_select : SelectReadings
}.

Inductive ScreenType : Set := SELECT | RESULT.

(** [determine_screen_type] *)
Definition determine_screen_type (screenshot : Screenshot) : ScreenType :=
  if hash_distance (shot_select_speed_hash screenshot) 0xc0c73d38273ed2c3 <? 5
  then SELECT else RESULT.

(** The [while pivot_y < 1040] loop of [_analyze_select_screen], up to its
    [break]: the row and difficulty of the first pivot pixel. *)
Fixpoint find_pivot (fuel : nat) (pivot_y : Z) (pixel : Z -> Z * Z * Z)
    : option (Z * string) :=
  match fuel with
  | O => None
  | S fuel' =>
      if pivot_y <? 1040 then
        match is_pivot_pixel (pixel pivot_y) with
        | Some difficulty => Some (pivot_y, difficulty)
        | None => find_pivot fuel' (pivot_y + 1) pixel
        end
      else None
  end.

(** [_analyze_select_screen] *)
Definition _analyze_select_screen (jacket_hash_map : list (Z * Song))
    (img : SelectReadings) : result AnalysisReport :=
  let jacket_hash := select_jacket_hash img in
  match get_best_match_song jacket_hash_map jacket_hash with
  | None => Raise ArchiveException
  | Some (matched_song, match_distance) =>
      if match_distance >? 5 then Raise ArchiveException
      else
        let line := select_line img in
        let score := select_score img in
        let major_patch := select_major_patch img in
        let minor_patch := select_minor_patch img in
        let* patch := float_of_parts major_patch minor_patch
                        (if minor_patch <? 10 then 2 else 0) in
        let major_judge := select_major_judge img in
        let minor_judge := select_minor_judge img in
        let* judge := float_of_parts major_judge minor_judge 4 in
        let pivot := find_pivot 413 627 (select_pivot_pixel img) in
        let level_found :=
          match pivot with
          | None => None
          | Some (pivot_y, difficulty) =>
              let difficulty :=
                if String.eqb difficulty "UNKNOWN" then "PLUS" else difficulty in
              let level := select_level_ocr img pivot_y in
              let available_levels :=
                get_available_levels (song_patterns matched_song) line difficulty in
              let level :=
                match available_levels with
                | [only] => only
                | _ => level
                end in
              let level :=
                if negb (contains available_levels level)
                then select_level_by_phash img pivot_y else level in
              Some (difficulty, level)
          end in
        let is_full_combo :=
          hash_distance (select_full_combo_hash img) 0x8a82953d9d376b1a <? 5 in
        let is_perfect := feq judge f100 in
        let is_full_combo := is_full_combo || is_perfect in
        let '(mr, mg, mb) := select_max_patch_pixel img in
        let is_max_patch :=
          (Z.abs (mr - 200) <? 5) && (Z.abs (mg - 111) <? 5)
          && (Z.abs (mb - 254) <? 5) in
        let rank := calculate_rank judge in
        let rank :=
          if hash_distance (select_rank_hash img) 0xbb604083cfda63a7 <? 5
          then "F" else rank in
        match level_found with
        | None => Raise UnboundLocalError
        | Some (difficulty, level) =>
            Return {|
              report_song := matched_song;
              report_score := score;
              report_judge := judge;
              report_patch := patch;
              report_line := line;
              report_difficulty := difficulty;
              report_level := level;
              report_jacket_hash := jacket_hash;
              report_match_distance := match_distance;
              report_rank := rank;
              report_is_full_combo := is_full_combo;
              report_is_perfect_decode := is_perfect;
              report_is_maximum_patch := is_max_patch;
              report_total_notes := 0;
              report_perfect_high := 0 |}
        end
  end.

(** The result-screen part of [extract_info]. *)
Definition analyze_result_screen (jacket_hash_map : list (Z * Song))
    (img : ResultReadings) : result AnalysisReport :=
  let jacket_hash := result_jacket_hash img in
  match get_best_match_song jacket_hash_map jacket_hash with
  | None => Raise ArchiveException
  | Some (matched_song, match_distance) =>
      if match_distance >? 5 then Raise ArchiveException
      else
        let lines := result_line img in
        let level_ocr := result_level img in
        let patch_ocr := result_patch img in
        let total_notes := result_total_notes img in
        let '(perfect_high, perfect, great, good, miss) :=
          verify_notes_count total_notes (result_perfect_high img)
            (result_perfect img) (result_great img) (result_good img)
            (result_miss img) in
        let '(r, g, b) := result_difficulty_color img in
        let difficulty_str := get_difficulty r g b in
        let is_plus_difficulty := String.eqb difficulty_str "PLUS" in
        let* calculated_judge_rate :=
          calculate_judge_rate perfect_high perfect great good miss in
        let calculated_score := calculate_score perfect_high perfect great in
        let calculated_rank := calculate_rank calculated_judge_rate in
        let calculated_rank :=
          if hash_distance 0xa3636e1f941a1736 (result_rank_hash img) <? 5
          then "F" else calculated_rank in
        let level_int := level_ocr in
        let* calculated_patch :=
          calculate_patch level_int calculated_rank is_plus_difficulty
            calculated_judge_rate in
        let available_levels :=
          get_available_levels (song_patterns matched_song) lines difficulty_str in
        let level_int :=
          match available_levels with
          | [only] => only
          | _ => level_int
          end in
        let is_full_combo := miss =? 0 in
        let is_perfect_decode := feq calculated_judge_rate f100 in
        let* is_maximum_patch :=
          if is_perfect_decode then
            let* density := int_truediv perfect_high total_notes in
            Return (fge density (float_lit 98 2))
          else Return false in
        let patch_distance := SF64sub patch_ocr calculated_patch in
        let calculated_patch :=
          if fle (SFopp (float_lit 1 1)) patch_distance
             && fle patch_distance (float_lit 1 1)
          then patch_ocr else calculated_patch in
        let calculated_patch :=
          if is_perfect_decode then patch_ocr else calculated_patch in
        Return {|
          report_song := matched_song;
          report_score := calculated_score;
          report_judge := calculated_judge_rate;
          report_patch := calculated_patch;
          report_line := lines;
          report_difficulty := difficulty_str;
          report_level := level_int;
          report_jacket_hash := jacket_hash;
          report_match_distance := match_distance;
          report_rank := calculated_rank;
          report_is_full_combo := is_full_combo;
          report_is_perfect_decode := is_perfect_decode;
          report_is_maximum_patch := is_maximum_patch;
          report_total_notes := total_notes;
          report_perfect_high := perfect_high |}
  end.

(** [extract_info], from the point where the image has been obtained. *)
Definition extract_info (jacket_hash_map : list (Z * Song)) (img : Screenshot)
    : result AnalysisReport :=
  match determine_screen_type img with
  | SELECT => _analyze_select_screen jacket_hash_map (shot_select img)
  | RESULT => analyze_result_screen jacket_hash_map (shot_result img)
  end.

End Analyzer.

Import Analyzer.

(** ** Archive reconciler ([PlatinaArchiveClient]) *)

Module Client.

(** The lines written to the log, by the format string that produces them
    and the values it interpolates. The wall-clock prefix of each line is
    left out. *)
Inductive LogEntry : Type :=
| LogAnalysisComplete
| LogDistanceWarning (match_distance : Z)
| LogLevelWarning (level : Z)
| LogNotUpdated (title : string) (line : Z) (difficulty : string) (level : Z)
    (days hours : Z)
| LogBestJudge (judge : pyfloat) (tag : string)
| LogBestScore (score : Z)
| LogBestPatch (patch : pyfloat)
| LogUpdated (title : string) (line : Z) (difficulty : string) (level : Z)
| LogJudgeChange (old_judge : pyfloat) (old_tag : string) (new_judge : pyfloat)
    (new_tag : string) (djudge : pyfloat)
| LogScoreChange (old_score new_score dscore : Z)
| LogPatchChange (old_patch new_patch dpatch : pyfloat)
| LogNeedPerfectHigh (need_perfect_high : Z).

(** The part of the client the reconciler reads and writes: [self.archive],
    the log widget, and the requests posted to the [update_archive]
    endpoint. The widgets that display the report are not modelled. *)
Record ClientState : Type := {
  archive : gmap string DecodeResult;
  log : list LogEntry;
  outbox : list ArchiveUpdate
}.

(** A method of the client: it can mutate the state and raise, and what it
    has mutated before raising stays mutated. *)
Definition Method (A : Type) : Type := ClientState -> result A * ClientState.

Definition ret {A : Type} (a : A) : Method A := fun st => (Return a, st).

Definition bind {A B : Type} (m : Method A) (k : A -> Method B) : Method B :=
  fun st =>
    match m st with
    | (Return a, st') => k a st'
    | (Raise e, st') => (Raise e, st')
    end.

Definition lift {A : Type} (r : result A) : Method A := fun st => (r, st).

Definition log_message (msg : LogEntry) : Method unit :=
  fun st =>
    (Return tt,
     {| archive := archive st; log := log st ++ [msg]; outbox := outbox st |}).

Definition post_update (payload : ArchiveUpdate) : Method unit :=
  fun st =>
    (Return tt,
     {| archive := archive st; log := log st; outbox := outbox st ++ [payload] |}).

Definition archive_store (key : string) (record : DecodeResult) : Method unit :=
  fun st =>
    (Return tt,
     {| archive := <[key := record]> (archive st); log := log st;
        outbox := outbox st |}).

(** [self.archive.get(key, fallback)] *)
Definition archive_get (key : string) (fallback : DecodeResult)
    : Method DecodeResult :=
  fun st => (Return (default fallback (archive st !! key)), st).

Notation "'do' x '<-' m ';' k" := (bind m (fun x => k))
  (at level 10, x name, m at level 100, k at level 200).
Notation "'step' m ';' k" := (bind m (fun _ => k))
  (at level 10, m at level 100, k at level 200).

(** [f"{song.id}|{line}|{difficulty}|{level}"] *)
Definition archive_key (id line : Z) (difficulty : string) (level : Z) : string :=
  pretty id +:+ "|" +:+ pretty line +:+ "|" +:+ difficulty +:+ "|" +:+ pretty level.

(** The placeholder both methods pass to [self.archive.get]. *)
Definition placeholder (r : AnalysisReport) (now : Z) : DecodeResult :=
  {| decode_song_id := song_id (report_song r);
     decode_line := report_line r;
     decode_difficulty := report_difficulty r;
     decode_level := report_level r;
     decode_judge := f0;
     decode_score := 0;
     decode_patch := f0;
     decode_decoded_at := now;
     decode_is_full_combo := false;
     decode_is_max_patch := false |}.

(** The suffix the report's flags add to a judge line. *)
Definition report_tag (r : AnalysisReport) : string :=
  if report_is_maximum_patch r then " [MAXIMUM P.A.T.C.H.]"
  else if report_is_perfect_decode r then " [PERFECT DECODE]"
  else if report_is_full_combo r then " [FULL COMBO]"
  else "".

(** [log_higher_score_and_report]; [update_time] is what
    [datetime.now(timezone.utc)] returns there. *)
Definition log_higher_score_and_report (new_archive : AnalysisReport)
    (existing_archive : DecodeResult) (update_time : Z) : Method unit :=
  step log_message
    (LogUpdated (song_title (report_song new_archive)) (report_line new_archive)
       (report_difficulty new_archive) (report_level new_archive));
  let old_tag :=
    if feq (decode_judge existing_archive) f100 then " [PERFECT DECODE]"
    else if decode_is_full_combo existing_archive then " [FULL COMBO]"
    else "" in
  do djudge <-
    lift (py_round (SF64sub (report_judge new_archive)
                      (decode_judge existing_archive)) 4);
  step log_message
    (LogJudgeChange (decode_judge existing_archive) old_tag
       (report_judge new_archive) (report_tag new_archive) djudge);
  let dscore := report_score new_archive - decode_score existing_archive in
  step log_message
    (LogScoreChange (decode_score existing_archive) (report_score new_archive)
       dscore);
  do dpatch <-
    lift (py_round (SF64sub (report_patch new_archive)
                      (decode_patch existing_archive)) 2);
  step log_message
    (LogPatchChange (decode_patch existing_archive) (report_patch new_archive)
       dpatch);
  step
    (if report_is_perfect_decode new_archive
        && negb (report_total_notes new_archive =? 0)
        && negb (report_is_maximum_patch new_archive)
     then
       do theoretical_perfect_high <-
         lift (let* total := float_of_int (report_total_notes new_archive) in
               py_ceil (SF64mul total (float_lit 98 2)));
       log_message
         (LogNeedPerfectHigh
            (theoretical_perfect_high - report_perfect_high new_archive))
     else ret tt);
  step post_update (report_json new_archive);
  let archive_key :=
    archive_key (song_id (report_song new_archive)) (report_line new_archive)
      (report_difficulty new_archive) (report_level new_archive) in
  do internal_archive <-
    archive_get archive_key (placeholder new_archive update_time);
  archive_store archive_key
    {| decode_song_id := decode_song_id internal_archive;
       decode_line := decode_line internal_archive;
       decode_difficulty := decode_difficulty internal_archive;
       decode_level := decode_level internal_archive;
       decode_judge := report_judge new_archive;
       decode_score := report_score new_archive;
       decode_patch := report_patch new_archive;
       decode_decoded_at := update_time;
       decode_is_full_combo := report_is_full_combo new_archive;
       decode_is_max_patch := report_is_maximum_patch new_archive |}.

(** The lines of [update_display] that precede the comparison. *)
Definition log_analysis (report : AnalysisReport) : Method unit :=
  step log_message LogAnalysisComplete;
  step
    (if report_match_distance report >? 5
     then log_message (LogDistanceWarning (report_match_distance report))
     else ret tt);
  if negb (contains
             (get_available_levels (song_patterns (report_song report))
                (report_line report) (report_difficulty report))
             (report_level report))
  then log_message (LogLevelWarning (report_level report))
  else ret tt.

(** The tail of [update_display], after the comment [# Not a better score]. *)
Definition log_not_better (report : AnalysisReport)
    (existing_archive : DecodeResult) (utc_now : Z) : Method unit :=
  let dt := utc_now - decode_decoded_at existing_archive in
  let days := dt / 86400000000 in
  let seconds := (dt mod 86400000000) / 1000000 in
  step log_message
    (LogNotUpdated (song_title (report_song report)) (report_line report)
       (report_difficulty report) (report_level report) days (seconds / 3600));
  let tag :=
    if decode_is_max_patch existing_archive then " [MAXIMUM P.A.T.C.H.]"
    else if feq (decode_judge existing_archive) f100 then " [PERFECT DECODE]"
    else if decode_is_full_combo existing_archive then " [FULL COMBO]"
    else "" in
  step log_message (LogBestJudge (decode_judge existing_archive) tag);
  step log_message (LogBestScore (decode_score existing_archive));
  log_message (LogBestPatch (decode_patch existing_archive)).

(** [update_display], from [# Log results] on; [utc_now] is its clock
    reading and [update_time] the later one of
    [log_higher_score_and_report]. *)
Definition update_display (report : AnalysisReport) (utc_now update_time : Z)
    : Method unit :=
  step log_analysis report;
  let archive_key :=
    archive_key (song_id (report_song report)) (report_line report)
      (report_difficulty report) (report_level report) in
  do existing_archive <- archive_get archive_key (placeholder report utc_now);
  if fgt (report_judge report) (decode_judge existing_archive) then
    log_higher_score_and_report report existing_archive update_time
  else if feq (report_judge report) (decode_judge existing_archive) then
    if report_score report >? decode_score existing_archive then
      log_higher_score_and_report report existing_archive update_time
    else if report_score report =? decode_score existing_archive then
      if report_is_full_combo report
         && negb (decode_is_full_combo existing_archive)
      then log_higher_score_and_report report existing_archive update_time
      else log_not_better report existing_archive utc_now
    else log_not_better report existing_archive utc_now
  else log_not_better report existing_archive utc_now.

End Client.

Import Client.

(** ** The specification's wording of the scoring rules *)

Module Spec.

(** The rank ladder of the specification: thresholds in descending order,
    each with the rank an accuracy at or above it receives; below the last
    one the rank is C. *)
Definition rank_ladder : list (pyfloat * string) :=
  [ (float_lit 998 1, "SS+");
    (float_lit 995 1, "SS");
    (float_lit 99 0, "S+");
    (float_lit 98 0, "S");
    (float_lit 97 0, "AA+");
    (float_lit 95 0, "AA");
    (float_lit 90 0, "A+");
    (float_lit 80 0, "A");
    (float_lit 70 0, "B") ].

Fixpoint rank_by_ladder (ladder : list (pyfloat * string)) (accuracy : pyfloat)
    : string :=
  match ladder with
  | [] => "C"
  | (threshold, rank) :: rest =>
      if fge accuracy threshold then rank else rank_by_ladder rest accuracy
  end.

(** The order of the ranks, lowest first; F is below them all. *)
Definition rank_order : list string :=
  ["F"; "C"; "B"; "A"; "A+"; "AA"; "AA+"; "S"; "S+"; "SS"; "SS+"].

Fixpoint position (ranks : list string) (rank : string) : Z :=
  match ranks with
  | [] => 0
  | r :: rest => if String.eqb rank r then 0 else 1 + position rest rank
  end.

Definition rank_position (rank : string) : Z := position rank_order rank.

(** The rank-to-ratio table of the specification. *)
Definition ratio_table : list (string * pyfloat) :=
  [ ("C", float_lit 2 1); ("B", float_lit 3 1); ("A", float_lit 4 1);
    ("A+", float_lit 5 1); ("AA", float_lit 6 1); ("AA+", float_lit 7 1);
    ("S", float_lit 8 1); ("S+", float_lit 9 1); ("SS", float_lit 95 2);
    ("SS+", float_lit 1 0) ].

(** Rating: level x 42 x (accuracy / 100) x ratio, multiplied by 1.02 for
    the PLUS variant, rounded to 2 decimals. *)
Definition rating_formula (level : Z) (ratio : pyfloat) (is_plus : bool)
    (accuracy : pyfloat) : result pyfloat :=
  let* l42 := float_of_int (level * 42) in
  let base := SF64mul (SF64mul l42 (SF64div accuracy f100)) ratio in
  py_round (if is_plus then SF64mul base (float_lit 102 2) else base) 2.

(** Note-count repair in the specification's words, on the five counts in
    priority order: the index of the first count that exceeds the total
    (the last index when none does) is recomputed as the total minus the
    sum of the other four. *)
Fixpoint first_exceeding (total : Z) (counts : list Z) (index : nat) : option nat :=
  match counts with
  | [] => None
  | c :: rest =>
      if c >? total then Some index else first_exceeding total rest (S index)
  end.

Definition sum_counts (counts : list Z) : Z := fold_right Z.add 0 counts.

Definition repair_by_priority (total : Z) (counts : list Z) : list Z :=
  if total =? sum_counts counts then counts
  else
    let i := default 4%nat (first_exceeding total counts 0) in
    <[ i := total - (sum_counts counts - nth i counts 0) ]> counts.

Definition counts_of (t : Z * Z * Z * Z * Z) : list Z :=
  let '(ph, p, g, d, m) := t in [ph; p; g; d; m].

(** The reconciler's comparison: (a) higher accuracy; (b) equal accuracy,
    higher score; (c) equal accuracy and score, full combo where the
    record had none. *)
Definition wins (new : AnalysisReport) (existing : DecodeResult) : bool :=
  fgt (report_judge new) (decode_judge existing)
  || (feq (report_judge new) (decode_judge existing)
      && (report_score new >? decode_score existing))
  || (feq (report_judge new) (decode_judge existing)
      && (report_score new =? decode_score existing)
      && report_is_full_combo new && negb (decode_is_full_combo existing)).

(** The record the reconciler compares a report with: the stored one, or
    the zero-valued placeholder. *)
Definition best_record (report : AnalysisReport) (utc_now : Z)
    (st : ClientState) : DecodeResult :=
  default (placeholder report utc_now)
    (archive st
       !! archive_key (song_id (report_song report)) (report_line report)
            (report_difficulty report) (report_level report)).

(** What is reported of a record that stands: the time elapsed since it
    was set, in days and hours, and its accuracy, score and rating. *)
Definition record_summary (report : AnalysisReport) (existing : DecodeResult)
    (utc_now : Z) : list LogEntry :=
  let elapsed := utc_now - decode_decoded_at existing in
  [ LogNotUpdated (song_title (report_song report)) (report_line report)
      (report_difficulty report) (report_level report)
      (elapsed / 86400000000)
      (elapsed mod 86400000000 / 1000000 / 3600);
    LogBestJudge (decode_judge existing)
      (if decode_is_max_patch existing then " [MAXIMUM P.A.T.C.H.]"
       else if feq (decode_judge existing) f100 then " [PERFECT DECODE]"
       else if decode_is_full_combo existing then " [FULL COMBO]"
       else "");
    LogBestScore (decode_score existing);
    LogBestPatch (decode_patch existing) ].

(** The log of [st'] is that of [st] with lines added at its end. *)
Definition log_extends (st st' : ClientState) : Prop :=
  exists lines, log st' = log st ++ lines.

(** A method that never removes a line from the log, raising or not. *)
Definition extending {A : Type} (m : Method A) : Prop :=
  forall st, log_extends st (snd (m st)).

(** The state in which the comparison is made. *)
Definition after_analysis_log (report : AnalysisReport) (st : ClientState)
    : ClientState :=
  snd (log_analysis report st).

(** The jacket hash the pipeline matches, by screen type. *)
Definition jacket_of (img : Screenshot) : Z :=
  match determine_screen_type img with
  | SELECT => select_jacket_hash (shot_select img)
  | RESULT => result_jacket_hash (shot_result img)
  end.

(** Song-match acceptance: the best match is at distance 5 or below. *)
Definition accepted (jacket_hash_map : list (Z * Song)) (img : Screenshot) : bool :=
  match get_best_match_song jacket_hash_map (jacket_of img) with
  | Some (_, distance) => distance <=? 5
  | None => false
  end.

Definition recognition_rejected {A : Type} (r : result A) : bool :=
  match r with
  | Raise ArchiveException => true
  | _ => false
  end.

(** [100 / 2^e], an integer as soon as [e <= 2]. *)
Definition cap (e : Z) : Z := 25 * 2 ^ (2 - e).

(** A shifted mantissa with its round and sticky bits stays under [B],
    strictly when a bit has been shifted out. *)
Definition under (B : Z) (mrs : shr_record) : Prop :=
  0 <= shr_m mrs <= B /\ (shr_r mrs || shr_s mrs = true -> shr_m mrs < B).

(** The floats from 0 to 100 as the rounding produces them: the positive
    zero, or a positive [m * 2^e] with [m <= 100 / 2^e] and an exponent not
    above that of 100. *)
Definition within_0_100 (x : spec_float) : Prop :=
  match x with
  | S754_zero s => s = false
  | S754_finite s m e => s = false /\ e <= -46 /\ Zpos m <= cap e
  | _ => False
  end.

End Spec.

Import Spec.

(** ** Sample data *)

Module Sample.

Definition song : Song :=
  {| song_id := 7; song_title := "Sample"; song_artist := "Artist";
     song_bpm := "150"; song_dlc := "Base";
     song_phash := Some 0xf3738c6596f2218c; song_plus_phash := None;
     song_patterns :=
       [ {| pattern_line := 6; pattern_difficulty := "HARD";
            pattern_level := 15; pattern_designer := "Designer" |} ] |}.

Definition hash_map : list (Z * Song) :=
  _build_jacket_hash_map (build_song_db [song]).

(** A result screen of [song] on which every integer recognizer has
    returned its default 0. *)
Definition blank_result : ResultReadings :=
  {| result_jacket_hash := 0xf3738c6596f2218c;
     result_line := 6;
     result_level := 0;
     result_patch := f0;
     result_score := 0;
     result_total_notes := 0;
     result_perfect_high := 0;
     result_perfect := 0;
     result_great := 0;
     result_good := 0;
     result_miss := 0;
     result_rank_hash := 0;
     result_difficulty_color := (252, 109, 111) |}.

(** A 6-line HARD play of [song], 90 top-tier-high and 10 mid-tier
    judgements out of 100, whose level 15 has been read as 5 and whose
    on-screen rating 427.77 has been read correctly. *)
Definition misread_level_result : ResultReadings :=
  {| result_jacket_hash := 0xf3738c6596f2218c;
     result_line := 6;
     result_level := 5;
     result_patch := float_lit 42777 2;
     result_score := 19000;
     result_total_notes := 100;
     result_perfect_high := 90;
     result_perfect := 0;
     result_great := 10;
     result_good := 0;
     result_miss := 0;
     result_rank_hash := 0;
     result_difficulty_color := (252, 109, 111) |}.

(** A select screen of [song] whose scanned column holds no pivot pixel. *)
Definition no_pivot_select : SelectReadings :=
  {| select_jacket_hash := 0xf3738c6596f2218c;
     select_line := 6;
     select_score := 190000;
     select_major_patch := 427;
     select_minor_patch := 77;
     select_major_judge := 97;
     select_minor_judge := 0;
     select_pivot_pixel := fun _ => (0, 0, 0);
     select_level_ocr := fun _ => 15;
     select_level_by_phash := fun _ => 15;
     select_full_combo_hash := 0;
     select_max_patch_pixel := (0, 0, 0);
     select_rank_hash := 0 |}.

Definition result_shot (readings : ResultReadings) : Screenshot :=
  {| shot_select_speed_hash := 0;
     shot_result := readings;
     shot_select := no_pivot_select |}.

Definition select_shot (readings : SelectReadings) : Screenshot :=
  {| shot_select_speed_hash := 0xc0c73d38273ed2c3;
     shot_result := blank_result;
     shot_select := readings |}.

(** The records of the specification's comparison example. *)
Definition stored_best : DecodeResult :=
  {| decode_song_id := 7; decode_line := 6; decode_difficulty := "HARD";
     decode_level := 15; decode_judge := float_lit 98 0;
     decode_score := 900000; decode_patch := float_lit 49392 2;
     decode_decoded_at := 0; decode_is_full_combo := false;
     decode_is_max_patch := false |}.

Definition full_combo_report : AnalysisReport :=
  {| report_song := song; report_score := 900000;
     report_judge := float_lit 98 0; report_patch := float_lit 49392 2;
     report_line := 6; report_difficulty := "HARD"; report_level := 15;
     report_jacket_hash := 0xf3738c6596f2218c; report_match_distance := 0;
     report_rank := "S"; report_is_full_combo := true;
     report_is_perfect_decode := false; report_is_maximum_patch := false;
     report_total_notes := 0; report_perfect_high := 0 |}.

Definition no_combo_report : AnalysisReport :=
  {| report_song := song; report_score := 900000;
     report_judge := float_lit 98 0; report_patch := float_lit 49392 2;
     report_line := 6; report_difficulty := "HARD"; report_level := 15;
     report_jacket_hash := 0xf3738c6596f2218c; report_match_distance := 0;
     report_rank := "S"; report_is_full_combo := false;
     report_is_perfect_decode := false; report_is_maximum_patch := false;
     report_total_notes := 0; report_perfect_high := 0 |}.

Definition client_with_best : ClientState :=
  {| archive := {[ "7|6|HARD|15" := stored_best ]}; log := []; outbox := [] |}.

End Sample.

(** ** Region scaling ([_ratio], [_scale_coordinate], [_get_abs_coords]) *)

Module Regions.

Definition REF_W : Z := 1920.
Definition REF_H : Z := 1080.

(** [round(x)] on a float, without [ndigits]: the nearest [int], ties to
    even; it refuses infinities and NaN. *)
Definition py_round_int (x : pyfloat) : result Z :=
  match x with
  | S754_zero _ => Return 0
  | S754_infinity _ => Raise OverflowError
  | S754_nan => Raise ValueError
  | S754_finite s m e =>
      let n :=
        match e with
        | Zneg k => div_half_even (Zpos m) (2 ^ Zpos k)
        | _ => Zpos m * 2 ^ e
        end in
      Return (if s then - n else n)
  end.

(** [_ratio] *)
Definition _ratio (x y : Z) : result (pyfloat * pyfloat) :=
  let* ratio_x := int_truediv x REF_W in
  let* ratio_y := int_truediv y REF_H in
  Return (ratio_x, ratio_y).

(** [_scale_coordinate]; [int(round(...))] is [round(...)], already an
    [int]. *)
Definition _scale_coordinate (ratio_x ratio_y : pyfloat) (size : Z * Z)
    : result (Z * Z) :=
  let '(user_width, user_height) := size in
  let* width := float_of_int user_width in
  let* abs_x := py_round_int (SF64mul width ratio_x) in
  let* height := float_of_int user_height in
  let* abs_y := py_round_int (SF64mul height ratio_y) in
  Return (abs_x, abs_y).

(** [_get_abs_coords] *)
Definition _get_abs_coords (coords : Z * Z * Z * Z) (size : Z * Z)
    : result (Z * Z * Z * Z) :=
  let '(c0, c1, c2, c3) := coords in
  let* r1 := _ratio c0 c1 in
  let* r2 := _ratio c2 c3 in
  let* abs1 := _scale_coordinate (fst r1) (snd r1) size in
  let* abs2 := _scale_coordinate (fst r2) (snd r2) size in
  Return (fst abs1, snd abs1, fst abs2, snd abs2).

(** Screenshot sizes in the 16:9 shape of the reference frame. *)
Definition standard_sizes : list (Z * Z) :=
  [ (1280, 720); (1600, 900); (1920, 1080); (2560, 1440); (3200, 1800);
    (3840, 2160) ].

(** [abs] is a pixel nearest to the exact position [ref_coord * user / ref]. *)
Definition nearest_pixel (ref user ref_coord abs : Z) : Prop :=
  2 * Z.abs (ref * abs - ref_coord * user) <= ref.

End Regions.

Import Regions.

(** ** Field recognizers ([ScreenshotAnalyzer], static methods) *)

Module Recognizers.

(** The scan all hash tables share: [closest] and [closest_distance] are
    replaced by each entry strictly nearer than what has been seen;
    [closest_distance] is [None] while it is [float("inf")]. *)
Fixpoint closest_loop {V : Type} (table : list (V * Z)) (distance_to : Z -> Z)
    (closest : V) (closest_distance : option Z) : V * option Z :=
  match table with
  | [] => (closest, closest_distance)
  | (value, known_hash) :: rest =>
      let distance := distance_to known_hash in
      let nearer :=
        match closest_distance with
        | None => true
        | Some d => distance <? d
        end in
      if nearer then closest_loop rest distance_to value (Some distance)
      else closest_loop rest distance_to closest closest_distance
  end.

(** [level_hash_map] of [find_level_phash] *)
Definition level_hash_map : list (Z * Z) :=
  [ (5, 0xec6495db9b249293); (6, 0xeea5995a92ad9292);
    (8, 0xeead9552916d9292); (9, 0xec32954d93b2926d) ].

(** [find_level_phash], on the hash of the image *)
Definition find_level_phash (given_hash : Z) : Z :=
  match closest_loop level_hash_map
          (fun compare_hash => hash_distance compare_hash given_hash) 0 None
  with
  | (closest_level, Some closest_distance) =>
      if closest_distance <? 5 then closest_level else 0
  | (_, None) => 0
  end.

(** [get_ocr_integer]: [text_int] is what [int(text)] returns on the text
    read, [None] when it raises [ValueError]; [crop_hash] is the hash of
    the region. *)
Definition get_ocr_integer (text_int : option Z) (crop_hash : Z) : Z :=
  match text_int with
  | Some n => n
  | None => find_level_phash crop_hash
  end.

(** [get_ocr_line] *)
Definition get_ocr_line (text_int : option Z) : Z :=
  match text_int with
  | Some n => n
  | None => 6
  end.

(** [level_hash_map] of [read_selected_level_by_phash] *)
Definition selected_level_hash_map : list (Z * Z) :=
  [ (5, 0xea66a51ad2696497); (7, 0xeb4ae42dc42eb196);
    (15, 0xe87c8d02d369c697); (19, 0xe87a8d09cd699297);
    (21, 0xf26aad11d327849d) ].

Fixpoint first_within (table : list (Z * Z)) (phash : Z) : Z :=
  match table with
  | [] => 0
  | (level, level_hash) :: rest =>
      if hash_distance phash level_hash <? 3 then level
      else first_within rest phash
  end.

(** [read_selected_level_by_phash], on the hash of the image *)
Definition read_selected_level_by_phash (phash : Z) : Z :=
  first_within selected_level_hash_map phash.

(** The three select-screen readers share their body: the nearest entry of
    a hash table is returned when its distance is below 3; otherwise the
    text read, or 0 when [int(text)] raises. [possible_patch] starts as the
    empty string, [None] here, and [lowest_distance] as 50. *)
Definition read_by_table (phash_map : list (Z * Z)) (text_int : option Z)
    (phash : Z) : Z :=
  let '(possible_patch, lowest_distance) :=
    closest_loop (map (fun entry => (Some (fst entry), snd entry)) phash_map)
      (fun known_phash => hash_distance phash known_phash) None (Some 50) in
  match possible_patch, lowest_distance with
  | Some patch, Some distance =>
      if distance <? 3 then patch else default 0 text_int
  | _, _ => default 0 text_int
  end.

Definition major_patch_map : list (Z * Z) :=
  [ (609, 0xf3738c6596f2218c); (610, 0xf3738e6696a3218c);
    (627, 0xe151ca6616e93b9c); (637, 0xe1518e6216e52f9e);
    (641, 0xf3f19a622c93698c); (642, 0xf371966a2ad2658c);
    (661, 0xe3619a63af61619c); (670, 0xf3698c662cb3338c);
    (671, 0xf3698c662cf3138c); (676, 0xf36b8c6405f2738c) ].

Definition minor_patch_map : list (Z * Z) :=
  [ (22, 0xae78d02f0dac78d2); (88, 0xaa2ad5ad52cc2cd3) ].

Definition minor_judge_map : list (Z * Z) :=
  [ (5277, 0x9dc1aabc8183ec3b); (5572, 0x9be4e6ea9110ee13) ].

(** [get_ocr_select_major_patch] *)
Definition get_ocr_select_major_patch : option Z -> Z -> Z :=
  read_by_table major_patch_map.

(** [get_ocr_select_minor_patch] *)
Definition get_ocr_select_minor_patch : option Z -> Z -> Z :=
  read_by_table minor_patch_map.

(** [get_ocr_select_minor_judge] *)
Definition get_ocr_select_minor_judge : option Z -> Z -> Z :=
  read_by_table minor_judge_map.

Inductive digit : Set := D0 | D1 | D2 | D3 | D4 | D5 | D6 | D7 | D8 | D9.

Definition digit_value (d : digit) : Z :=
  match d with
  | D0 => 0 | D1 => 1 | D2 => 2 | D3 => 3 | D4 => 4
  | D5 => 5 | D6 => 6 | D7 => 7 | D8 => 8 | D9 => 9
  end.

(** The characters Tesseract returns under the whitelist [0123456789.]. *)
Inductive patch_char : Set :=
| Digit (d : digit)
| Dot.

Definition is_dot (c : patch_char) : bool :=
  match c with
  | Dot => true
  | Digit _ => false
  end.

(** The number a string of digits denotes, most significant first. *)
Definition digits_value (digits : list digit) : Z :=
  fold_left (fun acc d => 10 * acc + digit_value d) digits 0.

Fixpoint digits_of (text : list patch_char) : option (list digit) :=
  match text with
  | [] => Some []
  | Digit d :: rest => option_map (cons d) (digits_of rest)
  | Dot :: _ => None
  end.

Fixpoint split_at_dot (text : list patch_char)
    : list patch_char * option (list patch_char) :=
  match text with
  | [] => ([], None)
  | Dot :: rest => ([], Some rest)
  | c :: rest =>
      let '(before, after) := split_at_dot rest in (c :: before, after)
  end.

(** [float(text)] on such a text: digits with at most one point and at
    least one digit; [None] when it raises [ValueError]. *)
Definition float_of_text (text : list patch_char) : option pyfloat :=
  match split_at_dot text with
  | (before, None) =>
      match digits_of before with
      | Some (d :: ds) => Some (float_lit (digits_value (d :: ds)) 0)
      | _ => None
      end
  | (before, Some after) =>
      match digits_of before, digits_of after with
      | Some [], Some [] => None
      | Some whole, Some frac =>
          Some (float_lit (digits_value (whole ++ frac))
                  (Z.of_nat (length frac)))
      | _, _ => None
      end
  end.

(** [get_ocr_patch], on the text read *)
Definition get_ocr_patch (text : list patch_char) : pyfloat :=
  let text :=
    if negb (existsb is_dot text) && (3 <=? length text)%nat then
      firstn (length text - 2) text ++ [Dot] ++ skipn (length text - 2) text
    else text in
  match float_of_text text with
  | Some patch => patch
  | None => f0
  end.

End Recognizers.

Import Recognizers.

(** ** Catalog and archive feeds ([fetch_songs], [fetch_archive]) *)

Module Feeds.

(** An entry of the song feed and one of the pattern feed, decoded. *)
Record SongData : Type := {
  data_song_id : Z;
  data_title : string;
  data_artist : string;
  data_bpm : string;
  data_dlc : string;
  data_phash : option Z;
  data_plus_phash : option Z
}.

Record PatternData : Type := {
  data_pattern_song_id : Z;
  data_line : Z;
  data_difficulty : string;
  data_level : Z;
  data_designer : string
}.

Definition pattern_of (pattern_data : PatternData) : Pattern :=
  {| pattern_line := data_line pattern_data;
     pattern_difficulty := data_difficulty pattern_data;
     pattern_level := data_level pattern_data;
     pattern_designer := data_designer pattern_data |}.

(** [Song.add_pattern] *)
Definition add_pattern (song : Song) (pattern : Pattern) : Song :=
  {| song_id := song_id song;
     song_title := song_title song;
     song_artist := song_artist song;
     song_bpm := song_bpm song;
     song_dlc := song_dlc song;
     song_phash := song_phash song;
     song_plus_phash := song_plus_phash song;
     song_patterns := song_patterns song ++ [pattern] |}.

(** [if song_id in songs: songs[song_id].add_pattern(pattern)] *)
Fixpoint link_pattern (songs : list (Z * Song)) (song_id : Z) (pattern : Pattern)
    : list (Z * Song) :=
  match songs with
  | [] => []
  | (k, song) :: rest =>
      if song_id =? k then (k, add_pattern song pattern) :: rest
      else (k, song) :: link_pattern rest song_id pattern
  end.

Section FetchSongs.

(** [str.strip] *)
Variable strip : string -> string.

(** The [Song] built from a feed entry, without patterns yet. *)
Definition song_of (song_data : SongData) : Song :=
  {| song_id := data_song_id song_data;
     song_title := data_title song_data;
     song_artist := strip (data_artist song_data);
     song_bpm := data_bpm song_data;
     song_dlc := data_dlc song_data;
     song_phash := data_phash song_data;
     song_plus_phash := data_plus_phash song_data;
     song_patterns := [] |}.

(** The part of [fetch_songs] that follows the two requests: the songs
    are built from [songs_json], the patterns of [patterns_json] linked to
    them, and the dictionary's values returned. *)
Definition fetch_songs (songs_json : list SongData)
    (patterns_json : list PatternData) : list Song :=
  let songs :=
    fold_left
      (fun songs song_data =>
         let song := song_of song_data in dict_set songs (song_id song) song)
      songs_json [] in
  let songs :=
    fold_left
      (fun songs pattern_data =>
         link_pattern songs (data_pattern_song_id pattern_data)
           (pattern_of pattern_data))
      patterns_json songs in
  map snd songs.

End FetchSongs.

(** The key under which a record is stored. *)
Definition key_of (record : DecodeResult) : string :=
  archive_key (decode_song_id record) (decode_line record)
    (decode_difficulty record) (decode_level record).

(** The part of [fetch_archive] that follows the request, on the decoded
    entries of the response. *)
Definition fetch_archive (archive_json : list DecodeResult)
    : gmap string DecodeResult :=
  fold_left (fun archive arc => <[key_of arc := arc]> archive) archive_json ∅.

(** Every record of the archive is stored under its own key. *)
Definition keyed (archive : gmap string DecodeResult) : Prop :=
  forall key record, archive !! key = Some record -> key = key_of record.

End Feeds.

Import Feeds.

(** ** Auxiliary notions of the properties below *)

Module Notions.

(** Number of one bits of a natural number. *)
Definition popcountN (n : N) : Z :=
  match n with
  | N0 => 0
  | Npos p => popcount p
  end.

(** The distances of the entries of a hash map from a target hash. *)
Definition distance_of (target_hash : Z) (entry : Z * Song) : Z :=
  hash_distance target_hash (fst entry).

(** The key under which the reconciler looks a report up. *)
Definition report_key (report : AnalysisReport) : string :=
  archive_key (song_id (report_song report)) (report_line report)
    (report_difficulty report) (report_level report).

(** The record the update branch stores for a report: the chart fields of
    the record it found (or of the placeholder), the results of the
    report. *)
Definition updated_record (report : AnalysisReport) (found : DecodeResult)
    (update_time : Z) : DecodeResult :=
  {| decode_song_id := decode_song_id found;
     decode_line := decode_line found;
     decode_difficulty := decode_difficulty found;
     decode_level := decode_level found;
     decode_judge := report_judge report;
     decode_score := report_score report;
     decode_patch := report_patch report;
     decode_decoded_at := update_time;
     decode_is_full_combo := report_is_full_combo report;
     decode_is_max_patch := report_is_maximum_patch report |}.

(** [d.get(k)] on a dictionary kept as an association list. *)
Fixpoint dict_find {V : Type} (d : list (Z * V)) (k : Z) : option V :=
  match d with
  | [] => None
  | (k', v) :: d' => if k =? k' then Some v else dict_find d' k
  end.

(** [song] with [patterns] added at the end of its pattern list. *)
Definition with_patterns (song : Song) (patterns : list Pattern) : Song :=
  {| song_id := song_id song;
     song_title := song_title song;
     song_artist := song_artist song;
     song_bpm := song_bpm song;
     song_dlc := song_dlc song;
     song_phash := song_phash song;
     song_plus_phash := song_plus_phash song;
     song_patterns := song_patterns song ++ patterns |}.

(** The entries of the pattern feed that name the song [id], as patterns,
    in feed order. *)
Definition patterns_for (patterns_json : list PatternData) (id : Z)
    : list Pattern :=
  map pattern_of (filter (fun p => data_pattern_song_id p = id) patterns_json).

(** The hashes of a table are pairwise at distance [gap] or more. *)
Fixpoint separated (gap : Z) (table : list (Z * Z)) : bool :=
  match table with
  | [] => true
  | (_, known_hash) :: rest =>
      forallb (fun entry => gap <=? hash_distance known_hash (snd entry)) rest
      && separated gap rest
  end.

(** One axis of [_ratio] followed by [_scale_coordinate]: the reference
    coordinate [coord] of an axis of length [ref], on a screenshot whose
    axis has length [user]. *)
Definition scale_axis (ref user coord : Z) : result Z :=
  let* ratio := int_truediv coord ref in
  let* length := float_of_int user in
  py_round_int (SF64mul length ratio).

(** [scale_axis] returns a nearest pixel. *)
Definition scale_ok (ref user coord : Z) : bool :=
  match scale_axis ref user coord with
  | Return abs => 2 * Z.abs (ref * abs - coord * user) <=? ref
  | Raise _ => false
  end.

(** [f] holds of 0, 1, ..., [n]. *)
Definition all_upto (n : Z) (f : Z -> bool) : bool :=
  forallb (fun i => f (Z.of_nat i)) (seq 0 (Z.to_nat (n + 1))).

(** The catalog lists the chart of the report: its song has a pattern
    with the report's line count, difficulty and level. *)
Definition registered (report : AnalysisReport) : Prop :=
  exists pattern,
    In pattern (song_patterns (report_song report))
    /\ pattern_line pattern = report_line report
    /\ pattern_difficulty pattern = report_difficulty report
    /\ pattern_level pattern = report_level report.

(** The character [|], code 124, low bit first. *)
Definition bar : Ascii.ascii :=
  Ascii.Ascii false false true true true true true false.

(** The separator of the archive keys occurs in [s]. *)
Fixpoint has_bar (s : string) : bool :=
  match s with
  | EmptyString => false
  | String c rest => Ascii.eqb c bar || has_bar rest
  end.

(** [k / 2^j] as a mantissa of exponent [e], an integer as soon as
    [e <= - j]. *)
Definition dyadic_cap (k j e : Z) : Z := k * 2 ^ (- j - e).

(** The floats from 0 to [k / 2^j] as the rounding produces them. *)
Definition below (k j : Z) (x : spec_float) : Prop :=
  match x with
  | S754_zero s => s = false
  | S754_finite s m e => s = false /\ e <= -46 /\ Zpos m <= dyadic_cap k j e
  | _ => False
  end.

(** [h] is one of the two jacket hashes of [song]. *)
Definition has_hash (song : Song) (h : Z) : Prop :=
  song_phash song = Some h \/ song_plus_phash song = Some h.

End Notions.

Import Notions.

(** ** Further sample screens *)

Module Plays.

(** A select screen of [Sample.song] whose arrow is found at row 700 in
    the HARD colour, with rating 427.07 and accuracy 97.0512 read as the
    integer pairs (427, 7) and (97, 512). *)
Definition hard_select : SelectReadings :=
  {| select_jacket_hash := 0xf3738c6596f2218c;
     select_line := 6;
     select_score := 190000;
     select_major_patch := 427;
     select_minor_patch := 7;
     select_major_judge := 97;
     select_minor_judge := 512;
     select_pivot_pixel := fun y => if y =? 700 then (234, 98, 124) else (0, 0, 0);
     select_level_ocr := fun _ => 15;
     select_level_by_phash := fun _ => 15;
     select_full_combo_hash := 0;
     select_max_patch_pixel := (0, 0, 0);
     select_rank_hash := 0 |}.

(** A result screen of [Sample.song]: 95 top-tier-high and 5 top-tier
    judgements out of 100 notes, rating 630.0 on screen. *)
Definition perfect_result : ResultReadings :=
  {| result_jacket_hash := 0xf3738c6596f2218c;
     result_line := 6;
     result_level := 15;
     result_patch := float_lit 630 0;
     result_score := 19750;
     result_total_notes := 100;
     result_perfect_high := 95;
     result_perfect := 5;
     result_great := 0;
     result_good := 0;
     result_miss := 0;
     result_rank_hash := 0;
     result_difficulty_color := (252, 109, 111) |}.

(** A result screen of [Sample.song] on which the total is read as 10 and
    the first three judgement counts as 5 each. *)
Definition overcount_result : ResultReadings :=
  {| result_jacket_hash := 0xf3738c6596f2218c;
     result_line := 6;
     result_level := 15;
     result_patch := f0;
     result_score := 2250;
     result_total_notes := 10;
     result_perfect_high := 5;
     result_perfect := 5;
     result_great := 5;
     result_good := 0;
     result_miss := 0;
     result_rank_hash := 0;
     result_difficulty_color := (252, 109, 111) |}.

End Plays.


(** * Properties *)

(** ** The float model against the machine's binary64 *)

Section Binary64.

(** The literals of the source are the doubles the hardware parses. *)
Example float_lit_99_8 : float_lit 998 1 = Prim2SF 0x1.8f33333333333p+6%float.
Proof. vm_compute. reflexivity. Qed.

Example float_lit_1_02 : float_lit 102 2 = Prim2SF 0x1.051eb851eb852p+0%float.
Proof. vm_compute. reflexivity. Qed.

Example float_lit_0_98 : float_lit 98 2 = Prim2SF 0x1.f5c28f5c28f5cp-1%float.
Proof. vm_compute. reflexivity. Qed.

(** Integer division is the hardware division of the two integers. *)
Example int_truediv_9700_100 :
  int_truediv 9700 100 = Return (Prim2SF (9700 / 100)%float).
Proof. vm_compute. reflexivity. Qed.

Example int_truediv_1_3 : int_truediv 1 3 = Return (Prim2SF (1 / 3)%float).
Proof. vm_compute. reflexivity. Qed.

(** [round(2.675, 2)] is 2.67: the double nearest to 2.675 lies below it. *)
Example py_round_2_675 : py_round (float_lit 2675 3) 2 = Return (float_lit 267 2).
Proof. vm_compute. reflexivity. Qed.

(** [round(0.125, 2)] is 0.12: an exact tie goes to the even digit. *)
Example py_round_0_125 : py_round (float_lit 125 3) 2 = Return (float_lit 12 2).
Proof. vm_compute. reflexivity. Qed.

End Binary64.


(** ** Rounding to binary64 stays within 0 and 100 *)

Section RoundBound.

(** Bit counts of the mantissas, against powers of two. *)
Lemma pow2_gt_1 (k : Z) (n : Z) : 1 <= n -> n < 2 ^ k -> 0 < k.
Proof.
  intros Hn Hk. destruct (Z_lt_le_dec 0 k) as [ | Hle]; [assumption | exfalso].
  destruct (Z.eq_dec k 0) as [-> | Hne]; [cbn in Hk; lia | ].
  rewrite Z.pow_neg_r in Hk by lia. lia.
Qed.

Lemma digits2_pos_upper (q : positive) :
  forall k, Zpos q < 2 ^ k -> Zpos (digits2_pos q) <= k.
Proof.
  induction q as [q IH | q IH | ]; intros k Hk; cbn [digits2_pos].
  - assert (0 < k) by (eapply pow2_gt_1; [ | exact Hk]; lia).
    replace k with (Z.succ (k - 1)) in Hk by lia.
    rewrite Z.pow_succ_r in Hk by lia.
    specialize (IH (k - 1)). lia.
  - assert (0 < k) by (eapply pow2_gt_1; [ | exact Hk]; lia).
    replace k with (Z.succ (k - 1)) in Hk by lia.
    rewrite Z.pow_succ_r in Hk by lia.
    specialize (IH (k - 1)). lia.
  - assert (0 < k) by (eapply pow2_gt_1; [ | exact Hk]; lia). lia.
Qed.

Lemma digits2_pos_lower (q : positive) :
  2 ^ (Zpos (digits2_pos q) - 1) <= Zpos q.
Proof.
  induction q as [q IH | q IH | ]; cbn [digits2_pos].
  - replace (Zpos (Pos.succ (digits2_pos q)) - 1)
      with (Z.succ (Zpos (digits2_pos q) - 1)) by lia.
    rewrite Z.pow_succ_r by lia. lia.
  - replace (Zpos (Pos.succ (digits2_pos q)) - 1)
      with (Z.succ (Zpos (digits2_pos q) - 1)) by lia.
    rewrite Z.pow_succ_r by lia. lia.
  - cbn. lia.
Qed.

Lemma Zdigits2_upper (m k : Z) :
  0 <= m < 2 ^ k -> 0 <= k -> Zdigits2 m <= k.
Proof.
  intros [Hm Hk] Hk0. destruct m as [ | q | q ]; cbn [Zdigits2]; try lia.
  now apply digits2_pos_upper.
Qed.

(** The cap of an exponent, [100 / 2^e], through a shift of the exponent. *)
Lemma cap_shift (e : Z) (p : positive) :
  e + Zpos p <= 2 -> cap e = 2 ^ Zpos p * cap (e + Zpos p).
Proof.
  intros H. unfold cap.
  replace (2 - e) with (Zpos p + (2 - (e + Zpos p))) by lia.
  rewrite Z.pow_add_r by lia. ring.
Qed.

Lemma cap_lt_pow (e : Z) : e <= 2 -> cap e < 2 ^ (7 - e).
Proof.
  intros H. unfold cap.
  replace (7 - e) with (5 + (2 - e)) by lia.
  rewrite Z.pow_add_r by lia.
  assert (0 < 2 ^ (2 - e)) by (apply Z.pow_pos_nonneg; lia).
  change (2 ^ 5) with 32. lia.
Qed.

(** Shifting a mantissa right by one bit halves its bound, and keeps it
    strict once a one has been shifted out. *)
Lemma shr_1_under (B : Z) (mrs : shr_record) :
  under (2 * B) mrs -> under B (shr_1 mrs).
Proof.
  destruct mrs as [m r s]. unfold under. cbn [shr_m shr_r shr_s shr_1].
  intros [[H0 HB] Hs].
  destruct m as [ | [q | q | ] | q ]; cbn [shr_m shr_r shr_s]; try lia.
  all: split; [lia | ]; rewrite orb_false_l; intros H; specialize (Hs H); lia.
Qed.

Lemma iter_pos_shr_1_under (p : positive) :
  forall B mrs, under (2 ^ Zpos p * B) mrs -> under B (SpecFloat.iter_pos shr_1 p mrs).
Proof.
  induction p as [p IH | p IH | ]; intros B mrs H; cbn [SpecFloat.iter_pos].
  - apply IH, IH, shr_1_under.
    replace (2 * (2 ^ Zpos p * (2 ^ Zpos p * B))) with (2 ^ Zpos p~1 * B); [exact H | ].
    replace (Zpos p~1) with (Zpos p + Zpos p + 1) by lia.
    rewrite !Z.pow_add_r by lia. change (2 ^ 1) with 2. ring.
  - apply IH, IH.
    replace (2 ^ Zpos p * (2 ^ Zpos p * B)) with (2 ^ Zpos p~0 * B); [exact H | ].
    replace (Zpos p~0) with (Zpos p + Zpos p) by lia.
    rewrite !Z.pow_add_r by lia. ring.
  - apply shr_1_under. exact H.
Qed.

Lemma fexp64_eq (x : Z) : fexp prec emax x = Z.max (x - 53) (-1074).
Proof. reflexivity. Qed.

(** One normalising shift keeps a mantissa under the cap of its exponent. *)
Lemma shr_fexp_under (m e : Z) (l : location) :
  e <= -46 -> 0 <= m <= cap e -> (l <> loc_Exact -> m < cap e) ->
  (snd (shr_fexp prec emax m e l) <= -46) /\
  under (cap (snd (shr_fexp prec emax m e l))) (fst (shr_fexp prec emax m e l)).
Proof.
  intros He Hm Hl. unfold shr_fexp, shr. rewrite fexp64_eq.
  assert (Hd : Zdigits2 m <= 7 - e).
  { apply Zdigits2_upper; [ | lia]. pose proof (cap_lt_pow e). lia. }
  assert (Hrec : under (cap e) (shr_record_of_loc m l)).
  { unfold under. destruct l as [ | [ | | ]]; cbn [shr_record_of_loc shr_m shr_r shr_s];
      (split; [lia | ]); cbn [orb]; intros H; try discriminate; apply Hl; discriminate. }
  destruct (Z.max (Zdigits2 m + e - 53) (-1074) - e) as [ | p | p ] eqn:En;
    cbn [fst snd]; try (split; [lia | exact Hrec]).
  split; [lia | ].
  apply iter_pos_shr_1_under. rewrite <- cap_shift by lia. exact Hrec.
Qed.

(** Rounding up happens only below the bound. *)
Lemma round_nearest_even_under (B : Z) (mrs : shr_record) :
  under B mrs ->
  0 <= round_nearest_even (shr_m mrs) (loc_of_shr_record mrs) <= B.
Proof.
  destruct mrs as [m r s]. unfold under. cbn [shr_m shr_r shr_s loc_of_shr_record].
  intros [Hm Hs]. unfold round_nearest_even.
  destruct r, s; cbn [orb] in Hs; try specialize (Hs eq_refl);
    try destruct (Z.even m); lia.
Qed.

(** Rounding a number that is at most 100 gives a float that is at most
    100. *)
Lemma binary_round_aux_within (mx ex : Z) (lx : location) :
  ex <= -46 -> 0 <= mx <= cap ex -> (lx <> loc_Exact -> mx < cap ex) ->
  within_0_100 (binary_round_aux prec emax false mx ex lx).
Proof.
  intros He Hm Hl. unfold binary_round_aux.
  destruct (shr_fexp_under mx ex lx He Hm Hl) as [He1 Hu1].
  destruct (shr_fexp prec emax mx ex lx) as [mrs1 e1]. cbn [fst snd] in He1, Hu1.
  pose proof (round_nearest_even_under _ _ Hu1) as Hr.
  set (m1 := round_nearest_even (shr_m mrs1) (loc_of_shr_record mrs1)) in *.
  assert (Hx : loc_Exact <> loc_Exact -> m1 < cap e1) by (intros H; now contradiction H).
  destruct (shr_fexp_under m1 e1 loc_Exact He1 Hr Hx) as [He2 Hu2].
  destruct (shr_fexp prec emax m1 e1 loc_Exact) as [mrs2 e2]. cbn [fst snd] in He2, Hu2.
  destruct Hu2 as [[H0 HB] _].
  destruct (shr_m mrs2) as [ | q | q ]; cbn [within_0_100]; try reflexivity; try lia.
  replace (e2 <=? emax - prec) with true; [cbn; auto | ].
  symmetry. apply Z.leb_le. change (emax - prec) with 971. lia.
Qed.

Lemma digits2_pos_lt (q : positive) : Zpos q < 2 ^ Zpos (digits2_pos q).
Proof.
  induction q as [q IH | q IH | ]; cbn [digits2_pos];
    rewrite ?Pos2Z.inj_succ, ?Z.pow_succ_r by lia; [lia | lia | reflexivity].
Qed.

(** Correctly rounded quotient of two positive integers whose ratio is at
    most 100. *)
Lemma SF64div_within (a b : positive) :
  Zpos a <= 100 * Zpos b ->
  within_0_100 (SF64div (S754_finite false a 0) (S754_finite false b 0)).
Proof.
  intros Hab. unfold SF64div, SFdiv, SFdiv_core_binary. cbn [xorb Zdigits2].
  rewrite fexp64_eq.
  set (d1 := Zpos (digits2_pos a)). set (d2 := Zpos (digits2_pos b)).
  assert (Hd : d1 - d2 <= 7).
  { pose proof (digits2_pos_lower a) as Ha. fold d1 in Ha.
    pose proof (digits2_pos_lt b) as Hb. fold d2 in Hb.
    assert (Hlt : 2 ^ (d1 - 1) < 2 ^ (d2 + 7)).
    { rewrite (Z.pow_add_r 2 d2 7) by (subst d2; lia). change (2 ^ 7) with 128. lia. }
    apply Z.pow_lt_mono_r_iff in Hlt; subst d1 d2; lia. }
  replace (d1 + 0 - (d2 + 0)) with (d1 - d2) by lia.
  set (e' := Z.min (Z.max (d1 - d2 - 53) (-1074)) (0 - 0)).
  assert (He' : e' <= -46) by (subst e'; lia).
  destruct (0 - 0 - e') as [ | s | s ] eqn:Es; try lia.
  rewrite Z.shiftl_mul_pow2 by lia.
  assert (Hcap : cap e' = 100 * 2 ^ Zpos s).
  { unfold cap. replace (2 - e') with (2 + Zpos s) by lia.
    rewrite Z.pow_add_r by lia. change (2 ^ 2) with 4. ring. }
  assert (Hpow : 0 < 2 ^ Zpos s) by (apply Z.pow_pos_nonneg; lia).
  set (n := Zpos a * 2 ^ Zpos s).
  pose proof (Z_div_mod_eq_full n (Zpos b)) as Hdm.
  pose proof (Z.mod_pos_bound n (Zpos b) ltac:(lia)) as Hmod.
  assert (Hq0 : 0 <= n / Zpos b) by (apply Z.div_pos; subst n; lia).
  destruct (Z.div_eucl n (Zpos b)) as [q r] eqn:Eqr.
  assert (Hq : q = n / Zpos b) by (unfold Z.div; now rewrite Eqr).
  assert (Hr : r = n mod Zpos b) by (unfold Z.modulo; now rewrite Eqr).
  apply binary_round_aux_within; [exact He' | | ].
  - rewrite Hcap. split; [lia | ]. subst n. nia.
  - intros Hl. rewrite Hcap.
    assert (r <> 0) by (intros ->; apply Hl; unfold new_location, new_location_even, new_location_odd; now destruct (Z.even (Zpos b))).
    subst n. nia.
Qed.

(** [a / b] on integers with [0 <= a <= 100 * b]. *)
Lemma int_truediv_within (a b : Z) :
  0 <= a -> 0 < b -> a <= 100 * b ->
  exists q, int_truediv a b = Return q /\ within_0_100 q.
Proof.
  intros Ha Hb Hab. unfold int_truediv.
  destruct (Z.eqb_spec b 0) as [ | _]; [lia | ].
  destruct b as [ | b | b ]; try lia.
  destruct a as [ | a | a ]; try lia.
  - exists (S754_zero false). split; reflexivity.
  - pose proof (SF64div_within a b Hab) as Hw. cbn [exact_of_int].
    destruct (SF64div (S754_finite false a 0) (S754_finite false b 0)) as [ | | | s m e] eqn:E;
      cbn [within_0_100] in Hw; try contradiction;
      cbn [is_infinite]; eexists; (split; [reflexivity | exact Hw]).
Qed.

Lemma div_half_even_bounds (num den B : Z) :
  0 < den -> 0 <= num <= B * den ->
  0 <= div_half_even num den <= B.
Proof.
  intros Hden Hnum. unfold div_half_even.
  pose proof (Z_div_mod_eq_full num den) as Hdm.
  pose proof (Z.mod_pos_bound num den Hden) as Hmod.
  assert (Hq0 : 0 <= num / den) by (apply Z.div_pos; lia).
  assert (HqB : num / den <= B) by (apply Z.div_le_upper_bound; lia).
  assert (Hstrict : 0 < num mod den -> num / den < B) by nia.
  destruct (Z.compare_spec (2 * (num mod den)) den) as [E | E | E];
    try destruct (Z.even (num / den)); lia.
Qed.

(** [round(x, 4)] keeps a float within 0 and 100. *)
Lemma py_round_within (x : pyfloat) :
  within_0_100 x -> exists r, py_round x 4 = Return r /\ within_0_100 r.
Proof.
  destruct x as [s | s | | s m e]; cbn [within_0_100]; try contradiction.
  - intros ->. exists (S754_zero false). split; reflexivity.
  - intros (-> & He & Hm). unfold py_round.
    destruct e as [ | e | k ]; try lia.
    assert (Hpow : 0 < 2 ^ Zpos k) by (apply Z.pow_pos_nonneg; lia).
    assert (Hn : 0 <= div_half_even (Zpos m * 10 ^ 4) (2 ^ Zpos k) <= 1000000).
    { apply div_half_even_bounds; [exact Hpow | ].
      unfold cap in Hm. replace (2 - Zneg k) with (2 + Zpos k) in Hm by lia.
      rewrite Z.pow_add_r in Hm by lia. change (2 ^ 2) with 4 in Hm.
      change (10 ^ 4) with 10000. lia. }
    set (n := div_half_even (Zpos m * 10 ^ 4) (2 ^ Zpos k)) in *.
    destruct (Z.eqb_spec n 0) as [ | Hn0].
    + exists (S754_zero false). split; reflexivity.
    + destruct n as [ | n | n ]; try lia.
      change (10 ^ 4) with 10000. cbn [exact_of_int].
      pose proof (SF64div_within n 10000 ltac:(lia)) as Hw.
      destruct (SF64div (S754_finite false n 0) (S754_finite false 10000 0))
        as [ | | | s' m' e'] eqn:E;
        cbn [within_0_100] in Hw; try contradiction;
        cbn [is_infinite]; eexists; (split; [reflexivity | exact Hw]).
Qed.

Lemma f100_eq : f100 = S754_finite false 7036874417766400 (-46).
Proof. vm_compute. reflexivity. Qed.

Lemma compare_cont_le (m c : positive) :
  Zpos m <= Zpos c ->
  match Pos.compare_cont Eq m c with Lt | Eq => true | Gt => false end = true.
Proof.
  intros H. change (Pos.compare_cont Eq m c) with (Pos.compare m c).
  destruct (Pos.compare_spec m c); try reflexivity; lia.
Qed.

Lemma cap_m46 : cap (-46) = 7036874417766400.
Proof. vm_compute. reflexivity. Qed.

(** What [within_0_100] means for the comparisons of the source. *)
Lemma within_0_100_bounds (x : pyfloat) :
  within_0_100 x -> fle f0 x = true /\ fle x f100 = true.
Proof.
  rewrite f100_eq. unfold fle, f0, SFleb.
  destruct x as [s | s | | s m e]; cbn [within_0_100]; try contradiction.
  - intros ->. split; reflexivity.
  - intros (-> & He & Hm). split; [reflexivity | ]. cbn [SFcompare].
    destruct (Z.compare_spec e (-46)) as [E | Hlt | Hgt].
    + apply compare_cont_le. rewrite <- cap_m46, <- E. exact Hm.
    + reflexivity.
    + lia.
Qed.
(** Accuracy of non-negative counts with a positive total. *)
Lemma calculate_judge_rate_within (ph p g d m : Z) :
  0 <= ph -> 0 <= p -> 0 <= g -> 0 <= d -> 0 <= m -> 0 < ph + p + g + d + m ->
  exists r, calculate_judge_rate ph p g d m = Return r /\ within_0_100 r.
Proof.
  intros Hph Hp Hg Hd Hm Htot. unfold calculate_judge_rate.
  destruct (int_truediv_within ((ph + p) * 100 + g * 70 + d * 30) (ph + p + g + d + m))
    as (q & -> & Hq); try lia.
  cbn [rbind]. now apply py_round_within.
Qed.

End RoundBound.

(** ** Note-count repair *)

Section NoteRepair.

Variables total ph p g d m : Z.

Lemma verify_notes_count_consistent :
  total = ph + p + g + d + m ->
  verify_notes_count total ph p g d m = (ph, p, g, d, m).
Proof.
  intros H. unfold verify_notes_count.
  now rewrite (proj2 (Z.eqb_eq _ _) H).
Qed.

Lemma verify_notes_count_sum :
  sum_counts (counts_of (verify_notes_count total ph p g d m)) = total.
Proof.
  unfold verify_notes_count.
  destruct (Z.eqb_spec total (ph + p + g + d + m)) as [E | _];
    [ | destruct (ph >? total); [ | destruct (p >? total);
        [ | destruct (g >? total); [ | destruct (d >? total)]]]];
    cbn [counts_of sum_counts fold_right]; lia.
Qed.

Lemma verify_notes_count_refines :
  counts_of (verify_notes_count total ph p g d m)
  = repair_by_priority total [ph; p; g; d; m].
Proof.
  unfold verify_notes_count, repair_by_priority.
  cbn [sum_counts fold_right].
  replace (ph + (p + (g + (d + (m + 0))))) with (ph + p + g + d + m) by lia.
  destruct (total =? ph + p + g + d + m); [reflexivity | ].
  cbn [first_exceeding].
  destruct (ph >? total); [cbn; repeat f_equal; lia | ].
  destruct (p >? total); [cbn; repeat f_equal; lia | ].
  destruct (g >? total); [cbn; repeat f_equal; lia | ].
  destruct (d >? total); [cbn; repeat f_equal; lia | ].
  destruct (m >? total); cbn; repeat f_equal; lia.
Qed.

End NoteRepair.

Lemma verify_notes_count_idempotent (total ph p g d m : Z) :
  let '(a, b, c, e, f) := verify_notes_count total ph p g d m in
  verify_notes_count total a b c e f = (a, b, c, e, f).
Proof.
  pose proof (verify_notes_count_sum total ph p g d m) as H.
  destruct (verify_notes_count total ph p g d m) as [[[[a b] c] e] f].
  cbn [counts_of sum_counts fold_right] in H.
  apply verify_notes_count_consistent. lia.
Qed.

(** C6. Note-count repair: a consistent tuple is returned unchanged (so
    the repair is idempotent); otherwise exactly one tier is recomputed as
    the total minus the sum of the other four: the first one, in the order
    top-tier-high, top-tier, mid-tier, low-tier, miss, that exceeds the
    total, and miss when none does. E.g. total 500 and counts
    (450, 40, 5, 3, 5) give miss = 2 and leave the other four. *)
Theorem C6_note_count_repair :
  (forall total ph p g d m,
     counts_of (verify_notes_count total ph p g d m)
     = repair_by_priority total [ph; p; g; d; m])
  /\ (forall total ph p g d m,
        total = ph + p + g + d + m ->
        verify_notes_count total ph p g d m = (ph, p, g, d, m))
  /\ (forall total ph p g d m,
        let '(a, b, c, e, f) := verify_notes_count total ph p g d m in
        verify_notes_count total a b c e f = (a, b, c, e, f))
  /\ verify_notes_count 500 450 40 5 3 5 = (450, 40, 5, 3, 2).
Proof.
  split; [exact verify_notes_count_refines | ].
  split; [exact verify_notes_count_consistent | ].
  split; [exact verify_notes_count_idempotent | reflexivity].
Qed.

(** A consistent tuple, taken through [C6_note_count_repair]. *)
Lemma C6_note_count_repair_witness :
  500 = 450 + 40 + 5 + 3 + 2
  /\ verify_notes_count 500 450 40 5 3 2 = (450, 40, 5, 3, 2).
Proof.
  split; [reflexivity | ].
  apply (proj1 (proj2 C6_note_count_repair)). reflexivity.
Defined.

(** C10. The five counts the repair returns always sum to the total, on
    every branch; nothing is clamped, so the recomputed tier can be
    negative: total 10 with counts (5, 5, 5, 0, 0) gives miss = -5. *)
Theorem C10_repair_sum :
  (forall total ph p g d m,
     sum_counts (counts_of (verify_notes_count total ph p g d m)) = total)
  /\ verify_notes_count 10 5 5 5 0 0 = (5, 5, 5, 0, -5).
Proof.
  split; [exact verify_notes_count_sum | reflexivity].
Qed.

(** ** Rank ladder *)

Section FloatOrder.

Lemma compare_cont_spec (m1 m2 : positive) :
  CompareSpec (m1 = m2) (Zpos m1 < Zpos m2) (Zpos m2 < Zpos m1)
    (Pos.compare_cont Eq m1 m2).
Proof.
  change (Pos.compare_cont Eq m1 m2) with (Pos.compare m1 m2).
  destruct (Pos.compare_spec m1 m2); constructor; lia.
Qed.

(** [<=] on floats is transitive. *)
Lemma SFleb_trans (x y z : spec_float) :
  SFleb x y = true -> SFleb y z = true -> SFleb x z = true.
Proof.
  unfold SFleb.
  destruct x as [sx | sx | | sx mx ex], y as [sy | sy | | sy my ey],
    z as [sz | sz | | sz mz ez]; cbn [SFcompare];
    try discriminate; try reflexivity;
    repeat match goal with s : bool |- _ => destruct s end;
    try discriminate; try reflexivity.
  all: destruct (Z.compare_spec ex ey); try discriminate;
    destruct (Z.compare_spec ey ez); try discriminate;
    destruct (Z.compare_spec ex ez); try reflexivity; try lia; subst;
    destruct (compare_cont_spec mx my); try discriminate;
    destruct (compare_cont_spec my mz); try discriminate;
    destruct (compare_cont_spec mx mz); try reflexivity; try discriminate;
    cbn; intros; subst; try reflexivity; try lia.
Qed.

Lemma fge_mono (a b t : pyfloat) :
  fle a b = true -> fge a t = true -> fge b t = true.
Proof.
  unfold fle, fge. intros Hab Hta. exact (SFleb_trans t a b Hta Hab).
Qed.

End FloatOrder.

Lemma calculate_rank_ladder (judge_rate : pyfloat) :
  calculate_rank judge_rate = rank_by_ladder rank_ladder judge_rate.
Proof. reflexivity. Qed.

Lemma calculate_rank_monotone (a b : pyfloat) :
  fle a b = true ->
  rank_position (calculate_rank a) <= rank_position (calculate_rank b).
Proof.
  intros Hab. pose proof (fun t => fge_mono a b t Hab) as Hmono.
  unfold calculate_rank.
  repeat match goal with
  | |- context [fge a ?t] =>
      let E := fresh "Ea" in
      destruct (fge a t) eqn:E; [apply Hmono in E | ]
  end;
  repeat match goal with
  | |- context [fge b ?t] =>
      let E := fresh "Eb" in destruct (fge b t) eqn:E
  end;
  try discriminate; vm_compute; discriminate.
Qed.

Lemma calculate_rank_thresholds :
  Forall (fun '(threshold, rank) => calculate_rank threshold = rank) rank_ladder.
Proof. repeat constructor. Qed.

(** C5. The rank follows the fixed descending ladder (>= 99.8 SS+,
    >= 99.5 SS, >= 99 S+, >= 98 S, >= 97 AA+, >= 95 AA, >= 90 A+, >= 80 A,
    >= 70 B, else C); so the rank does not decrease when the accuracy
    increases, and an accuracy exactly at a threshold receives that
    threshold's rank. *)
Theorem C5_rank_ladder :
  (forall accuracy,
     calculate_rank accuracy = rank_by_ladder rank_ladder accuracy)
  /\ (forall a b,
        fle a b = true ->
        rank_position (calculate_rank a) <= rank_position (calculate_rank b))
  /\ Forall (fun '(threshold, rank) => calculate_rank threshold = rank)
       rank_ladder.
Proof.
  split; [exact calculate_rank_ladder | ].
  split; [exact calculate_rank_monotone | exact calculate_rank_thresholds].
Qed.

(** Accuracies 97.0 and 99.8, taken through [C5_rank_ladder]. *)
Lemma C5_rank_ladder_witness :
  fle (float_lit 97 0) (float_lit 998 1) = true
  /\ rank_position (calculate_rank (float_lit 97 0))
     <= rank_position (calculate_rank (float_lit 998 1)).
Proof.
  split; [reflexivity | ].
  apply (proj1 (proj2 C5_rank_ladder)). reflexivity.
Defined.

(** ** Accuracy and rating *)

Lemma calculate_patch_F (level : Z) (is_plus : bool) (judge : pyfloat) :
  calculate_patch level "F" is_plus judge = Return f0.
Proof. reflexivity. Qed.

Lemma calculate_patch_table (level : Z) (is_plus : bool) (judge : pyfloat) :
  Forall
    (fun '(rank, ratio) =>
       calculate_patch level rank is_plus judge
       = rating_formula level ratio is_plus judge)
    ratio_table.
Proof.
  unfold ratio_table, calculate_patch, rating_formula.
  repeat constructor; cbn [String.eqb Ascii.eqb Bool.eqb];
    destruct (float_of_int (level * 42)); reflexivity.
Qed.

Lemma calculate_rank_has_ratio (judge : pyfloat) :
  exists ratio, In (calculate_rank judge, ratio) ratio_table.
Proof.
  unfold calculate_rank.
  repeat match goal with
  | |- context [fge judge ?t] => destruct (fge judge t)
  end;
  eexists; unfold ratio_table; cbn [In]; eauto 12.
Qed.

(** C4. The rating is round(level * 42 * (accuracy / 100) * ratio, 2),
    the product being multiplied by 1.02 first for the PLUS variant, with
    the ratio of the fixed table (C 0.2, B 0.3, A 0.4, A+ 0.5, AA 0.6,
    AA+ 0.7, S 0.8, S+ 0.9, SS 0.95, SS+ 1), which holds every rank of the
    ladder; rank F gives exactly 0.0 whatever the other inputs. Level 15
    at accuracy 100 and rank SS+ gives 630.0. *)
Theorem C4_rating :
  (forall level is_plus accuracy,
     calculate_patch level "F" is_plus accuracy = Return f0)
  /\ (forall level is_plus accuracy,
        Forall
          (fun '(rank, ratio) =>
             calculate_patch level rank is_plus accuracy
             = rating_formula level ratio is_plus accuracy)
          ratio_table)
  /\ (forall accuracy,
        exists ratio, In (calculate_rank accuracy, ratio) ratio_table)
  /\ calculate_patch 15 "SS+" false f100 = Return (float_lit 630 0).
Proof.
  split; [exact calculate_patch_F | ].
  split; [exact calculate_patch_table | ].
  split; [exact calculate_rank_has_ratio | vm_compute; reflexivity].
Qed.

(** C3, where it fails. For non-negative judgement counts with a positive
    total the accuracy is round(((ph + p) * 100 + g * 70 + d * 30) /
    (ph + p + g + d + m), 4), a number from 0 to 100, as the comment of
    [calculate_judge_rate] says ("Returns a percentage (0.0 to 100.0)");
    100 top-tier-high judgements alone give 100.0, and the score
    200 * ph + 150 * p + 100 * g is 20000 for them. But the function
    returns no percentage on two kinds of counts the pipeline passes to
    it: where the counts sum to 0 the division raises
    [ZeroDivisionError], and where the repair has made a count negative
    the result leaves the range: total 10 read with counts (5, 5, 5, 0, 0)
    is repaired to miss = -5 and the report carries accuracy 135.0. *)
Theorem C3_accuracy :
  (forall ph p g d m,
     0 <= ph -> 0 <= p -> 0 <= g -> 0 <= d -> 0 <= m ->
     0 < ph + p + g + d + m ->
     exists accuracy,
       calculate_judge_rate ph p g d m = Return accuracy
       /\ (let* q := int_truediv ((ph + p) * 100 + g * 70 + d * 30)
                       (ph + p + g + d + m) in
           py_round q 4) = Return accuracy
       /\ fle f0 accuracy = true /\ fle accuracy f100 = true)
  /\ calculate_judge_rate 100 0 0 0 0 = Return (float_lit 100 0)
  /\ (forall ph p g, calculate_score ph p g = 200 * ph + 150 * p + 100 * g)
  /\ calculate_score 100 0 0 = 20000
  /\ (forall ph p g d m,
        ph + p + g + d + m = 0 ->
        calculate_judge_rate ph p g d m = Raise ZeroDivisionError)
  /\ verify_notes_count 10 5 5 5 0 0 = (5, 5, 5, 0, -5)
  /\ calculate_judge_rate 5 5 5 0 (-5) = Return (float_lit 135 0)
  /\ fle (float_lit 135 0) f100 = false
  /\ (exists report,
        extract_info Sample.hash_map (Sample.result_shot Plays.overcount_result)
        = Return report
        /\ report_judge report = float_lit 135 0).
Proof.
  split.
  - intros ph p g d m Hph Hp Hg Hd Hm Htotal.
    destruct (calculate_judge_rate_within ph p g d m Hph Hp Hg Hd Hm Htotal)
      as (accuracy & Heq & Hin).
    exists accuracy. split; [exact Heq | ]. split; [exact Heq | ].
    now apply within_0_100_bounds.
  - split; [vm_compute; reflexivity | ]. split; [reflexivity | ].
    split; [reflexivity | ]. split.
    + intros ph p g d m Hzero. unfold calculate_judge_rate, int_truediv.
      rewrite Hzero. reflexivity.
    + split; [reflexivity | ]. split; [vm_compute; reflexivity | ].
      split; [vm_compute; reflexivity | ].
      eexists. split; vm_compute; reflexivity.
Qed.

(** The counts (90, 0, 10, 0, 0), taken through [C3_accuracy]. *)
Lemma C3_accuracy_witness :
  exists accuracy,
    calculate_judge_rate 90 0 10 0 0 = Return accuracy
    /\ (let* q := int_truediv ((90 + 0) * 100 + 10 * 70 + 0 * 30)
                    (90 + 0 + 10 + 0 + 0) in
        py_round q 4) = Return accuracy
    /\ fle f0 accuracy = true /\ fle accuracy f100 = true.
Proof.
  apply (proj1 C3_accuracy); lia.
Defined.

(** ** Song matcher *)

Lemma best_match_loop_spec (items : list (Z * Song)) (target_hash : Z) :
  forall best,
    match best_match_loop items target_hash best with
    | None => items = [] /\ best = None
    | Some (song, distance) =>
        (forall ref_hash song', In (ref_hash, song') items ->
           distance <= hash_distance target_hash ref_hash)
        /\ match best with
           | Some (_, min_distance) => distance <= min_distance
           | None => True
           end
        /\ ((exists ref_hash, In (ref_hash, song) items
               /\ distance = hash_distance target_hash ref_hash)
            \/ best = Some (song, distance))
    end.
Proof.
  induction items as [ | [ref_hash song_obj] rest IH]; intros best.
  - cbn. destruct best as [[song distance] | ]; [ | auto].
    split; [intros ? ? [] | split; [lia | now right]].
  - cbn [best_match_loop].
    set (distance0 := hash_distance target_hash ref_hash).
    set (next := if match best with
                    | Some (_, min_distance) => distance0 <? min_distance
                    | None => true
                    end
                 then Some (song_obj, distance0) else best).
    specialize (IH next).
    destruct (best_match_loop rest target_hash next) as [[song distance] | ].
    + destruct IH as (Hmin & Hnext & Hfrom). subst next.
      destruct best as [[song0 distance1] | ].
      * destruct (Z.ltb_spec distance0 distance1) as [Hlt | Hge].
        -- split; [ | split; [lia | ]].
           ++ intros h s [Heq | Hin]; [injection Heq as <- <-; exact Hnext | eauto].
           ++ destruct Hfrom as [(h & Hin & Hd) | Heq].
              ** left. exists h. split; [now right | exact Hd].
              ** injection Heq as <- <-. left. exists ref_hash.
                 split; [now left | reflexivity].
        -- split; [ | split; [exact Hnext | ]].
           ++ intros h s [Heq | Hin]; [injection Heq as <- <-; fold distance0; lia | eauto].
           ++ destruct Hfrom as [(h & Hin & Hd) | Heq].
              ** left. exists h. split; [now right | exact Hd].
              ** now right.
      * split; [ | split; [exact I | ]].
        -- intros h s [Heq | Hin]; [injection Heq as <- <-; exact Hnext | eauto].
        -- left. destruct Hfrom as [(h & Hin & Hd) | Heq].
           ++ exists h. split; [now right | exact Hd].
           ++ injection Heq as <- <-. exists ref_hash.
              split; [now left | reflexivity].
    + destruct IH as [_ Hnone]. subst next.
      destruct best as [[song0 distance1] | ];
        [destruct (distance0 <? distance1) | ]; discriminate.
Qed.

(** X1. The song matcher returns an entry of the jacket-hash map at the
    minimum Hamming distance from the jacket hash, with that distance; it
    returns none only for an empty map. *)
Theorem X1_best_match_minimal (jacket_hash_map : list (Z * Song))
    (target_hash : Z) :
  match get_best_match_song jacket_hash_map target_hash with
  | None => jacket_hash_map = []
  | Some (song, distance) =>
      (exists ref_hash, In (ref_hash, song) jacket_hash_map
         /\ distance = hash_distance target_hash ref_hash)
      /\ forall ref_hash song', In (ref_hash, song') jacket_hash_map ->
           distance <= hash_distance target_hash ref_hash
  end.
Proof.
  unfold get_best_match_song.
  pose proof (best_match_loop_spec jacket_hash_map target_hash None) as H.
  destruct (best_match_loop jacket_hash_map target_hash None)
    as [[song distance] | ].
  - destruct H as (Hmin & _ & [Hfrom | Heq]); [auto | discriminate].
  - tauto.
Qed.

(** ** Recognition pipeline *)

Section NotRejected.

Lemma rbind_not_rejected {A B : Type} (m : result A) (k : A -> result B) :
  recognition_rejected m = false ->
  (forall a, recognition_rejected (k a) = false) ->
  recognition_rejected (rbind m k) = false.
Proof. destruct m as [a | e]; cbn; auto. Qed.

Lemma int_truediv_not_rejected (a b : Z) :
  recognition_rejected (int_truediv a b) = false.
Proof.
  unfold int_truediv. destruct (b =? 0); [reflexivity | ].
  now destruct (is_infinite _).
Qed.

Lemma py_round_not_rejected (x : pyfloat) (ndigits : Z) :
  recognition_rejected (py_round x ndigits) = false.
Proof.
  unfold py_round. destruct x; try reflexivity. now destruct (is_infinite _).
Qed.

Lemma float_of_int_not_rejected (n : Z) :
  recognition_rejected (float_of_int n) = false.
Proof. unfold float_of_int. now destruct (is_infinite _). Qed.

Lemma float_of_parts_not_rejected (major minor width : Z) :
  recognition_rejected (float_of_parts major minor width) = false.
Proof. unfold float_of_parts. now destruct (minor <? 0). Qed.

Lemma dict_get_not_rejected {V : Type} (d : list (string * V)) (k : string) :
  recognition_rejected (dict_get d k) = false.
Proof.
  induction d as [ | [k' v] d IH]; cbn; [reflexivity | ].
  now destruct (String.eqb k k').
Qed.

Lemma calculate_judge_rate_not_rejected (ph p g d m : Z) :
  recognition_rejected (calculate_judge_rate ph p g d m) = false.
Proof.
  unfold calculate_judge_rate. apply rbind_not_rejected.
  - apply int_truediv_not_rejected.
  - intros q. apply py_round_not_rejected.
Qed.

Lemma calculate_patch_not_rejected (level : Z) (rank : string) (is_plus : bool)
    (judge : pyfloat) :
  recognition_rejected (calculate_patch level rank is_plus judge) = false.
Proof.
  unfold calculate_patch. destruct (String.eqb rank "F"); [reflexivity | ].
  apply rbind_not_rejected; [apply float_of_int_not_rejected | intros l42].
  apply rbind_not_rejected; [apply dict_get_not_rejected | intros ratio].
  apply py_round_not_rejected.
Qed.

End NotRejected.

Lemma gtb_negb_leb (d : Z) : (d >? 5) = negb (d <=? 5).
Proof. rewrite Z.gtb_ltb, Z.leb_antisym. now rewrite negb_involutive. Qed.

Lemma analyze_result_screen_rejected (jacket_hash_map : list (Z * Song))
    (img : ResultReadings) :
  recognition_rejected (analyze_result_screen jacket_hash_map img)
  = match get_best_match_song jacket_hash_map (result_jacket_hash img) with
    | Some (_, distance) => negb (distance <=? 5)
    | None => true
    end.
Proof.
  unfold analyze_result_screen.
  destruct (get_best_match_song _ _) as [[matched_song distance] | ];
    [ | reflexivity].
  rewrite gtb_negb_leb. destruct (distance <=? 5); [ | reflexivity].
  cbn [negb].
  destruct (verify_notes_count _ _ _ _ _ _) as [[[[ph p] g] d] m].
  destruct (result_difficulty_color img) as [[r gg] b].
  apply rbind_not_rejected; [apply calculate_judge_rate_not_rejected | intros judge].
  apply rbind_not_rejected; [apply calculate_patch_not_rejected | intros patch].
  apply rbind_not_rejected; [ | reflexivity].
  destruct (feq judge f100); [ | reflexivity].
  apply rbind_not_rejected; [apply int_truediv_not_rejected | reflexivity].
Qed.

Lemma analyze_select_screen_rejected (jacket_hash_map : list (Z * Song))
    (img : SelectReadings) :
  recognition_rejected (_analyze_select_screen jacket_hash_map img)
  = match get_best_match_song jacket_hash_map (select_jacket_hash img) with
    | Some (_, distance) => negb (distance <=? 5)
    | None => true
    end.
Proof.
  unfold _analyze_select_screen.
  destruct (get_best_match_song _ _) as [[matched_song distance] | ];
    [ | reflexivity].
  rewrite gtb_negb_leb. destruct (distance <=? 5); [ | reflexivity].
  cbn [negb].
  apply rbind_not_rejected; [apply float_of_parts_not_rejected | intros patch].
  apply rbind_not_rejected; [apply float_of_parts_not_rejected | intros judge].
  destruct (select_max_patch_pixel img) as [[mr mg] mb].
  destruct (find_pivot _ _ _) as [[pivot_y difficulty] | ]; reflexivity.
Qed.

Lemma extract_info_rejected (jacket_hash_map : list (Z * Song)) (img : Screenshot) :
  recognition_rejected (extract_info jacket_hash_map img)
  = negb (accepted jacket_hash_map img).
Proof.
  unfold extract_info, accepted, jacket_of.
  destruct (determine_screen_type img);
    [rewrite analyze_select_screen_rejected | rewrite analyze_result_screen_rejected];
    now destruct (get_best_match_song _ _) as [[matched_song distance] | ].
Qed.

(** X2. Song-match acceptance is a threshold on the best-match distance,
    on either screen: the recognition-rejected exception is raised exactly
    when the distance exceeds 5 or the catalog has no jacket hash, and what
    the other recognizers return has no part in it. *)
Theorem X2_acceptance_threshold (jacket_hash_map : list (Z * Song))
    (img : Screenshot) :
  recognition_rejected (extract_info jacket_hash_map img)
  = match get_best_match_song jacket_hash_map (jacket_of img) with
    | Some (_, distance) => 5 <? distance
    | None => true
    end.
Proof.
  rewrite extract_info_rejected. unfold accepted.
  destruct (get_best_match_song _ _) as [[song distance] | ]; [ | reflexivity].
  now rewrite Z.leb_antisym, negb_involutive.
Qed.

Lemma result_screen_zero_total (jacket_hash_map : list (Z * Song))
    (img : ResultReadings) (matched_song : Song) (distance : Z) :
  get_best_match_song jacket_hash_map (result_jacket_hash img)
  = Some (matched_song, distance) ->
  distance <= 5 ->
  result_total_notes img = 0 ->
  analyze_result_screen jacket_hash_map img = Raise ZeroDivisionError.
Proof.
  intros Hbest Hdistance Htotal. unfold analyze_result_screen.
  rewrite Hbest. replace (distance >? 5) with false by (symmetry; lia).
  pose proof (verify_notes_count_sum (result_total_notes img)
                (result_perfect_high img) (result_perfect img) (result_great img)
                (result_good img) (result_miss img)) as Hsum.
  destruct (verify_notes_count _ _ _ _ _ _) as [[[[ph p] g] d] m].
  cbn [counts_of sum_counts fold_right] in Hsum.
  destruct (result_difficulty_color img) as [[r gg] b].
  unfold calculate_judge_rate, int_truediv.
  replace (ph + p + g + d + m =? 0) with true by (symmetry; lia).
  reflexivity.
Qed.

(** C1. The song match is accepted at a Hamming distance of 5 or below
    and rejected from 6 on, on either screen, before anything else is
    read: the recognition-rejected exception is raised exactly when the
    match is not accepted. It is not the only exception of the pipeline:
    an accepted result screen whose counts are all read as 0 raises
    [ZeroDivisionError], and an accepted select screen without a pivot
    pixel raises [UnboundLocalError]. *)
Theorem C1_recognition_threshold :
  (forall jacket_hash_map img,
     recognition_rejected (extract_info jacket_hash_map img)
     = negb (accepted jacket_hash_map img))
  /\ accepted Sample.hash_map (Sample.result_shot Sample.blank_result) = true
  /\ extract_info Sample.hash_map (Sample.result_shot Sample.blank_result)
     = Raise ZeroDivisionError
  /\ accepted Sample.hash_map (Sample.select_shot Sample.no_pivot_select) = true
  /\ extract_info Sample.hash_map (Sample.select_shot Sample.no_pivot_select)
     = Raise UnboundLocalError.
Proof.
  split; [exact extract_info_rejected | ].
  repeat split; vm_compute; reflexivity.
Qed.

(** C8, where it fails. On a result screen whose jacket match is accepted
    and whose total note count is read as 0, whatever the five judgement
    counts, the pipeline raises [ZeroDivisionError] instead of returning a
    report. *)
Theorem C8_zero_total_raises (jacket_hash_map : list (Z * Song))
    (img : Screenshot) (matched_song : Song) (distance : Z) :
  determine_screen_type img = RESULT ->
  get_best_match_song jacket_hash_map (result_jacket_hash (shot_result img))
  = Some (matched_song, distance) ->
  distance <= 5 ->
  result_total_notes (shot_result img) = 0 ->
  extract_info jacket_hash_map img = Raise ZeroDivisionError.
Proof.
  intros Hscreen Hbest Hdistance Htotal. unfold extract_info. rewrite Hscreen.
  exact (result_screen_zero_total _ _ _ _ Hbest Hdistance Htotal).
Qed.

(** The result screen on which every integer field is read as 0, taken
    through [C8_zero_total_raises]. *)
Lemma C8_zero_total_raises_witness :
  extract_info Sample.hash_map (Sample.result_shot Sample.blank_result)
  = Raise ZeroDivisionError.
Proof.
  apply (C8_zero_total_raises Sample.hash_map
           (Sample.result_shot Sample.blank_result) Sample.song 0).
  - vm_compute. reflexivity.
  - vm_compute. reflexivity.
  - lia.
  - reflexivity.
Defined.

(** ** Level override *)

Lemma result_level_override (jacket_hash_map : list (Z * Song))
    (img : ResultReadings) (report : AnalysisReport) (level : Z) :
  analyze_result_screen jacket_hash_map img = Return report ->
  get_available_levels (song_patterns (report_song report)) (report_line report)
    (report_difficulty report) = [level] ->
  report_level report = level.
Proof.
  unfold analyze_result_screen.
  destruct (get_best_match_song _ _) as [[matched_song distance] | ];
    [ | discriminate].
  destruct (distance >? 5); [discriminate | ].
  destruct (verify_notes_count _ _ _ _ _ _) as [[[[ph p] g] d] m].
  destruct (result_difficulty_color img) as [[r gg] b].
  destruct (calculate_judge_rate ph p g d m) as [judge | e]; [ | discriminate].
  cbn [rbind].
  destruct (calculate_patch _ _ _ _) as [patch | e]; [ | discriminate].
  cbn [rbind].
  destruct (feq judge f100);
    [destruct (int_truediv ph (result_total_notes img)) as [density | e];
       [ | discriminate] | ];
    cbn [rbind]; intros H; injection H as <-;
    cbn [report_song report_line report_difficulty report_level];
    intros ->; reflexivity.
Qed.

Lemma select_level_override (jacket_hash_map : list (Z * Song))
    (img : SelectReadings) (report : AnalysisReport) (level : Z) :
  _analyze_select_screen jacket_hash_map img = Return report ->
  get_available_levels (song_patterns (report_song report)) (report_line report)
    (report_difficulty report) = [level] ->
  report_level report = level.
Proof.
  unfold _analyze_select_screen.
  destruct (get_best_match_song _ _) as [[matched_song distance] | ];
    [ | discriminate].
  destruct (distance >? 5); [discriminate | ].
  destruct (float_of_parts _ _ _) as [patch | e]; [ | discriminate].
  cbn [rbind].
  destruct (float_of_parts _ _ _) as [judge | e]; [ | discriminate].
  cbn [rbind].
  destruct (select_max_patch_pixel img) as [[mr mg] mb].
  destruct (find_pivot _ _ _) as [[pivot_y difficulty] | ]; [ | discriminate].
  intros H; injection H as <-.
  cbn [report_song report_line report_difficulty report_level].
  intros ->. cbn [contains]. now rewrite Z.eqb_refl.
Qed.

(** X3. A report of either screen carries the unique level the catalog
    lists for its line count and difficulty, whatever level was read. *)
Theorem X3_report_level_from_catalog (jacket_hash_map : list (Z * Song))
    (img : Screenshot) (report : AnalysisReport) (level : Z) :
  extract_info jacket_hash_map img = Return report ->
  get_available_levels (song_patterns (report_song report))
    (report_line report) (report_difficulty report) = [level] ->
  report_level report = level.
Proof.
  unfold extract_info. destruct (determine_screen_type img).
  - apply select_level_override.
  - apply result_level_override.
Qed.

(** The misread level-15 chart, taken through
    [X3_report_level_from_catalog]. *)
Lemma X3_report_level_from_catalog_witness :
  exists report,
    extract_info Sample.hash_map
      (Sample.result_shot Sample.misread_level_result) = Return report
    /\ report_level report = 15.
Proof.
  eexists. split; [vm_compute; reflexivity | ].
  eapply (X3_report_level_from_catalog Sample.hash_map
            (Sample.result_shot Sample.misread_level_result)).
  - vm_compute. reflexivity.
  - vm_compute. reflexivity.
Defined.

(** C7. Where the catalog lists exactly one level for the recognized
    (line, difficulty) pair, the report's level is that level, on either
    screen. The rating of a result screen, however, is computed before the
    override, from the level as read: for a level-15 chart read as level 5
    the report carries level 15 and the rating 142.59 of level 5, not the
    427.77 of level 15 that the screen shows. *)
Theorem C7_level_override :
  (forall jacket_hash_map img report level,
     analyze_result_screen jacket_hash_map img = Return report ->
     get_available_levels (song_patterns (report_song report))
       (report_line report) (report_difficulty report) = [level] ->
     report_level report = level)
  /\ (forall jacket_hash_map img report level,
        _analyze_select_screen jacket_hash_map img = Return report ->
        get_available_levels (song_patterns (report_song report))
          (report_line report) (report_difficulty report) = [level] ->
        report_level report = level)
  /\ (exists report,
        extract_info Sample.hash_map
          (Sample.result_shot Sample.misread_level_result) = Return report
        /\ get_available_levels (song_patterns (report_song report))
             (report_line report) (report_difficulty report) = [15]
        /\ report_level report = 15
        /\ report_rank report = "AA+"
        /\ calculate_patch 5 "AA+" false (report_judge report)
           = Return (report_patch report)
        /\ report_patch report = float_lit 14259 2
        /\ calculate_patch 15 "AA+" false (report_judge report)
           = Return (float_lit 42777 2)).
Proof.
  split; [exact result_level_override | ].
  split; [exact select_level_override | ].
  eexists. split; [vm_compute; reflexivity | ].
  repeat split; vm_compute; reflexivity.
Qed.

(** ** Archive reconciler *)

Section Reconciler.

Lemma log_extends_refl (st : ClientState) : log_extends st st.
Proof. exists []. now rewrite app_nil_r. Qed.

Lemma log_extends_trans (st1 st2 st3 : ClientState) :
  log_extends st1 st2 -> log_extends st2 st3 -> log_extends st1 st3.
Proof.
  intros [l1 H1] [l2 H2]. exists (l1 ++ l2).
  now rewrite H2, H1, app_assoc.
Qed.

Lemma bind_extending {A B : Type} (m : Method A) (k : A -> Method B) :
  extending m -> (forall a, extending (k a)) -> extending (bind m k).
Proof.
  intros Hm Hk st. unfold bind. specialize (Hm st).
  destruct (m st) as [[a | e] st']; cbn [snd] in *; [ | exact Hm].
  eapply log_extends_trans; [exact Hm | apply Hk].
Qed.

Lemma ret_extending {A : Type} (a : A) : extending (ret a).
Proof. intros st. apply log_extends_refl. Qed.

Lemma lift_extending {A : Type} (r : result A) : extending (lift r).
Proof. intros st. apply log_extends_refl. Qed.

Lemma log_message_extending (msg : LogEntry) : extending (log_message msg).
Proof. intros st. now exists [msg]. Qed.

Lemma post_update_extending (payload : ArchiveUpdate) :
  extending (post_update payload).
Proof. intros st. exists []. cbn. now rewrite app_nil_r. Qed.

Lemma archive_get_extending (key : string) (fallback : DecodeResult) :
  extending (archive_get key fallback).
Proof. intros st. apply log_extends_refl. Qed.

Lemma archive_store_extending (key : string) (record : DecodeResult) :
  extending (archive_store key record).
Proof. intros st. exists []. cbn. now rewrite app_nil_r. Qed.

(** The update branch logs its [LogUpdated] line first, whatever follows. *)
Lemma log_higher_score_first_line (new_archive : AnalysisReport)
    (existing_archive : DecodeResult) (update_time : Z) (st : ClientState) :
  exists lines,
    log (snd (log_higher_score_and_report new_archive existing_archive
                update_time st))
    = log st
      ++ LogUpdated (song_title (report_song new_archive))
           (report_line new_archive) (report_difficulty new_archive)
           (report_level new_archive)
         :: lines.
Proof.
  unfold log_higher_score_and_report.
  match goal with
  | |- context [bind (log_message ?msg) ?k] =>
      change (bind (log_message msg) k st)
        with (k tt (snd (log_message msg st)));
      assert (Hk : extending (k tt))
  end.
  { repeat (first
      [ apply bind_extending; [ | intros ? ]
      | apply log_message_extending
      | apply lift_extending
      | apply post_update_extending
      | apply archive_get_extending
      | apply archive_store_extending
      | apply ret_extending
      | match goal with |- extending (if ?b then _ else _) => destruct b end ]). }
  destruct (Hk (snd (log_message
                       (LogUpdated (song_title (report_song new_archive))
                          (report_line new_archive)
                          (report_difficulty new_archive)
                          (report_level new_archive)) st))) as [lines Hlines].
  exists lines. rewrite Hlines. cbn [log_message snd log].
  now rewrite <- app_assoc.
Qed.

Lemma log_analysis_frame (report : AnalysisReport) (st : ClientState) :
  fst (log_analysis report st) = Return tt
  /\ archive (snd (log_analysis report st)) = archive st
  /\ outbox (snd (log_analysis report st)) = outbox st.
Proof.
  unfold log_analysis, bind, log_message, ret.
  destruct (report_match_distance report >? 5);
    destruct (negb (contains _ _)); cbn; auto.
Qed.

Lemma log_not_better_run (report : AnalysisReport)
    (existing_archive : DecodeResult) (utc_now : Z) (st : ClientState) :
  log_not_better report existing_archive utc_now st
  = (Return tt,
     {| archive := archive st;
        log := log st ++ record_summary report existing_archive utc_now;
        outbox := outbox st |}).
Proof.
  unfold log_not_better, bind, log_message, record_summary. cbn.
  now rewrite <- !app_assoc.
Qed.

(** [update_display] is the comparison of the report with the best record,
    made once the analysis has been logged. *)
Lemma update_display_run (report : AnalysisReport) (utc_now update_time : Z)
    (st : ClientState) :
  update_display report utc_now update_time st
  = (if wins report (best_record report utc_now st)
     then log_higher_score_and_report report (best_record report utc_now st)
            update_time
     else log_not_better report (best_record report utc_now st) utc_now)
      (after_analysis_log report st).
Proof.
  unfold update_display, after_analysis_log, best_record, wins.
  destruct (log_analysis_frame report st) as (Hret & Harchive & _).
  unfold bind at 1.
  destruct (log_analysis report st) as [r st1]. cbn [fst snd] in *. subst r.
  unfold bind at 1. unfold archive_get at 1. rewrite Harchive.
  set (existing := default _ _).
  destruct (fgt (report_judge report) (decode_judge existing));
    [reflexivity | ].
  destruct (feq (report_judge report) (decode_judge existing));
    [ | reflexivity].
  cbn [orb andb].
  destruct (report_score report >? decode_score existing) eqn:Egt;
    [reflexivity | ].
  destruct (report_score report =? decode_score existing); [ | reflexivity].
  cbn [orb andb].
  now destruct (report_is_full_combo report && negb (decode_is_full_combo existing)).
Qed.

End Reconciler.

(** C2. The new report wins exactly when (a) its accuracy is strictly
    higher, or (b) the accuracies are equal and its score is strictly
    higher, or (c) accuracy and score are equal, it has full combo and the
    record has not: that is when [update_display] goes through
    [log_higher_score_and_report]. For the record (98.0, 900000, no full
    combo) and the report (98.0, 900000, full combo) the report wins, and
    the update is posted and stored. *)
Theorem C2_win_decision :
  (forall report utc_now update_time st,
     update_display report utc_now update_time st
     = log_higher_score_and_report report (best_record report utc_now st)
         update_time (after_analysis_log report st)
     <-> wins report (best_record report utc_now st) = true)
  /\ (forall report existing,
        wins report existing = true
        <-> fgt (report_judge report) (decode_judge existing) = true
            \/ (feq (report_judge report) (decode_judge existing) = true
                /\ report_score report > decode_score existing)
            \/ (feq (report_judge report) (decode_judge existing) = true
                /\ report_score report = decode_score existing
                /\ report_is_full_combo report = true
                /\ decode_is_full_combo existing = false))
  /\ best_record Sample.full_combo_report 1000 Sample.client_with_best
     = Sample.stored_best
  /\ wins Sample.full_combo_report Sample.stored_best = true
  /\ outbox (snd (update_display Sample.full_combo_report 1000 1001
                    Sample.client_with_best))
     = [report_json Sample.full_combo_report].
Proof.
  split; [ | split].
  - intros report utc_now update_time st. rewrite update_display_run.
    destruct (wins report (best_record report utc_now st));
      split; auto; try discriminate.
    rewrite log_not_better_run. intros H.
    destruct (log_higher_score_first_line report
                (best_record report utc_now st) update_time
                (after_analysis_log report st)) as [lines Hlines].
    rewrite <- H in Hlines. cbn [snd log] in Hlines.
    apply app_inv_head in Hlines. unfold record_summary in Hlines.
    discriminate.
  - intros report existing. unfold wins.
    rewrite !orb_true_iff, !andb_true_iff, negb_true_iff.
    rewrite Z.gtb_ltb, Z.ltb_lt, Z.eqb_eq. intuition lia.
  - repeat split; vm_compute; reflexivity.
Qed.

(** C9. A report that does not win leaves the archive, with every stored
    record, and the outbox as they were: no sync request is posted. The
    method returns having added to the log only the summary of the
    standing record with the time elapsed since it was set. *)
Theorem C9_no_win_frame (report : AnalysisReport) (utc_now update_time : Z)
    (st : ClientState) :
  wins report (best_record report utc_now st) = false ->
  fst (update_display report utc_now update_time st) = Return tt
  /\ archive (snd (update_display report utc_now update_time st)) = archive st
  /\ outbox (snd (update_display report utc_now update_time st)) = outbox st
  /\ log (snd (update_display report utc_now update_time st))
     = log (after_analysis_log report st)
       ++ record_summary report (best_record report utc_now st) utc_now.
Proof.
  intros Hwins. rewrite update_display_run, Hwins, log_not_better_run.
  cbn [fst snd archive outbox log]. unfold after_analysis_log.
  destruct (log_analysis_frame report st) as (_ & Harchive & Houtbox).
  auto.
Qed.

(** The report that repeats the stored record without full combo, a day
    and an hour later, taken through [C9_no_win_frame]. *)
Lemma C9_no_win_frame_witness :
  fst (update_display Sample.no_combo_report 90000000000 90000000001
         Sample.client_with_best) = Return tt
  /\ archive (snd (update_display Sample.no_combo_report 90000000000
                     90000000001 Sample.client_with_best))
     = archive Sample.client_with_best
  /\ outbox (snd (update_display Sample.no_combo_report 90000000000
                    90000000001 Sample.client_with_best))
     = outbox Sample.client_with_best
  /\ log (snd (update_display Sample.no_combo_report 90000000000
                 90000000001 Sample.client_with_best))
     = log (after_analysis_log Sample.no_combo_report Sample.client_with_best)
       ++ record_summary Sample.no_combo_report
            (best_record Sample.no_combo_report 90000000000
               Sample.client_with_best) 90000000000.
Proof.
  apply (C9_no_win_frame Sample.no_combo_report 90000000000 90000000001
           Sample.client_with_best).
  vm_compute. reflexivity.
Defined.

(** ** Hamming distance *)

Section HashDistance.

Lemma popcount_pos (p : positive) : 1 <= popcount p.
Proof. induction p; cbn [popcount]; lia. Qed.

Lemma popcountN_double (n : N) : popcountN (Pos.Ndouble n) = popcountN n.
Proof. now destruct n. Qed.

Lemma popcountN_succ_double (n : N) :
  popcountN (Pos.Nsucc_double n) = 1 + popcountN n.
Proof. now destruct n. Qed.

Lemma popcountN_nonneg (n : N) : 0 <= popcountN n.
Proof. destruct n; cbn; [lia | pose proof (popcount_pos p); lia]. Qed.

Lemma popcount_lxor (p q : positive) :
  popcountN (Pos.lxor p q) <= popcount p + popcount q.
Proof.
  revert q. induction p as [p IH | p IH | ]; intros [q | q | ];
    try specialize (IH q);
    try pose proof (popcount_pos p); try pose proof (popcount_pos q).
  - change (Pos.lxor p~1 q~1) with (Pos.Ndouble (Pos.lxor p q)).
    rewrite popcountN_double. cbn [popcount]. lia.
  - change (Pos.lxor p~1 q~0) with (Pos.Nsucc_double (Pos.lxor p q)).
    rewrite popcountN_succ_double. cbn [popcount]. lia.
  - change (Pos.lxor p~1 1) with (Npos p~0). cbn [popcountN popcount]. lia.
  - change (Pos.lxor p~0 q~1) with (Pos.Nsucc_double (Pos.lxor p q)).
    rewrite popcountN_succ_double. cbn [popcount]. lia.
  - change (Pos.lxor p~0 q~0) with (Pos.Ndouble (Pos.lxor p q)).
    rewrite popcountN_double. cbn [popcount]. lia.
  - change (Pos.lxor p~0 1) with (Npos p~1). cbn [popcountN popcount]. lia.
  - change (Pos.lxor 1 q~1) with (Npos q~0). cbn [popcountN popcount]. lia.
  - change (Pos.lxor 1 q~0) with (Npos q~1). cbn [popcountN popcount]. lia.
  - change (Pos.lxor 1 1) with N0. cbn [popcountN popcount]. lia.
Qed.

Lemma popcountN_lxor (x y : N) :
  popcountN (N.lxor x y) <= popcountN x + popcountN y.
Proof.
  destruct x as [ | p], y as [ | q]; unfold N.lxor; cbn [popcountN];
    try lia; apply popcount_lxor.
Qed.

Lemma hash_distance_N (a b : Z) :
  0 <= a -> 0 <= b ->
  hash_distance a b = popcountN (N.lxor (Z.to_N a) (Z.to_N b)).
Proof.
  intros Ha Hb. unfold hash_distance.
  destruct a as [ | p | p], b as [ | q | q]; try lia;
    unfold Z.lxor, N.lxor, Z.to_N; try reflexivity.
  now destruct (Pos.lxor p q).
Qed.

Lemma hash_distance_nonneg (a b : Z) : 0 <= hash_distance a b.
Proof.
  unfold hash_distance. destruct (Z.lxor a b); try lia.
  pose proof (popcount_pos p). lia.
Qed.

Lemma hash_distance_sym (a b : Z) : hash_distance a b = hash_distance b a.
Proof. unfold hash_distance. now rewrite Z.lxor_comm. Qed.

Lemma hash_distance_refl (a : Z) : hash_distance a a = 0.
Proof. unfold hash_distance. now rewrite Z.lxor_nilpotent. Qed.

Lemma hash_distance_zero (a b : Z) :
  0 <= a -> 0 <= b -> hash_distance a b = 0 -> a = b.
Proof.
  intros Ha Hb. unfold hash_distance.
  destruct (Z.lxor a b) as [ | p | p] eqn:E.
  - intros _. now apply Z.lxor_eq.
  - pose proof (popcount_pos p). lia.
  - assert (0 <= Z.lxor a b) by (apply Z.lxor_nonneg; lia). lia.
Qed.

Lemma hash_distance_triangle (a b c : Z) :
  0 <= a -> 0 <= b -> 0 <= c ->
  hash_distance a c <= hash_distance a b + hash_distance b c.
Proof.
  intros Ha Hb Hc. rewrite !hash_distance_N by assumption.
  replace (N.lxor (Z.to_N a) (Z.to_N c))
    with (N.lxor (N.lxor (Z.to_N a) (Z.to_N b)) (N.lxor (Z.to_N b) (Z.to_N c))).
  - apply popcountN_lxor.
  - rewrite N.lxor_assoc, <- (N.lxor_assoc (Z.to_N b)), N.lxor_nilpotent.
    now rewrite N.lxor_0_l.
Qed.

End HashDistance.

(** ** Song database and jacket-hash map *)

Section Dictionaries.

Context {V : Type}.

Lemma dict_set_In (d : list (Z * V)) (k : Z) (v : V) (k' : Z) (v' : V) :
  In (k', v') (dict_set d k v) -> (k', v') = (k, v) \/ In (k', v') d.
Proof.
  induction d as [ | [k0 v0] d IH]; cbn [dict_set].
  - intros [H | []]. now left.
  - destruct (Z.eqb_spec k k0) as [-> | Hne]; cbn [In].
    + intros [H | H]; auto.
    + intros [H | H]; auto. destruct (IH H); auto.
Qed.

Lemma dict_set_has (d : list (Z * V)) (k : Z) (v : V) :
  In (k, v) (dict_set d k v).
Proof.
  induction d as [ | [k0 v0] d IH]; cbn [dict_set]; [now left | ].
  destruct (Z.eqb_spec k k0); cbn [In]; auto.
Qed.

Lemma dict_set_keys (d : list (Z * V)) (k : Z) (v : V) (k' : Z) :
  In k' (map fst (dict_set d k v)) <-> k' = k \/ In k' (map fst d).
Proof.
  induction d as [ | [k0 v0] d IH]; cbn [dict_set map fst In].
  - intuition.
  - destruct (Z.eqb_spec k k0) as [-> | Hne]; cbn [map fst In];
      [ | rewrite IH]; intuition.
Qed.

Lemma dict_set_NoDup (d : list (Z * V)) (k : Z) (v : V) :
  List.NoDup (map fst d) -> List.NoDup (map fst (dict_set d k v)).
Proof.
  induction d as [ | [k0 v0] d IH]; cbn [dict_set map fst]; intros Hd.
  - constructor; [intros [] | constructor].
  - inversion Hd as [ | ? ? Hnotin Hrest]; subst.
    destruct (Z.eqb_spec k k0) as [-> | Hne]; cbn [map fst].
    + now constructor.
    + constructor; [ | now apply IH].
      rewrite dict_set_keys. intros [-> | H]; [now apply Hne | now apply Hnotin].
Qed.

End Dictionaries.

(** Invariants of a fold of [dict_set]s, read off its steps. *)
Lemma fold_left_invariant {A B : Type} (P : B -> Prop) (f : B -> A -> B)
    (l : list A) (b : B) :
  P b -> (forall b a, P b -> In a l -> P (f b a)) -> P (fold_left f l b).
Proof.
  revert b. induction l as [ | a l IH]; intros b Hb Hstep; cbn; [exact Hb | ].
  apply IH; [apply Hstep; [exact Hb | now left] | ].
  intros b' a' Hb' Hin. apply Hstep; [exact Hb' | now right].
Qed.

Lemma fold_left_keys {A V : Type} (update : list (Z * V) -> A -> list (Z * V))
    (added : A -> Z -> Prop) :
  (forall d a k, In k (map fst (update d a)) <-> In k (map fst d) \/ added a k) ->
  forall l d k,
    In k (map fst (fold_left update l d))
    <-> In k (map fst d) \/ exists a, In a l /\ added a k.
Proof.
  intros Hupdate l. induction l as [ | a l IH]; intros d k; cbn [fold_left].
  - split; [now left | intros [H | (a & [] & _)]; exact H].
  - rewrite IH, Hupdate. split.
    + intros [[H | H] | (a' & Hin & H)]; eauto.
      * right. exists a. split; [now left | exact H].
      * right. exists a'. split; [now right | exact H].
    + intros [H | (a' & [<- | Hin] & H)]; eauto.
Qed.

Lemma build_song_db_spec (song_database : list Song) :
  List.NoDup (map fst (build_song_db song_database))
  /\ (forall id song, In (id, song) (build_song_db song_database) ->
        In song song_database /\ id = song_id song)
  /\ (forall song, In song song_database ->
        In (song_id song) (map fst (build_song_db song_database))).
Proof.
  unfold build_song_db. split; [ | split].
  - apply (fold_left_invariant (fun db => List.NoDup (map fst db)));
      [constructor | ].
    intros db song Hdb _. now apply dict_set_NoDup.
  - apply (fold_left_invariant
             (fun db => forall id song, In (id, song) db ->
                          In song song_database /\ id = song_id song));
      [intros ? ? [] | ].
    intros db song Hdb Hin id song' H.
    destruct (dict_set_In _ _ _ _ _ H) as [Heq | Hold]; [ | now apply Hdb].
    injection Heq as -> ->. auto.
  - intros song Hin.
    apply (fold_left_keys (fun db song => dict_set db (song_id song) song)
             (fun song k => k = song_id song)).
    + intros d a k. rewrite dict_set_keys. tauto.
    + right. now exists song.
Qed.

Lemma jacket_step_keys (hash_map : list (Z * Song)) (entry : Z * Song) (k : Z) :
  In k (map fst
          (match song_plus_phash (snd entry) with
           | Some h =>
               dict_set
                 match song_phash (snd entry) with
                 | Some h0 => dict_set hash_map h0 (snd entry)
                 | None => hash_map
                 end h (snd entry)
           | None =>
               match song_phash (snd entry) with
               | Some h0 => dict_set hash_map h0 (snd entry)
               | None => hash_map
               end
           end))
  <-> In k (map fst hash_map) \/ has_hash (snd entry) k.
Proof.
  unfold has_hash.
  destruct (song_plus_phash (snd entry)) as [h | ],
    (song_phash (snd entry)) as [h0 | ];
    rewrite ?dict_set_keys; intuition (subst; auto; congruence).
Qed.

Lemma jacket_hash_map_spec (song_db : list (Z * Song)) :
  List.NoDup (map fst (_build_jacket_hash_map song_db))
  /\ (forall h song, In (h, song) (_build_jacket_hash_map song_db) ->
        In song (map snd song_db) /\ has_hash song h)
  /\ (forall song h, In song (map snd song_db) -> has_hash song h ->
        In h (map fst (_build_jacket_hash_map song_db))).
Proof.
  unfold _build_jacket_hash_map. split; [ | split].
  - apply (fold_left_invariant (fun m => List.NoDup (map fst m)));
      [constructor | ].
    intros m entry Hm _.
    destruct (song_plus_phash (snd entry)), (song_phash (snd entry));
      repeat apply dict_set_NoDup; exact Hm.
  - apply (fold_left_invariant
             (fun m => forall h song, In (h, song) m ->
                         In song (map snd song_db) /\ has_hash song h));
      [intros ? ? [] | ].
    intros m entry Hm Hin h song H.
    assert (Hentry : In (snd entry) (map snd song_db)) by now apply in_map.
    unfold has_hash.
    destruct (song_plus_phash (snd entry)) as [h1 | ] eqn:E1,
      (song_phash (snd entry)) as [h0 | ] eqn:E0;
      repeat match goal with
      | H : In _ (dict_set _ _ _) |- _ =>
          apply dict_set_In in H; destruct H as [H | H];
          [injection H as -> -> | ]
      end; auto; now apply Hm.
  - intros song h Hin Hhash. apply in_map_iff in Hin as (entry & <- & Hin).
    apply (fold_left_keys _ (fun entry k => has_hash (snd entry) k)).
    + intros d a k. apply jacket_step_keys.
    + right. now exists entry.
Qed.

Lemma best_match_loop_first (items : list (Z * Song)) (target_hash : Z) :
  forall best song distance,
    best_match_loop items target_hash best = Some (song, distance) ->
    (best = Some (song, distance)
     /\ forall entry, In entry items -> distance <= distance_of target_hash entry)
    \/ (exists before ref_hash after,
          items = before ++ (ref_hash, song) :: after
          /\ distance = hash_distance target_hash ref_hash
          /\ (forall entry, In entry before ->
                distance < distance_of target_hash entry)
          /\ (forall entry, In entry after ->
                distance <= distance_of target_hash entry)
          /\ match best with
             | Some (_, min_distance) => distance < min_distance
             | None => True
             end).
Proof.
  induction items as [ | [ref_hash song_obj] rest IH]; intros best song distance.
  - cbn. intros ->. left. split; [reflexivity | intros ? []].
  - cbn [best_match_loop]. intros H. apply IH in H.
    destruct best as [[song0 distance0] | ].
    + destruct (Z.ltb_spec (hash_distance target_hash ref_hash) distance0)
        as [Hlt | Hge].
      * destruct H as [[Heq Hrest] | (before & r & after & -> & Hd & Hb & Ha & Hm)].
        -- injection Heq as <- <-. right.
           exists [], ref_hash, rest. repeat split; auto. intros ? [].
        -- right. exists ((ref_hash, song_obj) :: before), r, after.
           repeat split; auto; [ | lia].
           intros entry [<- | Hin]; [exact Hm | now apply Hb].
      * destruct H as [[Heq Hrest] | (before & r & after & -> & Hd & Hb & Ha & Hm)].
        -- left. split; [exact Heq | ]. injection Heq as <- <-.
           intros entry [<- | Hin]; [exact Hge | now apply Hrest].
        -- right. exists ((ref_hash, song_obj) :: before), r, after.
           repeat split; auto.
           intros entry [<- | Hin]; [unfold distance_of; cbn [fst]; lia | now apply Hb].
    + destruct H as [[Heq Hrest] | (before & r & after & -> & Hd & Hb & Ha & Hm)].
      * injection Heq as <- <-. right.
        exists [], ref_hash, rest. repeat split; auto. intros ? [].
      * right. exists ((ref_hash, song_obj) :: before), r, after.
        repeat split; auto.
        intros entry [<- | Hin]; [exact Hm | now apply Hb].
Qed.

(** X4. Ties of the song matcher go to the first entry: the song returned
    stands in the jacket-hash map at a place where every earlier entry is
    strictly farther from the target hash and no later entry is nearer. *)
Theorem X4_first_minimum_wins (jacket_hash_map : list (Z * Song))
    (target_hash : Z) (song : Song) (distance : Z) :
  get_best_match_song jacket_hash_map target_hash = Some (song, distance) ->
  exists before ref_hash after,
    jacket_hash_map = before ++ (ref_hash, song) :: after
    /\ distance = hash_distance target_hash ref_hash
    /\ (forall entry, In entry before ->
          distance < distance_of target_hash entry)
    /\ (forall entry, In entry after ->
          distance <= distance_of target_hash entry).
Proof.
  unfold get_best_match_song. intros H.
  apply best_match_loop_first in H
    as [[Heq _] | (before & r & after & Hsplit & Hd & Hb & Ha & _)];
    [discriminate | ].
  exists before, r, after. auto.
Qed.

(** Two entries at the same distance, taken through
    [X4_first_minimum_wins]. *)
Lemma X4_first_minimum_wins_witness :
  exists before ref_hash after,
    [(1, Sample.song); (2, Sample.song)] = before ++ (ref_hash, Sample.song) :: after
    /\ 1 = hash_distance 0 ref_hash
    /\ (forall entry, In entry before -> 1 < distance_of 0 entry)
    /\ (forall entry, In entry after -> 1 <= distance_of 0 entry).
Proof.
  apply (X4_first_minimum_wins [(1, Sample.song); (2, Sample.song)] 0
           Sample.song 1).
  vm_compute. reflexivity.
Defined.

Lemma catalog_hash_map_spec (song_database : list Song) :
  let song_db := build_song_db song_database in
  let hash_map := _build_jacket_hash_map song_db in
  List.NoDup (map fst hash_map)
  /\ (forall h song, In (h, song) hash_map ->
        In song song_database /\ has_hash song h)
  /\ (forall id song h, In (id, song) song_db -> has_hash song h ->
        In h (map fst hash_map)).
Proof.
  intros song_db hash_map.
  destruct (jacket_hash_map_spec song_db) as (Hnodup & Hentries & Hcover).
  destruct (build_song_db_spec song_database) as (_ & Hdb & _).
  split; [exact Hnodup | split].
  - intros h song Hin. destruct (Hentries h song Hin) as [Hsong Hhash].
    split; [ | exact Hhash].
    apply in_map_iff in Hsong as ([id song'] & <- & Hin').
    now destruct (Hdb id song' Hin').
  - intros id song h Hin Hhash. apply (Hcover song h); [ | exact Hhash].
    apply in_map_iff. now exists (id, song).
Qed.

Lemma best_match_nearest (jacket_hash_map : list (Z * Song)) (target_hash : Z) :
  match get_best_match_song jacket_hash_map target_hash with
  | None => jacket_hash_map = []
  | Some (song, distance) =>
      (exists ref_hash, In (ref_hash, song) jacket_hash_map
         /\ distance = hash_distance target_hash ref_hash)
      /\ forall ref_hash song', In (ref_hash, song') jacket_hash_map ->
           distance <= hash_distance target_hash ref_hash
  end.
Proof.
  unfold get_best_match_song.
  pose proof (best_match_loop_spec jacket_hash_map target_hash None) as H.
  destruct (best_match_loop jacket_hash_map target_hash None)
    as [[song distance] | ].
  - destruct H as (Hmin & _ & [Hfrom | Heq]); [auto | discriminate].
  - tauto.
Qed.

(** X5. The jacket-hash map built from a song list holds nothing foreign
    and misses nothing: each entry holds a song of the list under one of
    that song's own two hashes, and every hash of every song kept in the
    song database is a key of the map. *)
Theorem X5_jacket_hash_map_invariant (song_database : list Song) :
  let song_db := build_song_db song_database in
  let hash_map := _build_jacket_hash_map song_db in
  (forall h song, In (h, song) hash_map ->
     In song song_database /\ has_hash song h)
  /\ (forall id song h, In (id, song) song_db -> has_hash song h ->
        In h (map fst hash_map)).
Proof. exact (proj2 (catalog_hash_map_spec song_database)). Qed.

(** X6. A jacket whose hash equals a hash registered for a song of the
    database is matched at distance 0, so it is accepted; when the
    registered hashes are non-negative numbers, the song matched is one
    registered under that very hash. *)
Theorem X6_registered_hash_matches (song_database : list Song) (id : Z)
    (song : Song) (h : Z) :
  In (id, song) (build_song_db song_database) ->
  has_hash song h ->
  exists matched,
    get_best_match_song
      (_build_jacket_hash_map (build_song_db song_database)) h
    = Some (matched, 0)
    /\ (0 <= h ->
        (forall s h', In s song_database -> has_hash s h' -> 0 <= h') ->
        has_hash matched h).
Proof.
  intros Hin Hhash.
  destruct (catalog_hash_map_spec song_database) as (_ & Hentries & Hcover).
  specialize (Hcover id song h Hin Hhash).
  set (hash_map := _build_jacket_hash_map (build_song_db song_database)) in *.
  pose proof (best_match_nearest hash_map h) as Hbest.
  destruct (get_best_match_song hash_map h) as [[matched distance] | ].
  - destruct Hbest as ((ref & Href & Hd) & Hmin).
    apply in_map_iff in Hcover as ([h' s] & Hfst & Hin'). cbn in Hfst. subst h'.
    pose proof (Hmin h s Hin') as Hle. rewrite hash_distance_refl in Hle.
    pose proof (hash_distance_nonneg h ref) as Hnn.
    assert (Hzero : distance = 0) by lia. rewrite Hzero in *.
    exists matched. split; [reflexivity | ].
    intros Hh Hnonneg. destruct (Hentries ref matched Href) as [Hsong Hhas].
    assert (h = ref) as ->; [ | exact Hhas].
    apply hash_distance_zero; eauto.
  - rewrite Hbest in Hcover. destruct Hcover.
Qed.

(** The sample catalog, taken through [X6_registered_hash_matches]. *)
Lemma X6_registered_hash_matches_witness :
  exists matched,
    get_best_match_song
      (_build_jacket_hash_map (build_song_db [Sample.song]))
      0xf3738c6596f2218c
    = Some (matched, 0)
    /\ (0 <= 0xf3738c6596f2218c ->
        (forall s h', In s [Sample.song] -> has_hash s h' -> 0 <= h') ->
        has_hash matched 0xf3738c6596f2218c).
Proof.
  apply (X6_registered_hash_matches [Sample.song] 7 Sample.song
           0xf3738c6596f2218c).
  - left. reflexivity.
  - left. reflexivity.
Defined.

(** ** Difficulty colours *)

Lemma color_close_spec (r g b cr cg cb : Z) :
  color_close (r, g, b) (cr, cg, cb) = true
  <-> Z.abs (r - cr) <= 5 /\ Z.abs (g - cg) <= 5 /\ Z.abs (b - cb) <= 5.
Proof.
  unfold color_close, COLOR_TOLERANCE.
  rewrite !andb_true_iff, !Z.leb_le. tauto.
Qed.

(** X7. The result-screen difficulty is decided by the colour alone, not
    by the order of the table: a difficulty is returned exactly for the
    pixels within 5 of its colour on every channel, no pixel is within 5
    of two colours, and ["UNKNOWN"] is returned exactly for the pixels
    within 5 of none. *)
Theorem X7_get_difficulty_by_colour (r g b : Z) :
  (forall difficulty color,
     In (difficulty, color) DIFFICULTY_COLORS ->
     (get_difficulty r g b = difficulty <-> color_close (r, g, b) color = true))
  /\ (get_difficulty r g b = "UNKNOWN"
      <-> forall difficulty color,
            In (difficulty, color) DIFFICULTY_COLORS ->
            color_close (r, g, b) color = false).
Proof.
  unfold get_difficulty, DIFFICULTY_COLORS. cbn [first_close].
  destruct (color_close (r, g, b) (254, 179, 26)) eqn:E1;
    destruct (color_close (r, g, b) (252, 109, 111)) eqn:E2;
    destruct (color_close (r, g, b) (187, 99, 219)) eqn:E3;
    destruct (color_close (r, g, b) (69, 81, 141)) eqn:E4;
    repeat match goal with
    | H : color_close _ _ = true |- _ => apply color_close_spec in H
    end;
    try (exfalso; lia).
  all: split;
    [ intros difficulty color Hin; cbn [In] in Hin;
      repeat match goal with
      | H : _ \/ _ |- _ => destruct H as [H | H]
      | H : (_, _) = (_, _) |- _ => injection H as <- <-
      | H : False |- _ => destruct H
      end;
      rewrite ?E1, ?E2, ?E3, ?E4; split; intros; try discriminate;
      try reflexivity; try (apply color_close_spec; assumption);
      try (rewrite color_close_spec in *; exfalso; lia)
    | split;
      [ intros Heq; try discriminate Heq;
        intros difficulty color Hin; cbn [In] in Hin;
        repeat match goal with
        | H : _ \/ _ |- _ => destruct H as [H | H]
        | H : (_, _) = (_, _) |- _ => injection H as <- <-
        | H : False |- _ => destruct H
        end; assumption
      | intros Hall; try reflexivity; exfalso;
        first
          [ specialize (Hall "EASY" (254, 179, 26) ltac:(cbn; auto));
            apply not_true_iff_false in Hall; apply Hall;
            now apply color_close_spec
          | specialize (Hall "HARD" (252, 109, 111) ltac:(cbn; auto));
            apply not_true_iff_false in Hall; apply Hall;
            now apply color_close_spec
          | specialize (Hall "OVER" (187, 99, 219) ltac:(cbn; auto 6));
            apply not_true_iff_false in Hall; apply Hall;
            now apply color_close_spec
          | specialize (Hall "PLUS" (69, 81, 141) ltac:(cbn; auto 6));
            apply not_true_iff_false in Hall; apply Hall;
            now apply color_close_spec ] ] ].
Qed.

(** X8. The pivot pixel of the select screen is classified by its colour
    alone: each difficulty is returned exactly for the pixels strictly
    within 5 of its arrow colour on every channel, whatever the order of
    the tests, and [None] exactly for the pixels within 5 of none. *)
Theorem X8_is_pivot_pixel_by_colour (r g b : Z) :
  (is_pivot_pixel (r, g, b) = Some "EASY"
   <-> Z.abs (r - 231) < 5 /\ Z.abs (g - 136) < 5 /\ Z.abs (b - 40) < 5)
  /\ (is_pivot_pixel (r, g, b) = Some "HARD"
      <-> Z.abs (r - 234) < 5 /\ Z.abs (g - 98) < 5 /\ Z.abs (b - 124) < 5)
  /\ (is_pivot_pixel (r, g, b) = Some "OVER"
      <-> Z.abs (r - 146) < 5 /\ Z.abs (g - 115) < 5 /\ Z.abs (b - 254) < 5)
  /\ (is_pivot_pixel (r, g, b) = Some "PLUS"
      <-> Z.abs (r - 31) < 5 /\ Z.abs (g - 45) < 5 /\ Z.abs (b - 90) < 5)
  /\ (forall difficulty,
        is_pivot_pixel (r, g, b) = Some difficulty ->
        In difficulty ["EASY"; "HARD"; "OVER"; "PLUS"]).
Proof.
  unfold is_pivot_pixel.
  destruct ((Z.abs (r - 231) <? 5) && (Z.abs (g - 136) <? 5)
            && (Z.abs (b - 40) <? 5)) eqn:E1;
    destruct ((Z.abs (r - 234) <? 5) && (Z.abs (g - 98) <? 5)
              && (Z.abs (b - 124) <? 5)) eqn:E2;
    destruct ((Z.abs (r - 146) <? 5) && (Z.abs (g - 115) <? 5)
              && (Z.abs (b - 254) <? 5)) eqn:E3;
    destruct ((Z.abs (r - 31) <? 5) && (Z.abs (g - 45) <? 5)
              && (Z.abs (b - 90) <? 5)) eqn:E4;
    rewrite ?andb_true_iff, ?andb_false_iff, ?Z.ltb_lt, ?Z.ltb_ge in *;
    try (exfalso; lia);
    repeat split; intros; try discriminate; try lia; try reflexivity;
    try (exfalso; lia);
    try match goal with
    | H : Some _ = Some _ |- _ => injection H as <-; cbn; auto 6
    end.
Qed.

(** ** Perfect plays *)

Lemma Z_div_eucl_eq (a b : Z) : Z.div_eucl a b = (a / b, a mod b).
Proof. unfold Z.div, Z.modulo. now destruct (Z.div_eucl a b). Qed.

Lemma binary_round_100_46 :
  binary_round_aux prec emax false (100 * 2 ^ 46) (-46) loc_Exact = f100.
Proof. vm_compute. reflexivity. Qed.

Lemma binary_round_100_47 :
  binary_round_aux prec emax false (100 * 2 ^ 47) (-47) loc_Exact = f100.
Proof. vm_compute. reflexivity. Qed.

(** [100 * n / n] is the float 100, for every positive [n]. *)
Lemma int_truediv_100 (n : Z) :
  0 < n -> int_truediv (100 * n) n = Return f100.
Proof.
  intros Hn. unfold int_truediv.
  destruct (Z.eqb_spec n 0) as [ | _]; [lia | ].
  destruct n as [ | n | n]; try lia.
  change (100 * Zpos n) with (Zpos (100 * n)). cbn [exact_of_int].
  assert (Hq : SF64div (S754_finite false (100 * n) 0) (S754_finite false n 0)
               = f100); [ | now rewrite Hq].
  unfold SF64div, SFdiv, SFdiv_core_binary. cbn [xorb Zdigits2].
  rewrite fexp64_eq.
  set (d1 := Zpos (digits2_pos (100 * n))). set (d2 := Zpos (digits2_pos n)).
  assert (Hd : d1 - d2 = 6 \/ d1 - d2 = 7).
  { pose proof (digits2_pos_lower (100 * n)) as Ha. fold d1 in Ha.
    pose proof (digits2_pos_lt (100 * n)) as Ha'. fold d1 in Ha'.
    pose proof (digits2_pos_lower n) as Hb. fold d2 in Hb.
    pose proof (digits2_pos_lt n) as Hb'. fold d2 in Hb'.
    assert (Hup : 2 ^ (d1 - 1) < 2 ^ (d2 + 7)).
    { rewrite (Z.pow_add_r 2 d2 7) by (subst d2; lia).
      change (2 ^ 7) with 128. lia. }
    assert (Hlow : 2 ^ (d2 + 5) < 2 ^ d1).
    { replace (d2 + 5) with (d2 - 1 + 6) by lia.
      rewrite (Z.pow_add_r 2 (d2 - 1) 6) by (subst d2; lia).
      change (2 ^ 6) with 64. lia. }
    apply Z.pow_lt_mono_r_iff in Hup; [ | lia | subst d2; lia].
    apply Z.pow_lt_mono_r_iff in Hlow; [ | lia | subst d1; lia].
    lia. }
  replace (d1 + 0 - (d2 + 0)) with (d1 - d2) by lia.
  destruct Hd as [-> | ->].
  - change (Z.min (Z.max (6 - 53) (-1074)) (0 - 0)) with (-47).
    change (0 - 0 - -47) with 47.
    rewrite Z.shiftl_mul_pow2 by lia.
    rewrite Z_div_eucl_eq.
    replace (Zpos (100 * n) * 2 ^ 47) with (100 * 2 ^ 47 * Zpos n) by lia.
    rewrite Z.div_mul, Z.mod_mul by lia.
    replace (new_location (Zpos n) 0) with loc_Exact
      by (unfold new_location, new_location_even, new_location_odd;
          now destruct (Z.even (Zpos n))).
    exact binary_round_100_47.
  - change (Z.min (Z.max (7 - 53) (-1074)) (0 - 0)) with (-46).
    change (0 - 0 - -46) with 46.
    rewrite Z.shiftl_mul_pow2 by lia.
    rewrite Z_div_eucl_eq.
    replace (Zpos (100 * n) * 2 ^ 46) with (100 * 2 ^ 46 * Zpos n) by lia.
    rewrite Z.div_mul, Z.mod_mul by lia.
    replace (new_location (Zpos n) 0) with loc_Exact
      by (unfold new_location, new_location_even, new_location_odd;
          now destruct (Z.even (Zpos n))).
    exact binary_round_100_46.
Qed.

(** ** The perfect-decode test is exact *)

Section DyadicBound.

Variables k j : Z.
Hypothesis Hj : 0 <= j <= 46.
Hypothesis Hk : 0 < k < 2 ^ (7 + j).

Lemma dyadic_cap_shift (e : Z) (p : positive) :
  e + Zpos p <= - j ->
  dyadic_cap k j e = 2 ^ Zpos p * dyadic_cap k j (e + Zpos p).
Proof.
  intros H. unfold dyadic_cap.
  replace (- j - e) with (Zpos p + (- j - (e + Zpos p))) by lia.
  rewrite Z.pow_add_r by lia. ring.
Qed.

Lemma dyadic_cap_lt_pow (e : Z) : e <= - j -> dyadic_cap k j e < 2 ^ (7 - e).
Proof.
  intros H. unfold dyadic_cap.
  replace (7 - e) with ((7 + j) + (- j - e)) by lia.
  rewrite Z.pow_add_r by lia.
  assert (0 < 2 ^ (- j - e)) by (apply Z.pow_pos_nonneg; lia).
  apply Z.mul_lt_mono_pos_r; lia.
Qed.

Lemma dyadic_cap_nonneg (e : Z) : e <= - j -> 0 <= dyadic_cap k j e.
Proof.
  intros H. unfold dyadic_cap.
  assert (0 < 2 ^ (- j - e)) by (apply Z.pow_pos_nonneg; lia).
  apply Z.mul_nonneg_nonneg; lia.
Qed.

Lemma shr_fexp_under_cap (m e : Z) (l : location) :
  e <= -46 -> 0 <= m <= dyadic_cap k j e ->
  (l <> loc_Exact -> m < dyadic_cap k j e) ->
  (snd (shr_fexp prec emax m e l) <= -46) /\
  under (dyadic_cap k j (snd (shr_fexp prec emax m e l)))
    (fst (shr_fexp prec emax m e l)).
Proof.
  intros He Hm Hl. unfold shr_fexp, shr. rewrite fexp64_eq.
  assert (Hd : Zdigits2 m <= 7 - e).
  { apply Zdigits2_upper; [ | lia]. pose proof (dyadic_cap_lt_pow e). lia. }
  assert (Hrec : under (dyadic_cap k j e) (shr_record_of_loc m l)).
  { unfold under. destruct l as [ | [ | | ]];
      cbn [shr_record_of_loc shr_m shr_r shr_s];
      (split; [lia | ]); cbn [orb]; intros H; try discriminate;
      apply Hl; discriminate. }
  destruct (Z.max (Zdigits2 m + e - 53) (-1074) - e) as [ | p | p ] eqn:En;
    cbn [fst snd]; try (split; [lia | exact Hrec]).
  split; [lia | ].
  apply iter_pos_shr_1_under. rewrite <- dyadic_cap_shift by lia. exact Hrec.
Qed.

(** Rounding a number that is at most [k / 2^j] gives a float that is at
    most [k / 2^j]. *)
Lemma binary_round_aux_below (mx ex : Z) (lx : location) :
  ex <= -46 -> 0 <= mx <= dyadic_cap k j ex ->
  (lx <> loc_Exact -> mx < dyadic_cap k j ex) ->
  below k j (binary_round_aux prec emax false mx ex lx).
Proof.
  intros He Hm Hl. unfold binary_round_aux.
  destruct (shr_fexp_under_cap mx ex lx He Hm Hl) as [He1 Hu1].
  destruct (shr_fexp prec emax mx ex lx) as [mrs1 e1]. cbn [fst snd] in He1, Hu1.
  pose proof (round_nearest_even_under _ _ Hu1) as Hr.
  set (m1 := round_nearest_even (shr_m mrs1) (loc_of_shr_record mrs1)) in *.
  assert (Hx : loc_Exact <> loc_Exact -> m1 < dyadic_cap k j e1)
    by (intros H; now contradiction H).
  destruct (shr_fexp_under_cap m1 e1 loc_Exact He1 Hr Hx) as [He2 Hu2].
  destruct (shr_fexp prec emax m1 e1 loc_Exact) as [mrs2 e2].
  cbn [fst snd] in He2, Hu2.
  destruct Hu2 as [[H0 HB] _].
  destruct (shr_m mrs2) as [ | q | q ]; cbn [below]; try reflexivity; try lia.
  replace (e2 <=? emax - prec) with true; [cbn; auto | ].
  symmetry. apply Z.leb_le. change (emax - prec) with 971. lia.
Qed.

(** Correctly rounded quotient of two positive integers whose ratio is at
    most [k / 2^j]. *)
Lemma SF64div_below (a b : positive) :
  Zpos a * 2 ^ j <= k * Zpos b ->
  below k j (SF64div (S754_finite false a 0) (S754_finite false b 0)).
Proof.
  intros Hab. unfold SF64div, SFdiv, SFdiv_core_binary. cbn [xorb Zdigits2].
  rewrite fexp64_eq.
  set (d1 := Zpos (digits2_pos a)). set (d2 := Zpos (digits2_pos b)).
  assert (Hpj : 0 < 2 ^ j) by (apply Z.pow_pos_nonneg; lia).
  assert (Hd : d1 - d2 <= 7).
  { pose proof (digits2_pos_lower a) as Ha. fold d1 in Ha.
    pose proof (digits2_pos_lt b) as Hb. fold d2 in Hb.
    assert (Hk' : k * Zpos b < 2 ^ (7 + j) * Zpos b)
      by (apply Z.mul_lt_mono_pos_r; lia).
    rewrite Z.pow_add_r in Hk' by lia.
    assert (Ha' : Zpos a * 2 ^ j < 2 ^ 7 * Zpos b * 2 ^ j) by lia.
    assert (Ha'' : Zpos a < 2 ^ 7 * Zpos b)
      by (apply (Z.mul_lt_mono_pos_r (2 ^ j)); lia).
    assert (Hlt : 2 ^ (d1 - 1) < 2 ^ (d2 + 7)).
    { rewrite (Z.pow_add_r 2 d2 7) by (subst d2; lia).
      change (2 ^ 7) with 128 in *. lia. }
    apply Z.pow_lt_mono_r_iff in Hlt; subst d1 d2; lia. }
  replace (d1 + 0 - (d2 + 0)) with (d1 - d2) by lia.
  set (e' := Z.min (Z.max (d1 - d2 - 53) (-1074)) (0 - 0)).
  assert (He' : e' <= -46) by (subst e'; lia).
  destruct (0 - 0 - e') as [ | s | s ] eqn:Es; try lia.
  rewrite Z.shiftl_mul_pow2 by lia.
  set (c := 2 ^ (Zpos s - j)).
  assert (Hc : 0 < c) by (apply Z.pow_pos_nonneg; lia).
  assert (Hcap : dyadic_cap k j e' = k * c).
  { unfold dyadic_cap, c. replace (- j - e') with (Zpos s - j) by lia.
    reflexivity. }
  assert (Hs : 2 ^ Zpos s = 2 ^ j * c).
  { unfold c. rewrite <- Z.pow_add_r by lia. f_equal. lia. }
  set (n := Zpos a * 2 ^ Zpos s).
  assert (Hn : n <= k * c * Zpos b).
  { unfold n. rewrite Hs.
    replace (Zpos a * (2 ^ j * c)) with (Zpos a * 2 ^ j * c) by ring.
    replace (k * c * Zpos b) with (k * Zpos b * c) by ring.
    apply Z.mul_le_mono_nonneg_r; lia. }
  assert (Hn0 : 0 <= n).
  { unfold n. apply Z.mul_nonneg_nonneg; [lia | ].
    apply Z.pow_nonneg; lia. }
  pose proof (Z_div_mod_eq_full n (Zpos b)) as Hdm.
  pose proof (Z.mod_pos_bound n (Zpos b) ltac:(lia)) as Hmod.
  assert (Hq0 : 0 <= n / Zpos b) by (apply Z.div_pos; lia).
  assert (HqB : n / Zpos b <= k * c) by (apply Z.div_le_upper_bound; lia).
  destruct (Z.div_eucl n (Zpos b)) as [q r] eqn:Eqr.
  assert (Hq : q = n / Zpos b) by (unfold Z.div; now rewrite Eqr).
  assert (Hr : r = n mod Zpos b) by (unfold Z.modulo; now rewrite Eqr).
  apply binary_round_aux_below; [exact He' | | ].
  - rewrite Hcap. lia.
  - intros Hl. rewrite Hcap.
    assert (Hrne : r <> 0).
    { intros ->. apply Hl.
      unfold new_location, new_location_even, new_location_odd.
      now destruct (Z.even (Zpos b)). }
    destruct (Z_lt_le_dec q (k * c)) as [Hlt | Hge]; [exact Hlt | exfalso].
    assert (Heq : q = k * c) by lia.
    assert (Hprod : Zpos b * (n / Zpos b) = k * c * Zpos b)
      by (rewrite <- Hq, Heq; ring).
    lia.
Qed.

Lemma compare_cont_lt (m c : positive) :
  Zpos m < Zpos c -> Pos.compare_cont Eq m c = Lt.
Proof.
  intros H. change (Pos.compare_cont Eq m c) with (Pos.compare m c).
  apply Pos.compare_lt_iff. lia.
Qed.

(** A float at most [k / 2^j] is less than 100 when [k / 2^j] is. *)
Lemma below_lt_100 (x : spec_float) :
  k < 100 * 2 ^ j -> below k j x -> SFltb x f100 = true.
Proof.
  intros Hlt. rewrite f100_eq. unfold SFltb.
  destruct x as [s | s | | s m e]; cbn [below]; try contradiction.
  - intros ->. reflexivity.
  - intros (-> & He & Hm). cbn [SFcompare].
    destruct (Z.compare_spec e (-46)) as [E | _ | Hgt]; [ | reflexivity | lia].
    rewrite compare_cont_lt; [reflexivity | ].
    rewrite <- cap_m46. subst e. unfold dyadic_cap in Hm. unfold cap.
    replace (- j - -46) with (46 - j) in Hm by lia.
    replace (2 - -46) with (2 + j + (46 - j)) by lia.
    rewrite !Z.pow_add_r by lia.
    assert (Hc : 0 < 2 ^ (46 - j)) by (apply Z.pow_pos_nonneg; lia).
    assert (Hbig : k * 2 ^ (46 - j) < 100 * 2 ^ j * 2 ^ (46 - j))
      by (apply Z.mul_lt_mono_pos_r; lia).
    change (2 ^ 2) with 4. lia.
Qed.

End DyadicBound.

Lemma div_half_even_upper (num den N : Z) :
  0 < den -> 0 <= num -> 2 * num < (2 * N + 1) * den ->
  0 <= div_half_even num den <= N.
Proof.
  intros Hden Hnum Hlt. unfold div_half_even.
  pose proof (Z_div_mod_eq_full num den) as Hdm.
  pose proof (Z.mod_pos_bound num den Hden) as Hmod.
  assert (Hq0 : 0 <= num / den) by (apply Z.div_pos; lia).
  assert (HqN : num / den <= N).
  { destruct (Z_le_gt_dec (num / den) N) as [Hle | Hgt]; [exact Hle | exfalso].
    assert (den * (N + 1) <= den * (num / den))
      by (apply Z.mul_le_mono_nonneg_l; lia).
    lia. }
  destruct (Z.compare_spec (2 * (num mod den)) den) as [E | E | E];
    try destruct (Z.even (num / den)); try lia.
  all: destruct (Z.eq_dec (num / den) N) as [Heq | Hne]; [ | lia].
  all: rewrite Heq in Hdm; lia.
Qed.

(** [a / b] on integers whose ratio is at most 100 - 2^-14. *)
Lemma int_truediv_below (a b : Z) :
  0 <= a -> 0 < b -> a * 2 ^ 14 <= 1638399 * b ->
  exists q, int_truediv a b = Return q /\ below 1638399 14 q.
Proof.
  intros Ha Hb Hab. unfold int_truediv.
  destruct (Z.eqb_spec b 0) as [ | _]; [lia | ].
  destruct b as [ | b | b ]; try lia.
  destruct a as [ | a | a ]; try lia.
  - exists (S754_zero false). split; reflexivity.
  - assert (Hw : below 1638399 14
                   (SF64div (S754_finite false a 0) (S754_finite false b 0))).
    { apply SF64div_below; [lia | | exact Hab].
      change (2 ^ (7 + 14)) with 2097152. lia. }
    cbn [exact_of_int].
    destruct (SF64div (S754_finite false a 0) (S754_finite false b 0))
      as [ | | | s m e] eqn:E;
      cbn [below] in Hw; try contradiction;
      cbn [is_infinite]; eexists; (split; [reflexivity | exact Hw]).
Qed.

(** [round(x, 4)] of a float that is at most 100 - 2^-14 is at most
    99.9999, hence at most 100 - 2^-20. *)
Lemma py_round_below (x : pyfloat) :
  below 1638399 14 x ->
  exists r, py_round x 4 = Return r /\ below 104857599 20 r.
Proof.
  destruct x as [s | s | | s m e]; cbn [below]; try contradiction.
  - intros ->. exists (S754_zero false). split; reflexivity.
  - intros (-> & He & Hm). unfold py_round.
    destruct e as [ | e | kk ]; try lia.
    unfold dyadic_cap in Hm.
    match type of Hm with
    | _ <= _ * 2 ^ ?x => replace x with (Zpos kk - 14) in Hm by lia
    end.
    set (c := 2 ^ (Zpos kk - 14)) in *.
    assert (Hc : 0 < c) by (apply Z.pow_pos_nonneg; lia).
    assert (Hpow : 2 ^ Zpos kk = 16384 * c).
    { unfold c. change 16384 with (2 ^ 14).
      rewrite <- Z.pow_add_r by lia. f_equal. lia. }
    assert (Hn : 0 <= div_half_even (Zpos m * 10 ^ 4) (2 ^ Zpos kk) <= 999999).
    { apply div_half_even_upper; rewrite ?Hpow; change (10 ^ 4) with 10000; lia. }
    set (n := div_half_even (Zpos m * 10 ^ 4) (2 ^ Zpos kk)) in *.
    destruct (Z.eqb_spec n 0) as [ | Hn0].
    + exists (S754_zero false). split; reflexivity.
    + destruct n as [ | n | n ]; try lia.
      change (10 ^ 4) with 10000. cbn [exact_of_int].
      assert (Hw : below 104857599 20
                     (SF64div (S754_finite false n 0)
                        (S754_finite false 10000 0))).
      { apply SF64div_below; [lia | | ].
        - change (2 ^ (7 + 20)) with 134217728. lia.
        - change (2 ^ 20) with 1048576. lia. }
      destruct (SF64div (S754_finite false n 0) (S754_finite false 10000 0))
        as [ | | | s' m' e'] eqn:E;
        cbn [below] in Hw; try contradiction;
        cbn [is_infinite]; eexists; (split; [reflexivity | exact Hw]).
Qed.

Lemma SFltb_not_eqb (x y : spec_float) : SFltb x y = true -> SFeqb x y = false.
Proof.
  unfold SFltb, SFeqb. now destruct (SFcompare x y) as [[ | | ] | ].
Qed.

(** The accuracy of a chart of at most 491520 notes is 100 exactly when
    every judgement is top-tier-high or top-tier. *)
Lemma calculate_judge_rate_perfect (ph p : Z) :
  0 <= ph -> 0 <= p -> 0 < ph + p ->
  calculate_judge_rate ph p 0 0 0 = Return f100.
Proof.
  intros Hph Hp Htotal. unfold calculate_judge_rate.
  replace ((ph + p) * 100 + 0 * 70 + 0 * 30) with (100 * (ph + p)) by lia.
  replace (ph + p + 0 + 0 + 0) with (ph + p) by lia.
  rewrite int_truediv_100 by lia. vm_compute. reflexivity.
Qed.

Lemma calculate_judge_rate_exact (ph p g d m : Z) :
  0 <= ph -> 0 <= p -> 0 <= g -> 0 <= d -> 0 <= m ->
  0 < ph + p + g + d + m <= 491520 ->
  exists judge,
    calculate_judge_rate ph p g d m = Return judge
    /\ (feq judge f100 = true <-> g = 0 /\ d = 0 /\ m = 0).
Proof.
  intros Hph Hp Hg Hd Hm Htotal.
  destruct (Z.eq_dec (g + d + m) 0) as [Hzero | Hsome].
  - assert (g = 0 /\ d = 0 /\ m = 0) as (-> & -> & ->) by lia.
    exists f100. split; [apply calculate_judge_rate_perfect; lia | ].
    split; [auto | intros _; vm_compute; reflexivity].
  - unfold calculate_judge_rate.
    destruct (int_truediv_below ((ph + p) * 100 + g * 70 + d * 30)
                (ph + p + g + d + m)) as (q & -> & Hq);
      [lia | lia | change (2 ^ 14) with 16384; lia | ].
    cbn [rbind].
    destruct (py_round_below q Hq) as (judge & -> & Hjudge).
    exists judge. split; [reflexivity | ].
    assert (Hlt : SFltb judge f100 = true).
    { apply (below_lt_100 104857599 20); [lia | | exact Hjudge].
      change (2 ^ 20) with 1048576. lia. }
    unfold feq. rewrite (SFltb_not_eqb _ _ Hlt).
    split; [discriminate | lia].
Qed.

(** X9. A play with top-tier judgements only, however many notes it has,
    has accuracy exactly 100.0 and rank SS+. For non-negative judgement
    counts of a chart of at most 491520 notes the converse holds too, so
    the perfect-decode test is exact there: the accuracy, rounded to four
    decimals, equals 100 exactly when every judgement is top-tier-high or
    top-tier. Some bound is needed: with 600001 notes a single mid-tier
    judgement is rounded away. *)
Theorem X9_perfect_decode_exact :
  (forall ph p,
     0 <= ph -> 0 <= p -> 0 < ph + p ->
     calculate_judge_rate ph p 0 0 0 = Return f100
     /\ calculate_rank f100 = "SS+")
  /\ (forall ph p g d m,
        0 <= ph -> 0 <= p -> 0 <= g -> 0 <= d -> 0 <= m ->
        0 < ph + p + g + d + m <= 491520 ->
        exists judge,
          calculate_judge_rate ph p g d m = Return judge
          /\ (feq judge f100 = true <-> g = 0 /\ d = 0 /\ m = 0))
  /\ calculate_judge_rate 600000 0 1 0 0 = Return f100.
Proof.
  split; [ | split; [exact calculate_judge_rate_exact | vm_compute; reflexivity]].
  intros ph p Hph Hp Htotal.
  split; [now apply calculate_judge_rate_perfect | vm_compute; reflexivity].
Qed.

(** 999 top-tier judgements and one mid-tier, taken through
    [X9_perfect_decode_exact]: not a perfect decode. *)
Lemma X9_perfect_decode_exact_witness :
  exists judge,
    calculate_judge_rate 990 9 1 0 0 = Return judge
    /\ (feq judge f100 = true <-> 1 = 0 /\ 0 = 0 /\ 0 = 0).
Proof.
  apply (proj1 (proj2 X9_perfect_decode_exact) 990 9 1 0 0); lia.
Defined.

(** ** Select screen *)

Lemma find_pivot_some (pixel : Z -> Z * Z * Z) (fuel : nat) :
  forall start y difficulty,
    find_pivot fuel start pixel = Some (y, difficulty)
    <-> start <= y /\ y < 1040 /\ y < start + Z.of_nat fuel
        /\ is_pivot_pixel (pixel y) = Some difficulty
        /\ forall y', start <= y' < y -> is_pivot_pixel (pixel y') = None.
Proof.
  induction fuel as [ | fuel IH]; intros start y difficulty.
  - cbn [find_pivot]. split; [discriminate | lia].
  - cbn [find_pivot]. destruct (Z.ltb_spec start 1040) as [Hlt | Hge].
    + destruct (is_pivot_pixel (pixel start)) as [d | ] eqn:E.
      * split.
        -- intros H. injection H as <- <-.
           repeat split; try lia; exact E.
        -- intros (H1 & H2 & H3 & H4 & H5).
           destruct (Z.eq_dec y start) as [-> | Hne].
           ++ rewrite E in H4. now injection H4 as ->.
           ++ rewrite (H5 start) in E by lia. discriminate.
      * rewrite IH. split.
        -- intros (H1 & H2 & H3 & H4 & H5). repeat split; try lia; try exact H4.
           intros y' Hy'. destruct (Z.eq_dec y' start) as [-> | Hne];
             [exact E | apply H5; lia].
        -- intros (H1 & H2 & H3 & H4 & H5).
           assert (y <> start) by (intros ->; rewrite E in H4; discriminate).
           repeat split; try lia; try exact H4. intros y' Hy'; apply H5; lia.
    + split; [discriminate | lia].
Qed.

Lemma find_pivot_none (pixel : Z -> Z * Z * Z) (fuel : nat) :
  forall start,
    find_pivot fuel start pixel = None
    <-> forall y, start <= y -> y < 1040 -> y < start + Z.of_nat fuel ->
          is_pivot_pixel (pixel y) = None.
Proof.
  induction fuel as [ | fuel IH]; intros start.
  - cbn [find_pivot]. split; [intros _ y; lia | reflexivity].
  - cbn [find_pivot]. destruct (Z.ltb_spec start 1040) as [Hlt | Hge].
    + destruct (is_pivot_pixel (pixel start)) as [d | ] eqn:E.
      * split; [discriminate | ]. intros H. rewrite (H start) in E by lia.
        discriminate.
      * rewrite IH. split.
        -- intros H y Hy1 Hy2 Hy3.
           destruct (Z.eq_dec y start) as [-> | Hne]; [exact E | apply H; lia].
        -- intros H y Hy1 Hy2 Hy3. apply H; lia.
    + split; [intros _ y; lia | reflexivity].
Qed.

(** X10. The scan for the difficulty arrow visits the rows 627 to 1039 of
    its column from the top and stops at the first pivot-coloured pixel:
    it finds row [y] with a difficulty exactly when [y] is the topmost row
    of that range whose pixel is classified, and finds nothing exactly
    when no row of the range is. *)
Theorem X10_find_pivot_topmost (pixel : Z -> Z * Z * Z) :
  (forall y difficulty,
     find_pivot 413 627 pixel = Some (y, difficulty)
     <-> 627 <= y < 1040
         /\ is_pivot_pixel (pixel y) = Some difficulty
         /\ forall y', 627 <= y' < y -> is_pivot_pixel (pixel y') = None)
  /\ (find_pivot 413 627 pixel = None
      <-> forall y, 627 <= y < 1040 -> is_pivot_pixel (pixel y) = None).
Proof.
  split.
  - intros y difficulty. rewrite find_pivot_some.
    change (Z.of_nat 413) with 413. intuition lia.
  - rewrite find_pivot_none. change (Z.of_nat 413) with 413.
    split; intros H y; [intros Hy; apply H; lia | intros; apply H; lia].
Qed.

(** A select screen returns a report exactly when the jacket is accepted,
    neither minor part is negative and the scan finds a pivot. *)
Lemma select_screen_returns (jacket_hash_map : list (Z * Song))
    (img : SelectReadings) :
  (exists report, _analyze_select_screen jacket_hash_map img = Return report)
  <-> (exists song distance,
         get_best_match_song jacket_hash_map (select_jacket_hash img)
         = Some (song, distance) /\ distance <= 5)
      /\ 0 <= select_minor_patch img
      /\ 0 <= select_minor_judge img
      /\ find_pivot 413 627 (select_pivot_pixel img) <> None.
Proof.
  unfold _analyze_select_screen, float_of_parts.
  destruct (get_best_match_song _ _) as [[song distance] | ].
  - destruct (Z.gtb_spec distance 5) as [Hgt | Hle].
    + split; [intros [? H]; discriminate | ].
      intros ((s & d & Heq & Hd) & _). injection Heq as <- <-. lia.
    + destruct (Z.ltb_spec (select_minor_patch img) 0) as [Hp | Hp]; cbn [rbind].
      * split; [intros [? H]; discriminate | lia].
      * destruct (Z.ltb_spec (select_minor_judge img) 0) as [Hj | Hj]; cbn [rbind].
        -- split; [intros [? H]; discriminate | lia].
        -- destruct (select_max_patch_pixel img) as [[mr mg] mb].
           destruct (find_pivot _ _ _) as [[pivot_y difficulty] | ].
           ++ split; [ | intros _; eauto].
              intros _. repeat split; try lia; [eauto | discriminate].
           ++ split; [intros [? H]; discriminate | ].
              intros (_ & _ & _ & H). now contradiction H.
  - split; [intros [? H]; discriminate | ].
    intros ((s & d & Heq & _) & _). discriminate.
Qed.


(** ** Decimal numbers of the select screen *)

Lemma ndigits_fuel_exact (fuel : nat) :
  forall n k,
    1 <= k -> k - 1 <= Z.of_nat fuel -> 0 <= n -> n < 10 ^ k ->
    (10 ^ (k - 1) <= n \/ k = 1) ->
    ndigits_fuel fuel n = k.
Proof.
  induction fuel as [ | fuel IH]; intros n k Hk Hfuel Hn Hlt Hge.
  - cbn [ndigits_fuel]. lia.
  - cbn [ndigits_fuel]. destruct (Z.ltb_spec n 10) as [Hsmall | Hbig].
    + destruct Hge as [Hge | ->]; [ | reflexivity].
      destruct (Z.eq_dec k 1) as [-> | Hne]; [reflexivity | ].
      assert (10 ^ 1 <= 10 ^ (k - 1)) by (apply Z.pow_le_mono_r; lia).
      change (10 ^ 1) with 10 in *. lia.
    + assert (Hk2 : 2 <= k).
      { destruct (Z.eq_dec k 1) as [-> | Hne]; [ | lia].
        change (10 ^ 1) with 10 in Hlt. lia. }
      destruct Hge as [Hge | ->]; [ | lia].
      assert (Hpow : 10 ^ k = 10 * 10 ^ (k - 1)).
      { replace k with (Z.succ (k - 1)) at 1 by lia. apply Z.pow_succ_r. lia. }
      rewrite (IH (n / 10) (k - 1)); try lia.
      * apply Z.div_pos; lia.
      * apply Z.div_lt_upper_bound; lia.
      * destruct (Z.eq_dec k 2) as [-> | Hne]; [right; reflexivity | left].
        assert (Hpow' : 10 ^ (k - 1) = 10 * 10 ^ (k - 1 - 1)).
        { replace (k - 1) with (Z.succ (k - 1 - 1)) at 1 by lia.
          apply Z.pow_succ_r. lia. }
        apply Z.div_le_lower_bound; lia.
Qed.

(** [ndigits] counts the decimal digits. *)
Lemma ndigits_exact (n k : Z) :
  1 <= k -> 0 <= n -> n < 10 ^ k -> (10 ^ (k - 1) <= n \/ k = 1) ->
  ndigits n = k.
Proof.
  intros Hk Hn Hlt Hge. unfold ndigits.
  destruct (Z.eq_dec k 1) as [-> | Hne].
  - destruct (Z.to_nat (Z.log2 n)) as [ | fuel]; [reflexivity | ].
    cbn [ndigits_fuel]. change (10 ^ 1) with 10 in Hlt.
    destruct (Z.ltb_spec n 10); [reflexivity | lia].
  - destruct Hge as [Hge | ?]; [ | lia].
    apply ndigits_fuel_exact; auto.
    assert (H2 : 2 ^ (k - 1) <= 10 ^ (k - 1)) by (apply Z.pow_le_mono_l; lia).
    assert (Hpos : 0 < 2 ^ (k - 1)) by (apply Z.pow_pos_nonneg; lia).
    assert (k - 1 <= Z.log2 n) by (apply Z.log2_le_pow2; lia).
    lia.
Qed.

Lemma ndigits_small (n k : Z) :
  1 <= k -> 0 <= n -> n < 10 ^ k -> 1 <= ndigits n <= k.
Proof.
  intros Hk Hn Hlt.
  assert (Hex : exists j, 1 <= j <= k /\ n < 10 ^ j /\ (10 ^ (j - 1) <= n \/ j = 1)).
  { revert Hlt. pattern k. apply Zlt_lower_bound_ind with (z := 1); [ | exact Hk].
    intros j IH Hj Hlt.
    destruct (Z.eq_dec j 1) as [-> | Hne]; [exists 1; lia | ].
    destruct (Z_lt_le_dec n (10 ^ (j - 1))) as [Hlow | Hhigh].
    - destruct (IH (j - 1)) as (i & Hi & Hi1 & Hi2); [lia | exact Hlow | ].
      exists i. split; [lia | auto].
    - exists j. split; [lia | auto]. }
  destruct Hex as (j & Hj & Hj1 & Hj2).
  rewrite (ndigits_exact n j); lia.
Qed.

(** [float_of_parts] when the minor part has [k] digits after padding. *)
Lemma float_of_parts_digits (major minor width k : Z) :
  0 <= major -> 0 <= minor ->
  Z.max width (ndigits minor) = k ->
  float_of_parts major minor width = Return (float_lit (major * 10 ^ k + minor) k).
Proof.
  intros Hmajor Hminor Hk. unfold float_of_parts.
  destruct (Z.ltb_spec minor 0); [lia | ].
  destruct (Z.ltb_spec major 0); [lia | ].
  cbv zeta. rewrite Hk, Z.abs_eq by exact Hmajor. reflexivity.
Qed.

(** X12. On a select screen the rating and the accuracy are read as two
    integers each and put together as the decimal number [major.minor]:
    the accuracy's minor part is padded to four digits, the rating's to
    two, so (97, 512) is 97.0512 and (427, 7) is 427.07. A minor part
    with more digits than that is not cut: (427, 123) is 427.123. *)
Theorem X12_select_decimals (jacket_hash_map : list (Z * Song))
    (img : SelectReadings) (report : AnalysisReport) :
  _analyze_select_screen jacket_hash_map img = Return report ->
  0 <= select_major_patch img ->
  0 <= select_major_judge img ->
  (select_minor_judge img < 10000 ->
   report_judge report
   = float_lit (select_major_judge img * 10000 + select_minor_judge img) 4)
  /\ (select_minor_patch img < 100 ->
      report_patch report
      = float_lit (select_major_patch img * 100 + select_minor_patch img) 2)
  /\ (forall k, 2 < k ->
      10 ^ (k - 1) <= select_minor_patch img < 10 ^ k ->
      report_patch report
      = float_lit (select_major_patch img * 10 ^ k + select_minor_patch img) k).
Proof.
  intros Hret Hmp Hmj.
  assert (Hminor : 0 <= select_minor_patch img /\ 0 <= select_minor_judge img).
  { assert (H : exists r, _analyze_select_screen jacket_hash_map img = Return r)
      by eauto.
    apply select_screen_returns in H. tauto. }
  destruct Hminor as [Hp Hj].
  unfold _analyze_select_screen in Hret.
  destruct (get_best_match_song _ _) as [[song distance] | ]; [ | discriminate].
  destruct (distance >? 5); [discriminate | ].
  destruct (float_of_parts (select_major_patch img) _ _) as [patch | ] eqn:Epatch;
    [ | discriminate].
  cbn [rbind] in Hret.
  destruct (float_of_parts (select_major_judge img) _ _) as [judge | ] eqn:Ejudge;
    [ | discriminate].
  cbn [rbind] in Hret.
  destruct (select_max_patch_pixel img) as [[mr mg] mb].
  destruct (find_pivot _ _ _) as [[pivot_y difficulty] | ]; [ | discriminate].
  injection Hret as <-. cbn [report_judge report_patch].
  split; [ | split].
  - intros Hlt.
    rewrite (float_of_parts_digits _ _ 4 4) in Ejudge; auto.
    + now injection Ejudge as <-.
    + pose proof (ndigits_small (select_minor_judge img) 4). lia.
  - intros Hlt.
    rewrite (float_of_parts_digits _ _ _ 2) in Epatch; auto.
    + now injection Epatch as <-.
    + destruct (Z.ltb_spec (select_minor_patch img) 10) as [Hsmall | Hbig].
      * pose proof (ndigits_small (select_minor_patch img) 1). lia.
      * rewrite (ndigits_exact (select_minor_patch img) 2); lia.
  - intros k Hk Hrange.
    rewrite (float_of_parts_digits _ _ _ k) in Epatch; auto.
    + now injection Epatch as <-.
    + assert (10 ^ 2 <= 10 ^ (k - 1)) by (apply Z.pow_le_mono_r; lia).
      change (10 ^ 2) with 100 in *.
      rewrite (ndigits_exact (select_minor_patch img) k) by lia.
      destruct (Z.ltb_spec (select_minor_patch img) 10); lia.
Qed.

(** The sample select screen, taken through [X12_select_decimals]: rating
    427.07 and accuracy 97.0512. *)
Lemma X12_select_decimals_witness :
  exists report,
    _analyze_select_screen Sample.hash_map Plays.hard_select = Return report
    /\ report_judge report = float_lit 970512 4
    /\ report_patch report = float_lit 42707 2.
Proof.
  eexists. split; [vm_compute; reflexivity | ].
  destruct (X12_select_decimals Sample.hash_map Plays.hard_select _ eq_refl)
    as (Hjudge & Hpatch & _); [cbn; lia | cbn; lia | ].
  split; [apply Hjudge | apply Hpatch]; cbn; lia.
Defined.

(** ** What a report of the pipeline carries *)

Lemma contains_In (l : list Z) (x : Z) : contains l x = true <-> In x l.
Proof.
  induction l as [ | y l IH]; cbn [contains In]; [split; [discriminate | tauto] | ].
  rewrite orb_true_iff, IH, Z.eqb_eq. split; intros [H | H]; auto.
Qed.

Lemma get_available_levels_In (patterns : list Pattern) (line : Z)
    (difficulty : string) (level : Z) :
  In level (get_available_levels patterns line difficulty)
  <-> exists pattern,
        In pattern patterns
        /\ pattern_line pattern = line
        /\ pattern_difficulty pattern = difficulty
        /\ pattern_level pattern = level.
Proof.
  induction patterns as [ | pat rest IH]; cbn [get_available_levels In].
  - split; [intros [] | intros (? & [] & _)].
  - destruct (Z.eqb_spec (pattern_line pat) line) as [Hline | Hline];
      [destruct (String.eqb_spec (pattern_difficulty pat) difficulty)
         as [Hdiff | Hdiff] | ];
      cbn [andb In]; rewrite ?IH; split.
    + intros [Hlevel | (p & Hin & H)]; [exists pat; auto | exists p; auto].
    + intros (p & [<- | Hin] & Hl & Hd & Hlv); [now left | right; eauto].
    + intros (p & Hin & H). exists p; auto.
    + intros (p & [<- | Hin] & Hl & Hd & Hlv); [congruence | eauto].
    + intros (p & Hin & H). exists p; auto.
    + intros (p & [<- | Hin] & Hl & Hd & Hlv); [congruence | eauto].
Qed.

Lemma registered_contains (report : AnalysisReport) :
  contains
    (get_available_levels (song_patterns (report_song report))
       (report_line report) (report_difficulty report))
    (report_level report) = true
  <-> registered report.
Proof. rewrite contains_In. apply get_available_levels_In. Qed.

(** X13. Before the comparison [update_display] logs the completion line
    and at most two warnings, and does nothing else: it returns without
    an exception and leaves the archive and the posted requests as they
    were. The distance warning is logged exactly when the report's match
    distance is above 5, and the level warning exactly when the catalog
    has no pattern of the report's song with the report's line count,
    difficulty and level. *)
Theorem X13_analysis_warnings (report : AnalysisReport) (st : ClientState) :
  fst (log_analysis report st) = Return tt
  /\ archive (snd (log_analysis report st)) = archive st
  /\ outbox (snd (log_analysis report st)) = outbox st
  /\ exists lines,
       log (snd (log_analysis report st))
       = log st ++ LogAnalysisComplete :: lines
       /\ lines
          = (if 5 <? report_match_distance report
             then [LogDistanceWarning (report_match_distance report)] else [])
            ++ (if contains
                     (get_available_levels (song_patterns (report_song report))
                        (report_line report) (report_difficulty report))
                     (report_level report)
                then [] else [LogLevelWarning (report_level report)])
       /\ (In (LogDistanceWarning (report_match_distance report)) lines
           <-> 5 < report_match_distance report)
       /\ (In (LogLevelWarning (report_level report)) lines
           <-> ~ registered report).
Proof.
  destruct (log_analysis_frame report st) as (Hret & Harchive & Houtbox).
  split; [exact Hret | ]. split; [exact Harchive | ]. split; [exact Houtbox | ].
  eexists. split; [ | split; [reflexivity | ]].
  - unfold log_analysis, bind, log_message, ret. rewrite Z.gtb_ltb.
    destruct (5 <? report_match_distance report);
      destruct (contains _ _); cbn [negb snd log fst];
      rewrite <- ?app_assoc; reflexivity.
  - rewrite <- registered_contains.
    destruct (Z.ltb_spec 5 (report_match_distance report)) as [Hlt | Hge];
      destruct (contains _ _); cbn [app In]; split; split;
      intros H; try lia; try congruence; auto;
      repeat match goal with
      | H : _ \/ _ |- _ => destruct H as [H | H]
      | H : False |- _ => destruct H
      end; try discriminate; try lia; try congruence.
Qed.

Lemma is_pivot_pixel_range (rgb : Z * Z * Z) (difficulty : string) :
  is_pivot_pixel rgb = Some difficulty ->
  In difficulty ["EASY"; "HARD"; "OVER"; "PLUS"].
Proof.
  destruct rgb as [[r g] b]. unfold is_pivot_pixel.
  repeat match goal with
  | |- context [if ?c then _ else _] => destruct c
  end; intros H; try discriminate; injection H as <-; cbn [In]; auto.
Qed.

Lemma first_close_range (colors : list (string * (Z * Z * Z))) (target : Z * Z * Z) :
  In (first_close colors target) ("UNKNOWN" :: map fst colors).
Proof.
  induction colors as [ | [difficulty color] rest IH]; cbn [first_close map fst];
    [now left | ].
  destruct (color_close target color); [right; now left | ].
  destruct IH as [H | H]; [now left | right; now right].
Qed.

(** The match a select-screen report carries. *)
Lemma select_report_match (jacket_hash_map : list (Z * Song))
    (img : SelectReadings) (report : AnalysisReport) :
  _analyze_select_screen jacket_hash_map img = Return report ->
  get_best_match_song jacket_hash_map (select_jacket_hash img)
  = Some (report_song report, report_match_distance report)
  /\ report_match_distance report <= 5
  /\ report_jacket_hash report = select_jacket_hash img
  /\ In (report_difficulty report) ["EASY"; "HARD"; "OVER"; "PLUS"]
  /\ report_total_notes report = 0.
Proof.
  unfold _analyze_select_screen.
  destruct (get_best_match_song _ _) as [[song distance] | ]; [ | discriminate].
  destruct (Z.gtb_spec distance 5) as [Hgt | Hle]; [discriminate | ].
  destruct (float_of_parts (select_major_patch img) _ _) as [patch | ];
    [ | discriminate].
  cbn [rbind].
  destruct (float_of_parts (select_major_judge img) _ _) as [judge | ];
    [ | discriminate].
  cbn [rbind].
  destruct (select_max_patch_pixel img) as [[mr mg] mb].
  destruct (find_pivot _ _ _) as [[pivot_y difficulty] | ] eqn:Epivot;
    [ | discriminate].
  intros H. injection H as <-.
  cbn [report_song report_match_distance report_jacket_hash report_difficulty
       report_total_notes].
  repeat split; auto.
  apply find_pivot_some in Epivot as (_ & _ & _ & Hpixel & _).
  apply is_pivot_pixel_range in Hpixel.
  cbn [In] in Hpixel.
  repeat (destruct Hpixel as [<- | Hpixel]; [cbn; auto | ]). destruct Hpixel.
Qed.

(** The match a result-screen report carries. *)
Lemma result_report_match (jacket_hash_map : list (Z * Song))
    (img : ResultReadings) (report : AnalysisReport) :
  analyze_result_screen jacket_hash_map img = Return report ->
  get_best_match_song jacket_hash_map (result_jacket_hash img)
  = Some (report_song report, report_match_distance report)
  /\ report_match_distance report <= 5
  /\ report_jacket_hash report = result_jacket_hash img
  /\ In (report_difficulty report) ["UNKNOWN"; "EASY"; "HARD"; "OVER"; "PLUS"]
  /\ report_total_notes report = result_total_notes img
  /\ result_total_notes img <> 0.
Proof.
  intros Hret.
  assert (Htotal : result_total_notes img <> 0).
  { intros Hzero.
    destruct (get_best_match_song jacket_hash_map (result_jacket_hash img))
      as [[song distance] | ] eqn:Ebest.
    - destruct (Z_le_gt_dec distance 5) as [Hle | Hgt].
      + rewrite (result_screen_zero_total _ _ _ _ Ebest Hle Hzero) in Hret.
        discriminate.
      + unfold analyze_result_screen in Hret. rewrite Ebest in Hret.
        destruct (Z.gtb_spec distance 5); [discriminate | lia].
    - unfold analyze_result_screen in Hret. rewrite Ebest in Hret.
      discriminate. }
  revert Hret. unfold analyze_result_screen.
  destruct (get_best_match_song _ _) as [[song distance] | ]; [ | discriminate].
  destruct (Z.gtb_spec distance 5) as [Hgt | Hle]; [discriminate | ].
  destruct (verify_notes_count _ _ _ _ _ _) as [[[[ph p] gr] gd] mi].
  destruct (result_difficulty_color img) as [[r g] b].
  destruct (calculate_judge_rate _ _ _ _ _) as [judge | ]; [ | discriminate].
  cbn [rbind].
  destruct (calculate_patch _ _ _ _) as [patch | ]; [ | discriminate].
  cbn [rbind].
  destruct (feq judge f100);
    [destruct (int_truediv ph (result_total_notes img)) as [density | ];
       [ | discriminate] | ];
    cbn [rbind]; intros H; injection H as <-;
    cbn [report_song report_match_distance report_jacket_hash report_difficulty
         report_total_notes];
    (repeat split; auto;
     exact (first_close_range DIFFICULTY_COLORS (r, g, b))).
Qed.

(** X14. A report returned by the pipeline carries the catalog song
    nearest to the jacket it read, with its distance, and that distance is
    5 or below, so [update_display] never logs its distance warning for
    such a report: it logs the completion line and at most the level
    warning. The report's difficulty is one of the four names on a select
    screen (the replacement of UNKNOWN there never applies) and one of
    them or UNKNOWN on a result screen; its total note count is 0 on a
    select screen and never 0 on a result screen. *)
Theorem X14_report_provenance (jacket_hash_map : list (Z * Song))
    (img : Screenshot) (report : AnalysisReport) (st : ClientState) :
  extract_info jacket_hash_map img = Return report ->
  get_best_match_song jacket_hash_map (jacket_of img)
  = Some (report_song report, report_match_distance report)
  /\ report_match_distance report <= 5
  /\ report_jacket_hash report = jacket_of img
  /\ log (snd (log_analysis report st))
     = log st
       ++ LogAnalysisComplete
          :: (if contains
                   (get_available_levels (song_patterns (report_song report))
                      (report_line report) (report_difficulty report))
                   (report_level report)
              then [] else [LogLevelWarning (report_level report)])
  /\ match determine_screen_type img with
     | SELECT =>
         In (report_difficulty report) ["EASY"; "HARD"; "OVER"; "PLUS"]
         /\ report_total_notes report = 0
     | RESULT =>
         In (report_difficulty report) ["UNKNOWN"; "EASY"; "HARD"; "OVER"; "PLUS"]
         /\ report_total_notes report <> 0
     end.
Proof.
  intros Hret.
  assert (Hlog : report_match_distance report <= 5 ->
            log (snd (log_analysis report st))
            = log st
              ++ LogAnalysisComplete
                 :: (if contains
                          (get_available_levels (song_patterns (report_song report))
                             (report_line report) (report_difficulty report))
                          (report_level report)
                     then [] else [LogLevelWarning (report_level report)])).
  { intros Hle. unfold log_analysis, bind, log_message, ret.
    destruct (Z.gtb_spec (report_match_distance report) 5) as [Hgt | _]; [lia | ].
    destruct (contains _ _); cbn [negb snd log fst];
      rewrite <- ?app_assoc; reflexivity. }
  unfold extract_info, jacket_of in *.
  destruct (determine_screen_type img).
  - apply select_report_match in Hret as (Hbest & Hle & Hhash & Hdiff & Htotal).
    auto 10.
  - apply result_report_match in Hret
      as (Hbest & Hle & Hhash & Hdiff & Htotal & Hnonzero).
    rewrite Htotal. auto 10.
Qed.

(** The misread level-15 chart, taken through [X14_report_provenance]:
    its report carries [Sample.song] at distance 0. *)
Lemma X14_report_provenance_witness :
  exists report,
    extract_info Sample.hash_map
      (Sample.result_shot Sample.misread_level_result) = Return report
    /\ report_match_distance report <= 5.
Proof.
  eexists. split; [vm_compute; reflexivity | ].
  match goal with
  | |- report_match_distance ?r <= 5 =>
      apply (X14_report_provenance Sample.hash_map
               (Sample.result_shot Sample.misread_level_result) r
               Sample.client_with_best)
  end.
  vm_compute. reflexivity.
Defined.

(** ** The rating of a result screen *)

(** X15. The rating a result-screen report carries is cross-checked
    against the formula: it is the rating read from the screen when the
    play is a perfect decode or the reading is within 0.1 of the formula's
    value, and the formula's value otherwise, the formula being applied to
    the level as read, the report's rank and accuracy, and the PLUS flag
    of its difficulty. The rank is F or the ladder's rank of the accuracy,
    perfect decode means accuracy 100, and maximum rating is only flagged
    on a perfect decode. *)
Theorem X15_rating_cross_check (jacket_hash_map : list (Z * Song))
    (img : ResultReadings) (report : AnalysisReport) :
  analyze_result_screen jacket_hash_map img = Return report ->
  report_is_perfect_decode report = feq (report_judge report) f100
  /\ (report_is_maximum_patch report = true ->
      report_is_perfect_decode report = true)
  /\ (report_rank report = "F"
      \/ report_rank report = calculate_rank (report_judge report))
  /\ exists formula,
       calculate_patch (result_level img) (report_rank report)
         (String.eqb (report_difficulty report) "PLUS") (report_judge report)
       = Return formula
       /\ report_patch report
          = if report_is_perfect_decode report
               || (fle (SFopp (float_lit 1 1)) (SF64sub (result_patch img) formula)
                   && fle (SF64sub (result_patch img) formula) (float_lit 1 1))
            then result_patch img else formula.
Proof.
  unfold analyze_result_screen.
  destruct (get_best_match_song _ _) as [[song distance] | ]; [ | discriminate].
  destruct (distance >? 5); [discriminate | ].
  destruct (verify_notes_count _ _ _ _ _ _) as [[[[ph p] gr] gd] mi].
  destruct (result_difficulty_color img) as [[r g] b].
  destruct (calculate_judge_rate _ _ _ _ _) as [judge | ]; [ | discriminate].
  cbn [rbind].
  destruct (calculate_patch _ _ _ _) as [formula | ] eqn:Eformula;
    [ | discriminate].
  cbn [rbind].
  destruct (feq judge f100) eqn:Eperfect;
    [destruct (int_truediv ph (result_total_notes img)) as [density | ];
       [ | discriminate] | ];
    cbn [rbind]; intros H; injection H as <-;
    cbn [report_is_perfect_decode report_judge report_is_maximum_patch
         report_rank report_difficulty report_patch];
    (split; [now rewrite Eperfect | ]);
    (split; [auto | ]);
    (split; [destruct (hash_distance _ _ <? 5); auto | ]);
    exists formula; (split; [exact Eformula | ]); cbn [orb];
    try reflexivity.
Qed.

(** The misread level-15 chart, taken through [X15_rating_cross_check]:
    its rank is the ladder's. *)
Lemma X15_rating_cross_check_witness :
  exists report,
    analyze_result_screen Sample.hash_map Sample.misread_level_result
    = Return report
    /\ (report_rank report = "F"
        \/ report_rank report = calculate_rank (report_judge report)).
Proof.
  eexists. split; [vm_compute; reflexivity | ].
  match goal with
  | |- report_rank ?r = _ \/ _ =>
      apply (X15_rating_cross_check Sample.hash_map
               Sample.misread_level_result r)
  end.
  vm_compute. reflexivity.
Defined.

(** ** Hash-table recognizers *)

(** The scan keeps the first entry of least distance among those strictly
    nearer than the initial distance, or the initial pair when there is
    none. *)
Lemma closest_loop_spec {V : Type} (distance_to : Z -> Z) (table : list (V * Z)) :
  forall (closest : V) (closest_distance : option Z) (c : V) (d : option Z),
    closest_loop table distance_to closest closest_distance = (c, d) ->
    (forall v h, In (v, h) table -> exists dz, d = Some dz /\ dz <= distance_to h)
    /\ (forall d0, closest_distance = Some d0 -> exists dz, d = Some dz /\ dz <= d0)
    /\ ((c = closest /\ d = closest_distance)
        \/ exists before h after,
             table = before ++ (c, h) :: after
             /\ d = Some (distance_to h)
             /\ (forall d0, closest_distance = Some d0 -> distance_to h < d0)
             /\ forall v' h', In (v', h') before -> distance_to h < distance_to h').
Proof.
  induction table as [ | [value known_hash] rest IH];
    intros closest closest_distance c d Hrun; cbn [closest_loop] in Hrun.
  - injection Hrun as <- <-. split; [intros ? ? [] | ].
    split; [intros d0 ->; exists d0; split; [reflexivity | lia] | left; auto].
  - cbv zeta in Hrun.
    destruct (match closest_distance with
              | Some d0 => distance_to known_hash <? d0
              | None => true
              end) eqn:Enearer.
    + apply IH in Hrun as (Hmin & Hinit & Hwhich).
      destruct (Hinit _ eq_refl) as (dz & -> & Hdz).
      split; [ | split].
      * intros v h [Heq | Hin]; [injection Heq as <- <-; eauto | eauto].
      * intros d0 ->. apply Z.ltb_lt in Enearer. exists dz. split; [auto | lia].
      * right.
        destruct Hwhich as [[-> Hd] | (before & h & after & -> & Hd & Hlt & Hbefore)].
        -- exists [], known_hash, rest. injection Hd as ->.
           split; [reflexivity | ]. split; [reflexivity | ].
           split; [ | intros ? ? []].
           intros d0 ->. now apply Z.ltb_lt in Enearer.
        -- exists ((value, known_hash) :: before), h, after.
           injection Hd as ->. specialize (Hlt _ eq_refl).
           split; [reflexivity | ]. split; [reflexivity | ]. split.
           ++ intros d0 ->. apply Z.ltb_lt in Enearer. lia.
           ++ intros v' h' [Heq | Hin]; [injection Heq as <- <-; exact Hlt | eauto].
    + destruct closest_distance as [d0 | ]; [ | discriminate].
      apply Z.ltb_ge in Enearer.
      apply IH in Hrun as (Hmin & Hinit & Hwhich).
      destruct (Hinit _ eq_refl) as (dz & -> & Hdz).
      split; [ | split].
      * intros v h [Heq | Hin]; [injection Heq as <- <-; exists dz; split; [auto | lia]
                                | eauto].
      * intros ? H. injection H as <-. eauto.
      * destruct Hwhich as [[-> Hd] | (before & h & after & -> & Hd & Hlt & Hbefore)];
          [left; auto | right].
        exists ((value, known_hash) :: before), h, after.
        injection Hd as ->. specialize (Hlt _ eq_refl).
        split; [reflexivity | ]. split; [reflexivity | ]. split.
        -- intros ? H. injection H as <-. exact Hlt.
        -- intros v' h' [Heq | Hin]; [injection Heq as <- <-; lia | eauto].
Qed.

(** X16. The level read from the hash of a region, [find_level_phash], is
    0 exactly when every hash of its table is at distance 5 or more from
    the region's; otherwise it is the level of a table hash that is at a
    distance below 5 (4 or less) and nearest, the first such in table
    order. *)
Theorem X16_find_level_phash_nearest (given_hash : Z) :
  (find_level_phash given_hash = 0
   <-> forall level compare_hash,
         In (level, compare_hash) level_hash_map ->
         5 <= hash_distance compare_hash given_hash)
  /\ (find_level_phash given_hash <> 0 ->
      exists before compare_hash after,
        level_hash_map
        = before ++ (find_level_phash given_hash, compare_hash) :: after
        /\ hash_distance compare_hash given_hash < 5
        /\ (forall level' hash', In (level', hash') level_hash_map ->
              hash_distance compare_hash given_hash
              <= hash_distance hash' given_hash)
        /\ (forall level' hash', In (level', hash') before ->
              hash_distance compare_hash given_hash
              < hash_distance hash' given_hash)).
Proof.
  unfold find_level_phash.
  destruct (closest_loop level_hash_map
              (fun compare_hash => hash_distance compare_hash given_hash) 0 None)
    as [closest_level closest_distance] eqn:Erun.
  apply closest_loop_spec in Erun as (Hmin & _ & Hwhich).
  split.
  - split.
    + intros Hzero level compare_hash Hin.
      destruct (Hmin _ _ Hin) as (dz & -> & Hdz).
      destruct (Z.ltb_spec dz 5) as [Hlt | Hge]; [ | lia].
      destruct Hwhich as [[_ Hd] | (before & h & after & Htable & _)];
        [discriminate | ].
      exfalso. subst closest_level.
      assert (Hin0 : In (0, h) level_hash_map).
      { rewrite Htable. apply in_or_app. right. now left. }
      cbn in Hin0.
      repeat (destruct Hin0 as [Hin0 | Hin0]; [discriminate | ]). exact Hin0.
    + intros Hall.
      destruct Hwhich as [[_ ->] | (before & h & after & Htable & -> & _)];
        [reflexivity | ].
      assert (Hin : In (closest_level, h) level_hash_map).
      { rewrite Htable. apply in_or_app. right. now left. }
      specialize (Hall _ _ Hin).
      destruct (Z.ltb_spec (hash_distance h given_hash) 5); [lia | reflexivity].
  - intros Hne.
    destruct Hwhich as [[_ ->] | (before & h & after & Htable & -> & _ & Hbefore)];
      [now contradiction Hne | ].
    destruct (Z.ltb_spec (hash_distance h given_hash) 5) as [Hlt | Hge];
      [ | now contradiction Hne].
    exists before, h, after. repeat split; auto.
    intros level' hash' Hin.
    destruct (Hmin _ _ Hin) as (dz & Hdz & Hle). injection Hdz as <-. exact Hle.
Qed.

(** X17. The three select-screen readers look their table up before the
    text: when some table hash is at a distance below 3 (2 or less) from
    the region's, the value returned is that of a nearest table hash,
    whatever text was read; when every table hash is at distance 3 or
    more, it is the integer read, or 0 when the text is not an integer. *)
Theorem X17_select_readers_table_first (phash_map : list (Z * Z))
    (text_int : option Z) (phash : Z) :
  ((forall value known_phash,
      In (value, known_phash) phash_map -> 3 <= hash_distance phash known_phash)
   /\ read_by_table phash_map text_int phash = default 0 text_int)
  \/ exists known_phash,
       In (read_by_table phash_map text_int phash, known_phash) phash_map
       /\ hash_distance phash known_phash < 3
       /\ forall value' known_phash',
            In (value', known_phash') phash_map ->
            hash_distance phash known_phash <= hash_distance phash known_phash'.
Proof.
  unfold read_by_table.
  destruct (closest_loop _ _ None (Some 50)) as [possible_patch lowest_distance]
    eqn:Erun.
  apply closest_loop_spec in Erun as (Hmin & Hinit & Hwhich).
  destruct (Hinit _ eq_refl) as (dz & -> & Hdz).
  assert (Hall : forall value known_phash,
            In (value, known_phash) phash_map -> dz <= hash_distance phash known_phash).
  { intros value known_phash Hin.
    destruct (Hmin (Some value) known_phash) as (dz' & Heq & Hle).
    - apply in_map_iff. now exists (value, known_phash).
    - now injection Heq as <-. }
  destruct Hwhich as [[-> Hd] | (before & h & after & Htable & Hd & _)].
  - left. injection Hd as ->. split; [ | reflexivity].
    intros value known_phash Hin. specialize (Hall _ _ Hin). lia.
  - injection Hd as ->.
    assert (Hin : In (possible_patch, h)
                    (map (fun entry => (Some (fst entry), snd entry)) phash_map)).
    { rewrite Htable. apply in_or_app. right. now left. }
    apply in_map_iff in Hin as ([value known] & Heq & Hin).
    cbn [fst snd] in Heq. injection Heq as <- <-.
    destruct (Z.ltb_spec (hash_distance phash known) 3) as [Hlt | Hge].
    + right. exists known. auto.
    + left. split; [ | reflexivity].
      intros value' known' Hin'. specialize (Hall _ _ Hin'). lia.
Qed.

(** ** The level of the select screen, by hash *)

Lemma first_within_none (table : list (Z * Z)) (phash : Z) :
  (forall level level_hash,
     In (level, level_hash) table -> 3 <= hash_distance phash level_hash) ->
  first_within table phash = 0.
Proof.
  induction table as [ | [level level_hash] rest IH]; intros Hall;
    cbn [first_within]; [reflexivity | ].
  destruct (Z.ltb_spec (hash_distance phash level_hash) 3) as [Hlt | Hge].
  - specialize (Hall level level_hash (or_introl eq_refl)). lia.
  - apply IH. intros l h Hin. apply (Hall l h). now right.
Qed.

Lemma first_within_found (table : list (Z * Z)) (phash : Z) :
  first_within table phash = 0
  \/ exists level_hash,
       In (first_within table phash, level_hash) table
       /\ hash_distance phash level_hash < 3.
Proof.
  induction table as [ | [level level_hash] rest IH]; cbn [first_within];
    [now left | ].
  destruct (Z.ltb_spec (hash_distance phash level_hash) 3) as [Hlt | Hge].
  - right. exists level_hash. split; [now left | exact Hlt].
  - destruct IH as [H | (h & Hin & Hlt)]; [now left | right].
    exists h. split; [now right | exact Hlt].
Qed.

Lemma first_within_only (table : list (Z * Z)) (phash level level_hash : Z) :
  In (level, level_hash) table ->
  hash_distance phash level_hash < 3 ->
  (forall level' hash',
     In (level', hash') table -> hash_distance phash hash' < 3 ->
     level' = level) ->
  first_within table phash = level.
Proof.
  intros Hin Hlt. induction table as [ | [l0 h0] rest IH]; intros Honly;
    [destruct Hin | ].
  cbn [first_within].
  destruct (Z.ltb_spec (hash_distance phash h0) 3) as [Hlt0 | Hge0].
  - apply (Honly l0 h0); [now left | exact Hlt0].
  - destruct Hin as [Heq | Hin]; [injection Heq as -> ->; lia | ].
    apply IH; [exact Hin | ].
    intros l' h' Hin' Hlt'. apply (Honly l' h'); [now right | exact Hlt'].
Qed.

Lemma separated_In (gap : Z) (table : list (Z * Z)) :
  separated gap table = true ->
  List.NoDup (map fst table) ->
  forall level1 hash1 level2 hash2,
    In (level1, hash1) table -> In (level2, hash2) table ->
    level1 <> level2 -> gap <= hash_distance hash1 hash2.
Proof.
  induction table as [ | [l0 h0] rest IH]; cbn [separated map fst];
    intros Hsep Hnodup level1 hash1 level2 hash2 Hin1 Hin2 Hne;
    [destruct Hin1 | ].
  apply andb_true_iff in Hsep as [Hhead Hrest].
  rewrite forallb_forall in Hhead.
  inversion Hnodup as [ | ? ? _ Hnodup']; subst.
  destruct Hin1 as [Heq1 | Hin1], Hin2 as [Heq2 | Hin2].
  - congruence.
  - injection Heq1 as -> ->. specialize (Hhead _ Hin2). cbn [snd] in Hhead. lia.
  - injection Heq2 as -> ->. specialize (Hhead _ Hin1). cbn [snd] in Hhead.
    rewrite hash_distance_sym. lia.
  - now apply (IH Hrest Hnodup' level1 hash1 level2 hash2).
Qed.

(** A table of non-negative hashes at pairwise distance 5 or more has at
    most one hash at a distance below 3 from a given one. *)
Lemma first_within_separated (table : list (Z * Z)) (phash : Z) :
  separated 5 table = true ->
  List.NoDup (map fst table) ->
  (forall level level_hash, In (level, level_hash) table ->
     level <> 0 /\ 0 <= level_hash) ->
  0 <= phash ->
  (forall level level_hash,
     In (level, level_hash) table ->
     (first_within table phash = level <-> hash_distance phash level_hash < 3))
  /\ (first_within table phash = 0
      <-> forall level level_hash,
            In (level, level_hash) table -> 3 <= hash_distance phash level_hash).
Proof.
  intros Hsep Hnodup Hwf Hphash.
  assert (Honly : forall level1 hash1 level2 hash2,
            In (level1, hash1) table -> In (level2, hash2) table ->
            hash_distance phash hash1 < 3 -> hash_distance phash hash2 < 3 ->
            level1 = level2).
  { intros level1 hash1 level2 hash2 Hin1 Hin2 Hlt1 Hlt2.
    destruct (Z.eq_dec level1 level2) as [Heq | Hne]; [exact Heq | exfalso].
    pose proof (separated_In 5 table Hsep Hnodup _ _ _ _ Hin1 Hin2 Hne) as Hgap.
    pose proof (hash_distance_triangle hash1 phash hash2
                  (proj2 (Hwf _ _ Hin1)) Hphash (proj2 (Hwf _ _ Hin2))) as Htri.
    rewrite (hash_distance_sym hash1 phash) in Htri. lia. }
  assert (Hsame : forall level hash1 hash2,
            In (level, hash1) table -> In (level, hash2) table -> hash1 = hash2).
  { clear - Hnodup. induction table as [ | [l0 h0] rest IH];
      intros level hash1 hash2 Hin1 Hin2; [destruct Hin1 | ].
    cbn [map fst] in Hnodup. inversion Hnodup as [ | ? ? Hnotin Hnodup']; subst.
    destruct Hin1 as [Heq1 | Hin1], Hin2 as [Heq2 | Hin2].
    - congruence.
    - injection Heq1 as -> ->. exfalso. apply Hnotin.
      apply in_map_iff. now exists (level, hash2).
    - injection Heq2 as -> ->. exfalso. apply Hnotin.
      apply in_map_iff. now exists (level, hash1).
    - now apply (IH Hnodup' level). }
  split.
  - intros level level_hash Hin. split.
    + intros Hresult.
      destruct (first_within_found table phash) as [Hzero | (h & Hin' & Hlt)].
      * rewrite Hzero in Hresult. subst level.
        now destruct (proj1 (Hwf _ _ Hin)).
      * rewrite Hresult in Hin'.
        now rewrite (Hsame level level_hash h Hin Hin').
    + intros Hlt. apply (first_within_only table phash level level_hash Hin Hlt).
      intros level' hash' Hin' Hlt'.
      apply (Honly level' hash' level level_hash); assumption.
  - split.
    + intros Hzero level level_hash Hin.
      destruct (Z_lt_le_dec (hash_distance phash level_hash) 3) as [Hlt | Hge];
        [exfalso | exact Hge].
      assert (Heq : first_within table phash = level).
      { apply (first_within_only table phash level level_hash Hin Hlt).
        intros level' hash' Hin' Hlt'.
        apply (Honly level' hash' level level_hash); assumption. }
      rewrite Hzero in Heq. subst level. now destruct (proj1 (Hwf _ _ Hin)).
    + apply first_within_none.
Qed.

Lemma selected_level_table_well_formed :
  separated 5 selected_level_hash_map = true
  /\ List.NoDup (map fst selected_level_hash_map)
  /\ forall level level_hash,
       In (level, level_hash) selected_level_hash_map ->
       level <> 0 /\ 0 <= level_hash.
Proof.
  split; [vm_compute; reflexivity | ]. split.
  - unfold selected_level_hash_map. cbn [map fst].
    repeat (constructor; [cbn [In]; intuition discriminate | ]). constructor.
  - intros level level_hash Hin. unfold selected_level_hash_map in Hin.
    cbn [In] in Hin.
    repeat (destruct Hin as [Hin | Hin];
            [injection Hin as <- <-; split; [discriminate | apply Z.leb_le; vm_compute; reflexivity] | ]).
    destruct Hin.
Qed.

(** X18. The hashes of the level table of [read_selected_level_by_phash]
    are far enough apart for at most one of them to be at a distance below
    3 (2 or less) from any hash, so the order of the table plays no part:
    a level of the table is returned exactly when the region's hash is at
    a distance below 3 from that level's hash, and 0 exactly when it is at
    distance 3 or more from all of them. *)
Theorem X18_selected_level_unique (phash : Z) :
  0 <= phash ->
  (forall level level_hash,
     In (level, level_hash) selected_level_hash_map ->
     (read_selected_level_by_phash phash = level
      <-> hash_distance phash level_hash < 3))
  /\ (read_selected_level_by_phash phash = 0
      <-> forall level level_hash,
            In (level, level_hash) selected_level_hash_map ->
            3 <= hash_distance phash level_hash).
Proof.
  intros Hphash.
  destruct selected_level_table_well_formed as (Hsep & Hnodup & Hwf).
  exact (first_within_separated selected_level_hash_map phash Hsep Hnodup Hwf
           Hphash).
Qed.

(** The hash of the level-15 entry with its lowest bit flipped, taken
    through [X18_selected_level_unique]: it reads as 15. *)
Lemma X18_selected_level_unique_witness :
  read_selected_level_by_phash 0xe87c8d02d369c696 = 15.
Proof.
  apply (proj1 (X18_selected_level_unique 0xe87c8d02d369c696
                  ltac:(apply Z.leb_le; vm_compute; reflexivity))
           15 0xe87c8d02d369c697).
  - unfold selected_level_hash_map. cbn [In]. auto.
  - apply Z.ltb_lt. vm_compute. reflexivity.
Defined.

(** ** The rating read from a result screen *)

Lemma existsb_is_dot_digits (digits : list digit) :
  existsb is_dot (map Digit digits) = false.
Proof. induction digits as [ | d digits IH]; cbn; auto. Qed.

Lemma digits_of_digits (digits : list digit) :
  digits_of (map Digit digits) = Some digits.
Proof.
  induction digits as [ | d digits IH]; cbn [map digits_of]; [reflexivity | ].
  now rewrite IH.
Qed.

Lemma digits_of_dot (before after : list patch_char) :
  digits_of (before ++ Dot :: after) = None.
Proof.
  induction before as [ | [d | ] before IH]; cbn [app digits_of];
    [reflexivity | | reflexivity].
  now rewrite IH.
Qed.

Lemma split_at_dot_digits (digits : list digit) :
  split_at_dot (map Digit digits) = (map Digit digits, None).
Proof.
  induction digits as [ | d digits IH]; cbn [map split_at_dot]; [reflexivity | ].
  now rewrite IH.
Qed.

Lemma split_at_dot_point (whole : list digit) (rest : list patch_char) :
  split_at_dot (map Digit whole ++ Dot :: rest) = (map Digit whole, Some rest).
Proof.
  induction whole as [ | d whole IH]; cbn [map app split_at_dot]; [reflexivity | ].
  now rewrite IH.
Qed.

Lemma split_at_dot_two_points (a b c : list patch_char) :
  exists before after,
    split_at_dot (a ++ Dot :: b ++ Dot :: c) = (before, Some after)
    /\ digits_of after = None.
Proof.
  induction a as [ | [d | ] a IH]; cbn [app split_at_dot].
  - exists [], (b ++ Dot :: c). split; [reflexivity | apply digits_of_dot].
  - destruct IH as (before & after & -> & Hafter).
    exists (Digit d :: before), after. auto.
  - exists [], (a ++ Dot :: b ++ Dot :: c). split; [reflexivity | ].
    apply digits_of_dot.
Qed.

Lemma float_of_text_point (whole frac : list digit) :
  (0 < length whole + length frac)%nat ->
  float_of_text (map Digit whole ++ Dot :: map Digit frac)
  = Some (float_lit (digits_value (whole ++ frac)) (Z.of_nat (length frac))).
Proof.
  intros Hlen. unfold float_of_text.
  rewrite split_at_dot_point, !digits_of_digits.
  destruct whole as [ | d whole], frac as [ | d' frac]; try reflexivity.
  cbn in Hlen. lia.
Qed.

(** X19. The rating text of a result screen, read under the whitelist of
    digits and the point: a text of three or more digits without a point
    is read with the point before its last two digits, so 42777 is
    427.77; one or two digits are read as the integer they spell; a text
    with one point is the decimal it spells; and the empty text or a text
    with two points gives 0.0. No text makes the reader raise. *)
Theorem X19_get_ocr_patch_point_repair :
  (forall digits, (3 <= length digits)%nat ->
     get_ocr_patch (map Digit digits) = float_lit (digits_value digits) 2)
  /\ (forall digits, (0 < length digits < 3)%nat ->
        get_ocr_patch (map Digit digits) = float_lit (digits_value digits) 0)
  /\ (forall whole frac, (0 < length whole + length frac)%nat ->
        get_ocr_patch (map Digit whole ++ Dot :: map Digit frac)
        = float_lit (digits_value (whole ++ frac)) (Z.of_nat (length frac)))
  /\ (forall a b c, get_ocr_patch (a ++ Dot :: b ++ Dot :: c) = f0)
  /\ get_ocr_patch [] = f0
  /\ get_ocr_patch [Dot] = f0.
Proof.
  split; [ | split; [ | split; [ | split; [ | split; reflexivity]]]].
  - intros digits Hlen. unfold get_ocr_patch.
    rewrite existsb_is_dot_digits, length_map. cbn [negb andb].
    destruct (Nat.leb_spec 3 (length digits)) as [_ | Hlt]; [ | lia].
    rewrite firstn_map, skipn_map. cbn [app].
    rewrite float_of_text_point.
    + rewrite firstn_skipn, length_skipn.
      replace (Z.of_nat (length digits - (length digits - 2))) with 2 by lia.
      reflexivity.
    + rewrite length_skipn. lia.
  - intros digits Hlen. unfold get_ocr_patch.
    rewrite existsb_is_dot_digits, length_map. cbn [negb andb].
    destruct (Nat.leb_spec 3 (length digits)) as [Hge | _]; [lia | ].
    unfold float_of_text. rewrite split_at_dot_digits, digits_of_digits.
    destruct digits as [ | d digits]; [cbn in Hlen; lia | reflexivity].
  - intros whole frac Hlen. unfold get_ocr_patch.
    assert (Hdot : existsb is_dot (map Digit whole ++ Dot :: map Digit frac) = true).
    { rewrite existsb_app. cbn. now rewrite orb_true_r. }
    rewrite Hdot. cbn [negb andb]. now rewrite float_of_text_point.
  - intros a b c. unfold get_ocr_patch.
    assert (Hdot : existsb is_dot (a ++ Dot :: b ++ Dot :: c) = true).
    { rewrite existsb_app. cbn. now rewrite orb_true_r. }
    rewrite Hdot. cbn [negb andb]. unfold float_of_text.
    destruct (split_at_dot_two_points a b c) as (before & after & -> & ->).
    now destruct (digits_of before) as [[ | d ds] | ].
Qed.

(** The text 42777, taken through [X19_get_ocr_patch_point_repair]: it is
    read as 427.77. *)
Lemma X19_get_ocr_patch_point_repair_witness :
  get_ocr_patch [Digit D4; Digit D2; Digit D7; Digit D7; Digit D7]
  = float_lit 42777 2.
Proof.
  apply (proj1 X19_get_ocr_patch_point_repair [D4; D2; D7; D7; D7]).
  cbn. lia.
Defined.

(** ** Region scaling *)

Lemma all_upto_spec (n : Z) (f : Z -> bool) :
  all_upto n f = true -> forall z, 0 <= z <= n -> f z = true.
Proof.
  unfold all_upto. rewrite forallb_forall. intros Hall z Hz.
  rewrite <- (Z2Nat.id z) by lia. apply Hall. apply in_seq. lia.
Qed.

Lemma scale_ok_spec (ref user coord : Z) :
  scale_ok ref user coord = true ->
  exists abs,
    scale_axis ref user coord = Return abs /\ nearest_pixel ref user coord abs.
Proof.
  unfold scale_ok, nearest_pixel.
  destruct (scale_axis ref user coord) as [abs | e]; [ | discriminate].
  intros H. apply Z.leb_le in H. eauto.
Qed.

Lemma scale_axis_parts (ref user coord abs : Z) :
  scale_axis ref user coord = Return abs ->
  exists ratio length,
    int_truediv coord ref = Return ratio
    /\ float_of_int user = Return length
    /\ py_round_int (SF64mul length ratio) = Return abs.
Proof.
  unfold scale_axis.
  destruct (int_truediv coord ref) as [ratio | ]; [ | discriminate].
  destruct (float_of_int user) as [length | ]; [ | discriminate].
  cbn [rbind]. eauto.
Qed.

(** [_get_abs_coords] is [scale_axis] on each of the four coordinates. *)
Lemma _get_abs_coords_axes (c0 c1 c2 c3 user_width user_height a0 a1 a2 a3 : Z) :
  scale_axis REF_W user_width c0 = Return a0 ->
  scale_axis REF_H user_height c1 = Return a1 ->
  scale_axis REF_W user_width c2 = Return a2 ->
  scale_axis REF_H user_height c3 = Return a3 ->
  _get_abs_coords (c0, c1, c2, c3) (user_width, user_height)
  = Return (a0, a1, a2, a3).
Proof.
  intros H0 H1 H2 H3.
  apply scale_axis_parts in H0 as (r0 & w & Hr0 & Hw & Ha0).
  apply scale_axis_parts in H1 as (r1 & h & Hr1 & Hh & Ha1).
  apply scale_axis_parts in H2 as (r2 & w' & Hr2 & Hw' & Ha2).
  apply scale_axis_parts in H3 as (r3 & h' & Hr3 & Hh' & Ha3).
  rewrite Hw in Hw'. injection Hw' as <-.
  rewrite Hh in Hh'. injection Hh' as <-.
  unfold _get_abs_coords, _ratio, _scale_coordinate.
  rewrite Hr0, Hr1, Hr2, Hr3. cbn [rbind fst snd].
  rewrite Hw, Hh. cbn [rbind].
  rewrite Ha0, Ha1, Ha2, Ha3. reflexivity.
Qed.

Lemma standard_sizes_checked :
  forallb
    (fun size =>
       all_upto 1920 (scale_ok REF_W (fst size))
       && all_upto 1134 (scale_ok REF_H (snd size)))
    standard_sizes
  = true.
Proof. vm_compute. reflexivity. Qed.

Lemma standard_sizes_axes (size : Z * Z) (x y : Z) :
  In size standard_sizes -> 0 <= x <= 1920 -> 0 <= y <= 1134 ->
  exists abs_x abs_y,
    scale_axis REF_W (fst size) x = Return abs_x
    /\ scale_axis REF_H (snd size) y = Return abs_y
    /\ nearest_pixel REF_W (fst size) x abs_x
    /\ nearest_pixel REF_H (snd size) y abs_y.
Proof.
  intros Hsize Hx Hy.
  pose proof standard_sizes_checked as Hall.
  rewrite forallb_forall in Hall. specialize (Hall size Hsize).
  apply andb_true_iff in Hall as [Hxs Hys].
  destruct (scale_ok_spec _ _ _ (all_upto_spec _ _ Hxs x ltac:(lia)))
    as (abs_x & Hax & Hnx).
  destruct (scale_ok_spec _ _ _ (all_upto_spec _ _ Hys y ltac:(lia)))
    as (abs_y & Hay & Hny).
  eauto 10.
Qed.

(** Nearest pixels of two different coordinates are in the order of the
    coordinates, as soon as the screenshot is more than half as long as
    the reference frame. *)
Lemma nearest_pixel_ordered (ref user x1 x2 a1 a2 : Z) :
  0 < ref -> ref < 2 * user -> x1 < x2 ->
  nearest_pixel ref user x1 a1 -> nearest_pixel ref user x2 a2 ->
  a1 <= a2.
Proof.
  unfold nearest_pixel. intros Href Huser Hlt H1 H2.
  assert (Hstep : (x1 + 1) * user <= x2 * user)
    by (apply Z.mul_le_mono_nonneg_r; lia).
  destruct (Z_le_gt_dec a1 a2) as [Hle | Hgt]; [exact Hle | exfalso].
  assert (Hgap : ref * (a2 + 1) <= ref * a1)
    by (apply Z.mul_le_mono_nonneg_l; lia).
  lia.
Qed.

(** On a screenshot as long as the reference frame the nearest pixel is
    the coordinate itself. *)
Lemma nearest_pixel_same (ref x a : Z) :
  0 < ref -> nearest_pixel ref ref x a -> a = x.
Proof.
  unfold nearest_pixel. intros Href H.
  destruct (Z.lt_total a x) as [Hlt | [Heq | Hgt]]; [exfalso | exact Heq | exfalso].
  - assert (ref * (a + 1) <= ref * x) by (apply Z.mul_le_mono_nonneg_l; lia).
    lia.
  - assert (ref * (x + 1) <= ref * a) by (apply Z.mul_le_mono_nonneg_l; lia).
    lia.
Qed.

(** X20. On a screenshot of one of the six listed 16:9 sizes, every box
    of the reference frame (x from 0 to 1920, y from 0 to 1134, which
    covers the level box under the lowest arrow row) is scaled without an
    exception, each corner coordinate to a pixel nearest to its exact
    position; so the corners keep their order, and at 1920x1080 the box is
    returned as configured. *)
Theorem X20_regions_scale_to_nearest_pixel (size : Z * Z) (x1 y1 x2 y2 : Z) :
  In size standard_sizes ->
  0 <= x1 <= 1920 -> 0 <= y1 <= 1134 ->
  0 <= x2 <= 1920 -> 0 <= y2 <= 1134 ->
  exists a1 b1 a2 b2,
    _get_abs_coords (x1, y1, x2, y2) size = Return (a1, b1, a2, b2)
    /\ nearest_pixel REF_W (fst size) x1 a1
    /\ nearest_pixel REF_H (snd size) y1 b1
    /\ nearest_pixel REF_W (fst size) x2 a2
    /\ nearest_pixel REF_H (snd size) y2 b2
    /\ (x1 <= x2 -> a1 <= a2)
    /\ (y1 <= y2 -> b1 <= b2)
    /\ (size = (REF_W, REF_H) -> (a1, b1, a2, b2) = (x1, y1, x2, y2)).
Proof.
  intros Hsize Hx1 Hy1 Hx2 Hy2.
  destruct (standard_sizes_axes size x1 y1 Hsize Hx1 Hy1)
    as (a1 & b1 & Ha1 & Hb1 & Hna1 & Hnb1).
  destruct (standard_sizes_axes size x2 y2 Hsize Hx2 Hy2)
    as (a2 & b2 & Ha2 & Hb2 & Hna2 & Hnb2).
  exists a1, b1, a2, b2.
  assert (Hbig : 1280 <= fst size /\ 720 <= snd size).
  { unfold standard_sizes in Hsize. cbn [In] in Hsize.
    repeat (destruct Hsize as [<- | Hsize]; [cbn; lia | ]). destruct Hsize. }
  destruct size as [user_width user_height]. cbn [fst snd] in *.
  split; [apply _get_abs_coords_axes; assumption | ].
  do 4 (split; [assumption | ]).
  split; [ | split].
  - intros Hle. destruct (Z.eq_dec x1 x2) as [-> | Hne].
    + rewrite Ha1 in Ha2. injection Ha2 as <-. lia.
    + apply (nearest_pixel_ordered REF_W user_width x1 x2 a1 a2);
        unfold REF_W; auto; lia.
  - intros Hle. destruct (Z.eq_dec y1 y2) as [-> | Hne].
    + rewrite Hb1 in Hb2. injection Hb2 as <-. lia.
    + apply (nearest_pixel_ordered REF_H user_height y1 y2 b1 b2);
        unfold REF_H; auto; lia.
  - intros Heq. injection Heq as -> ->.
    rewrite (nearest_pixel_same REF_W x1 a1), (nearest_pixel_same REF_H y1 b1),
      (nearest_pixel_same REF_W x2 a2), (nearest_pixel_same REF_H y2 b2);
      unfold REF_W, REF_H; auto; lia.
Qed.

(** The jacket box of the result screen on a 1280x720 screenshot, taken
    through [X20_regions_scale_to_nearest_pixel]. *)
Lemma X20_regions_scale_to_nearest_pixel_witness :
  exists a1 b1 a2 b2,
    _get_abs_coords (122, 193, 522, 593) (1280, 720) = Return (a1, b1, a2, b2)
    /\ nearest_pixel REF_W 1280 122 a1
    /\ nearest_pixel REF_H 720 193 b1
    /\ nearest_pixel REF_W 1280 522 a2
    /\ nearest_pixel REF_H 720 593 b2
    /\ (122 <= 522 -> a1 <= a2)
    /\ (193 <= 593 -> b1 <= b2)
    /\ ((1280, 720) = (REF_W, REF_H) -> (a1, b1, a2, b2) = (122, 193, 522, 593)).
Proof.
  apply (X20_regions_scale_to_nearest_pixel (1280, 720) 122 193 522 593).
  - unfold standard_sizes. cbn [In]. auto.
  - lia.
  - lia.
  - lia.
  - lia.
Defined.

(** ** The song feed *)

Section DictFind.

Context {V : Type}.

Lemma dict_find_set (d : list (Z * V)) (k : Z) (v : V) (k' : Z) :
  dict_find (dict_set d k v) k' = if k' =? k then Some v else dict_find d k'.
Proof.
  induction d as [ | [k0 v0] d IH]; cbn [dict_set dict_find]; [reflexivity | ].
  destruct (Z.eqb_spec k k0) as [-> | Hne]; cbn [dict_find].
  - now destruct (k' =? k0).
  - rewrite IH. destruct (Z.eqb_spec k' k0) as [-> | Hne']; [ | reflexivity].
    destruct (Z.eqb_spec k0 k); [congruence | reflexivity].
Qed.

Lemma dict_find_In (d : list (Z * V)) (k : Z) (v : V) :
  List.NoDup (map fst d) -> (In (k, v) d <-> dict_find d k = Some v).
Proof.
  induction d as [ | [k0 v0] d IH]; cbn [map fst dict_find In]; intros Hd.
  - split; [intros [] | discriminate].
  - inversion Hd as [ | ? ? Hnotin Hrest]; subst.
    destruct (Z.eqb_spec k k0) as [-> | Hne].
    + split.
      * intros [H | H]; [now injection H as -> | ].
        exfalso. apply Hnotin. apply in_map_iff. now exists (k0, v).
      * intros H. injection H as ->. now left.
    + rewrite <- (IH Hrest). split; [ | auto].
      intros [H | H]; [injection H as -> ->; now contradiction Hne | exact H].
Qed.

End DictFind.

Lemma link_pattern_keys (songs : list (Z * Song)) (id : Z) (pattern : Pattern) :
  map fst (link_pattern songs id pattern) = map fst songs.
Proof.
  induction songs as [ | [k song] songs IH]; cbn [link_pattern map fst];
    [reflexivity | ].
  destruct (id =? k); cbn [map fst]; [reflexivity | now rewrite IH].
Qed.

Lemma link_pattern_find (songs : list (Z * Song)) (id : Z) (pattern : Pattern)
    (k : Z) :
  dict_find (link_pattern songs id pattern) k
  = if k =? id then option_map (fun song => add_pattern song pattern)
                      (dict_find songs k)
    else dict_find songs k.
Proof.
  induction songs as [ | [k0 song] songs IH]; cbn [link_pattern dict_find].
  - now destruct (k =? id).
  - destruct (Z.eqb_spec id k0) as [Heq | Hne]; cbn [dict_find].
    + subst id. destruct (k =? k0); reflexivity.
    + rewrite IH. destruct (Z.eqb_spec k k0) as [Heq | Hne']; [ | reflexivity].
      subst k. destruct (Z.eqb_spec k0 id); [congruence | reflexivity].
Qed.

Lemma with_patterns_nil (song : Song) : with_patterns song [] = song.
Proof. destruct song. unfold with_patterns. cbn. now rewrite app_nil_r. Qed.

Lemma add_pattern_with_patterns (song : Song) (patterns : list Pattern)
    (pattern : Pattern) :
  add_pattern (with_patterns song patterns) pattern
  = with_patterns song (patterns ++ [pattern]).
Proof. unfold add_pattern, with_patterns. cbn. now rewrite app_assoc. Qed.

(** The second loop of [fetch_songs]: every song gets the patterns that
    name it, in feed order; the keys stay. *)
Lemma link_patterns_spec (patterns_json : list PatternData)
    (songs : list (Z * Song)) :
  let linked :=
    fold_left
      (fun songs pattern_data =>
         link_pattern songs (data_pattern_song_id pattern_data)
           (pattern_of pattern_data))
      patterns_json songs in
  map fst linked = map fst songs
  /\ forall k,
       dict_find linked k
       = option_map (fun song => with_patterns song (patterns_for patterns_json k))
           (dict_find songs k).
Proof.
  cbv zeta. induction patterns_json as [ | p patterns_json IH] using rev_ind.
  - cbn [fold_left]. split; [reflexivity | ]. intros k.
    unfold patterns_for. cbn.
    destruct (dict_find songs k) as [song | ]; cbn [option_map]; [ | reflexivity].
    now rewrite with_patterns_nil.
  - rewrite fold_left_app. cbn [fold_left]. destruct IH as [Hkeys Hfind].
    split; [now rewrite link_pattern_keys | ].
    intros k. rewrite link_pattern_find, Hfind.
    unfold patterns_for. rewrite filter_app, map_app.
    destruct (Z.eqb_spec k (data_pattern_song_id p)) as [-> | Hne].
    + rewrite filter_cons_True, filter_nil by reflexivity.
      destruct (dict_find songs _) as [song | ]; cbn [option_map map];
        [ | reflexivity].
      now rewrite add_pattern_with_patterns.
    + rewrite filter_cons_False, filter_nil by congruence. cbn [map].
      now rewrite app_nil_r.
Qed.

(** The first loop of [fetch_songs]: the dictionary holds, for every id,
    the song of the last feed entry with that id. *)
Lemma songs_dict_spec (strip : string -> string) (songs_json : list SongData) :
  let songs :=
    fold_left
      (fun songs song_data =>
         let song := song_of strip song_data in dict_set songs (song_id song) song)
      songs_json [] in
  List.NoDup (map fst songs)
  /\ forall k,
       dict_find songs k
       = option_map (song_of strip)
           (last (filter (fun d => data_song_id d = k) songs_json)).
Proof.
  cbv zeta. induction songs_json as [ | d songs_json IH] using rev_ind.
  - cbn. split; [constructor | reflexivity].
  - rewrite fold_left_app. cbn [fold_left]. destruct IH as [Hkeys Hfind].
    split; [now apply dict_set_NoDup | ].
    intros k. rewrite dict_find_set, Hfind, filter_app.
    cbn [song_of song_id].
    destruct (Z.eqb_spec k (data_song_id d)) as [-> | Hne].
    + rewrite filter_cons_True, filter_nil by reflexivity.
      now rewrite last_snoc.
    + rewrite filter_cons_False, filter_nil by congruence.
      now rewrite app_nil_r.
Qed.

Lemma fetch_songs_spec (strip : string -> string) (songs_json : list SongData)
    (patterns_json : list PatternData) :
  exists songs : list (Z * Song),
    fetch_songs strip songs_json patterns_json = map snd songs
    /\ List.NoDup (map fst songs)
    /\ forall k,
         dict_find songs k
         = option_map
             (fun d => with_patterns (song_of strip d) (patterns_for patterns_json k))
             (last (filter (fun d => data_song_id d = k) songs_json)).
Proof.
  unfold fetch_songs.
  destruct (songs_dict_spec strip songs_json) as [Hkeys Hfind].
  match goal with
  | |- context [fold_left ?f patterns_json ?songs] =>
      destruct (link_patterns_spec patterns_json songs) as [Hkeys' Hfind'];
      exists (fold_left f patterns_json songs)
  end.
  split; [reflexivity | ]. split; [now rewrite Hkeys' | ].
  intros k. rewrite Hfind', Hfind.
  now destruct (last _).
Qed.

(** X21. [fetch_songs] returns one song for every id of the song feed,
    built from the last feed entry with that id, and nothing else; the
    patterns of a returned song are exactly the entries of the pattern
    feed that name its id, in feed order, and a pattern that names no
    listed song is dropped. *)
Theorem X21_fetch_songs_links_patterns (strip : string -> string)
    (songs_json : list SongData)
    (patterns_json : list PatternData) :
  List.NoDup (map song_id (fetch_songs strip songs_json patterns_json))
  /\ forall song,
       In song (fetch_songs strip songs_json patterns_json)
       <-> exists song_data,
             last (filter (fun d => data_song_id d = song_id song) songs_json)
             = Some song_data
             /\ song = with_patterns (song_of strip song_data)
                         (patterns_for patterns_json (song_id song)).
Proof.
  destruct (fetch_songs_spec strip songs_json patterns_json)
    as (songs & -> & Hkeys & Hfind).
  assert (Hid : forall k song, In (k, song) songs -> song_id song = k).
  { intros k song Hin. apply (dict_find_In songs k song Hkeys) in Hin.
    rewrite Hfind in Hin.
    destruct (last (filter (fun d => data_song_id d = k) songs_json))
      as [d | ] eqn:Elast; [ | discriminate].
    injection Hin as <-. cbn [with_patterns song_of song_id].
    apply last_Some in Elast as [l' Hl'].
    assert (Hel : d ∈ filter (fun d => data_song_id d = k) songs_json).
    { rewrite Hl'. apply elem_of_app. right. now apply list_elem_of_singleton. }
    now apply list_elem_of_filter in Hel as [Hk _]. }
  assert (Hmap : map song_id (map snd songs) = map fst songs).
  { rewrite map_map. apply map_ext_in. intros [k song] Hin. cbn [fst snd].
    now apply Hid. }
  split; [now rewrite Hmap | ].
  intros song. rewrite in_map_iff. split.
  - intros ([k song'] & Heq & Hin). cbn [snd] in Heq. subst song'.
    pose proof (Hid k song Hin) as Hk. subst k.
    apply (dict_find_In songs _ song Hkeys) in Hin. rewrite Hfind in Hin.
    destruct (last _) as [d | ]; [ | discriminate].
    injection Hin as Heq. eauto.
  - intros (d & Hlast & Heq).
    exists (song_id song, song). split; [reflexivity | ].
    apply (dict_find_In songs _ song Hkeys). rewrite Hfind, Hlast.
    cbn [option_map]. now rewrite <- Heq.
Qed.

(** ** Archive reconciler: the update branch *)

(** The update branch either returns, having posted the report and stored
    the updated record, or raises before either. *)
Lemma log_higher_score_effect (report : AnalysisReport)
    (existing : DecodeResult) (update_time : Z) (st : ClientState) :
  let out := log_higher_score_and_report report existing update_time st in
  (fst out = Return tt
   /\ archive (snd out)
      = <[report_key report :=
            updated_record report
              (default (placeholder report update_time)
                 (archive st !! report_key report))
              update_time]> (archive st)
   /\ outbox (snd out) = outbox st ++ [report_json report])
  \/ ((exists e, fst out = Raise e)
      /\ archive (snd out) = archive st
      /\ outbox (snd out) = outbox st).
Proof.
  unfold log_higher_score_and_report, report_key, updated_record.
  unfold bind, log_message, lift, post_update, archive_get, archive_store, ret.
  cbn [fst snd archive log outbox].
  destruct (py_round (SF64sub (report_judge report) (decode_judge existing)) 4)
    as [djudge | e1]; cbn [fst snd archive log outbox]; [ | right; eauto].
  destruct (py_round (SF64sub (report_patch report) (decode_patch existing)) 2)
    as [dpatch | e2]; cbn [fst snd archive log outbox]; [ | right; eauto].
  destruct (report_is_perfect_decode report
            && negb (report_total_notes report =? 0)
            && negb (report_is_maximum_patch report));
    cbn [fst snd archive log outbox]; [ | left; auto].
  destruct (float_of_int (report_total_notes report)) as [total | e3];
    cbn [rbind fst snd archive log outbox]; [ | right; eauto].
  destruct (py_ceil (SF64mul total (float_lit 98 2))) as [n | e4];
    cbn [fst snd archive log outbox]; [left; auto | right; eauto].
Qed.

Lemma SFcompare_refl (x : spec_float) :
  SFcompare x x = None \/ SFcompare x x = Some Eq.
Proof.
  destruct x as [s | s | | s m e]; cbn; auto.
  - destruct s; auto.
  - rewrite Z.compare_refl.
    change (Pos.compare_cont Eq m m) with (Pos.compare m m).
    rewrite Pos.compare_refl. destruct s; auto.
Qed.

Lemma SFltb_irrefl (x : spec_float) : SFltb x x = false.
Proof.
  unfold SFltb. now destruct (SFcompare_refl x) as [-> | ->].
Qed.

Lemma SFltb_SFleb (x y : spec_float) : SFltb x y = true -> SFleb x y = true.
Proof.
  unfold SFltb, SFleb. now destruct (SFcompare x y) as [[ | | ] | ].
Qed.

Lemma SFeqb_eq_compare (x y : spec_float) :
  SFeqb x y = true -> SFcompare y x = Some Eq.
Proof.
  unfold SFeqb.
  destruct x as [s1 | s1 | | s1 m1 e1], y as [s2 | s2 | | s2 m2 e2];
    cbn; try discriminate; try reflexivity;
    try (destruct s1; discriminate); try (destruct s2; discriminate).
  - destruct s1, s2; try discriminate; reflexivity.
  - rewrite (Z.compare_antisym e1 e2).
    change (Pos.compare_cont Eq m2 m1) with (Pos.compare m2 m1).
    change (Pos.compare_cont Eq m1 m2) with (Pos.compare m1 m2).
    rewrite (Pos.compare_antisym m1 m2).
    destruct s1, s2; try discriminate;
      destruct (e1 ?= e2); cbn; try discriminate;
      destruct (m1 ?= m2)%positive; cbn; try discriminate; reflexivity.
Qed.

Lemma feq_fge (x y : pyfloat) : feq x y = true -> fge x y = true.
Proof.
  intros H. apply SFeqb_eq_compare in H. unfold fge, SFleb. now rewrite H.
Qed.

Lemma wins_fge (report : AnalysisReport) (existing : DecodeResult) :
  wins report existing = true ->
  fge (report_judge report) (decode_judge existing) = true.
Proof.
  unfold wins. rewrite !orb_true_iff, !andb_true_iff.
  intros [[H | [H _]] | [[[H _] _] _]].
  - now apply SFltb_SFleb.
  - now apply feq_fge.
  - now apply feq_fge.
Qed.

(** A report does not win against the record stored for it. *)
Lemma wins_updated_record (report : AnalysisReport) (found : DecodeResult)
    (update_time : Z) :
  wins report (updated_record report found update_time) = false.
Proof.
  unfold wins, updated_record, fgt, feq.
  cbn [decode_judge decode_score decode_is_full_combo].
  rewrite SFltb_irrefl, Z.gtb_ltb, Z.ltb_irrefl.
  destruct (SFeqb _ _), (report_is_full_combo report);
    cbn; rewrite ?andb_false_r; reflexivity.
Qed.

(** Whether a report wins does not depend on the clock reading of the
    placeholder. *)
Lemma wins_best_record_clock (report : AnalysisReport) (t1 t2 : Z)
    (st : ClientState) :
  wins report (best_record report t1 st) = wins report (best_record report t2 st).
Proof.
  unfold best_record.
  now destruct (archive st !! _).
Qed.

Lemma after_analysis_log_frame (report : AnalysisReport) (st : ClientState) :
  archive (after_analysis_log report st) = archive st
  /\ outbox (after_analysis_log report st) = outbox st.
Proof.
  unfold after_analysis_log.
  destruct (log_analysis_frame report st) as (_ & Ha & Ho). auto.
Qed.

(** What [update_display] does to the archive and the outbox. *)
Lemma update_display_effect (report : AnalysisReport)
    (utc_now update_time : Z) (st : ClientState) :
  let out := update_display report utc_now update_time st in
  (wins report (best_record report utc_now st) = true
   /\ fst out = Return tt
   /\ archive (snd out)
      = <[report_key report :=
            updated_record report (best_record report update_time st)
              update_time]> (archive st)
   /\ outbox (snd out) = outbox st ++ [report_json report])
  \/ ((wins report (best_record report utc_now st) = false
       \/ exists e, fst out = Raise e)
      /\ archive (snd out) = archive st
      /\ outbox (snd out) = outbox st).
Proof.
  cbv zeta. rewrite update_display_run.
  destruct (after_analysis_log_frame report st) as [Ha Ho].
  destruct (wins report (best_record report utc_now st)) eqn:Ewins.
  - destruct (log_higher_score_effect report (best_record report utc_now st)
                update_time (after_analysis_log report st))
      as [(Hret & Harchive & Houtbox) | (Hraise & Harchive & Houtbox)].
    + left. rewrite Hret, Harchive, Houtbox, Ha, Ho. auto.
    + right. rewrite Harchive, Houtbox, Ha, Ho. auto.
  - right. rewrite log_not_better_run. cbn [fst snd archive outbox]. auto.
Qed.

(** X22. The sync request and the stored record go together: when
    [update_display] returns on a winning report it has posted exactly one
    request, the report's, and stored under the report's key the record
    found there (or the placeholder) with the report's accuracy, score,
    rating and flags; in every other case, an exception raised on the way
    included, the archive and the outbox are as before. *)
Theorem X22_post_and_store_together (report : AnalysisReport)
    (utc_now update_time : Z) (st : ClientState) :
  let out := update_display report utc_now update_time st in
  (wins report (best_record report utc_now st) = true
   /\ fst out = Return tt
   /\ archive (snd out)
      = <[report_key report :=
            updated_record report (best_record report update_time st)
              update_time]> (archive st)
   /\ outbox (snd out) = outbox st ++ [report_json report])
  \/ ((wins report (best_record report utc_now st) = false
       \/ exists e, fst out = Raise e)
      /\ archive (snd out) = archive st
      /\ outbox (snd out) = outbox st).
Proof. exact (update_display_effect report utc_now update_time st). Qed.

(** X23. Submitting the same report again changes nothing: once
    [update_display] has returned, the report no longer wins against the
    record stored for it, at whatever time it is submitted, and a second
    run posts no request and leaves the archive as the first run left
    it. *)
Theorem X23_resubmission_is_idle (report : AnalysisReport)
    (t1 t2 t3 t4 : Z) (st : ClientState) :
  fst (update_display report t1 t2 st) = Return tt ->
  let st1 := snd (update_display report t1 t2 st) in
  wins report (best_record report t3 st1) = false
  /\ archive (snd (update_display report t3 t4 st1)) = archive st1
  /\ outbox (snd (update_display report t3 t4 st1)) = outbox st1.
Proof.
  intros Hret st1.
  assert (Hidle : wins report (best_record report t3 st1) = false).
  { subst st1.
    destruct (update_display_effect report t1 t2 st)
      as [(Hwins & _ & Harchive & _) | ([Hwins | [e He]] & Harchive & _)].
    - unfold best_record at 1. fold (report_key report). rewrite Harchive.
      rewrite lookup_insert_eq. cbn [default].
      apply wins_updated_record.
    - rewrite <- Hwins. unfold best_record at 1. rewrite Harchive.
      apply (wins_best_record_clock report t3 t1 st).
    - rewrite Hret in He. discriminate. }
  split; [exact Hidle | ].
  destruct (update_display_effect report t3 t4 st1)
    as [(Hwins & _) | (_ & Harchive & Houtbox)]; [ | auto].
  rewrite Hidle in Hwins. discriminate.
Qed.

(** [Sample.full_combo_report], submitted twice to the client that holds
    [Sample.stored_best], taken through [X23_resubmission_is_idle]. *)
Lemma X23_resubmission_is_idle_witness :
  let st1 :=
    snd (update_display Sample.full_combo_report 1000 1001
           Sample.client_with_best) in
  wins Sample.full_combo_report (best_record Sample.full_combo_report 2000 st1)
  = false
  /\ archive (snd (update_display Sample.full_combo_report 2000 2001 st1))
     = archive st1
  /\ outbox (snd (update_display Sample.full_combo_report 2000 2001 st1))
     = outbox st1.
Proof.
  apply (X23_resubmission_is_idle Sample.full_combo_report 1000 1001 2000 2001
           Sample.client_with_best).
  vm_compute. reflexivity.
Defined.

(** ** Archive reconciler: the archive as a whole *)

Lemma key_of_updated_record (report : AnalysisReport) (found : DecodeResult)
    (update_time : Z) :
  key_of (updated_record report found update_time) = key_of found.
Proof. reflexivity. Qed.

Lemma key_of_placeholder (report : AnalysisReport) (now : Z) :
  key_of (placeholder report now) = report_key report.
Proof. reflexivity. Qed.

Lemma best_record_stored (report : AnalysisReport) (now : Z) (st : ClientState)
    (record : DecodeResult) :
  archive st !! report_key report = Some record ->
  best_record report now st = record.
Proof.
  intros H. unfold best_record. fold (report_key report). now rewrite H.
Qed.

(** X24. Whatever the report and the outcome, [update_display] touches at
    most the record under the report's key; a record that was stored is
    still stored under its key afterwards, for the same chart, and it is
    either the same record or one whose accuracy is at least the old one;
    and if every record was stored under the key of its own chart, that is
    still so. *)
Theorem X24_archive_never_regresses (report : AnalysisReport)
    (utc_now update_time : Z) (st : ClientState) :
  let st' := snd (update_display report utc_now update_time st) in
  (forall key, key <> report_key report ->
     archive st' !! key = archive st !! key)
  /\ (forall key record,
        archive st !! key = Some record ->
        exists record',
          archive st' !! key = Some record'
          /\ key_of record' = key_of record
          /\ (record' = record
              \/ fge (decode_judge record') (decode_judge record) = true))
  /\ (keyed (archive st) -> keyed (archive st')).
Proof.
  cbv zeta.
  destruct (update_display_effect report utc_now update_time st)
    as [(Hwins & _ & Harchive & _) | (_ & Harchive & _)];
    rewrite Harchive; clear Harchive.
  - split; [ | split].
    + intros key Hne. now rewrite lookup_insert_ne.
    + intros key record Hstored.
      destruct (decide (key = report_key report)) as [-> | Hne].
      * rewrite lookup_insert_eq. eexists. split; [reflexivity | ].
        rewrite (best_record_stored report update_time st record Hstored).
        rewrite (best_record_stored report utc_now st record Hstored) in Hwins.
        split; [reflexivity | right].
        now apply wins_fge.
      * rewrite lookup_insert_ne by congruence. eauto.
    + intros Hkeyed key record.
      destruct (decide (key = report_key report)) as [-> | Hne].
      * rewrite lookup_insert_eq. intros H. injection H as <-.
        rewrite key_of_updated_record. unfold best_record.
        fold (report_key report).
        destruct (archive st !! report_key report) as [found | ] eqn:E;
          cbn [default]; [now apply Hkeyed | reflexivity].
      * rewrite lookup_insert_ne by congruence. apply Hkeyed.
  - split; [ | split]; eauto.
Qed.

(** ** The archive as fetched *)

Lemma fetch_archive_app (entries : list DecodeResult) (arc : DecodeResult) :
  fetch_archive (entries ++ [arc])
  = <[key_of arc := arc]> (fetch_archive entries).
Proof. unfold fetch_archive. now rewrite fold_left_app. Qed.

Lemma fetch_archive_lookup (archive_json : list DecodeResult) (key : string) :
  fetch_archive archive_json !! key
  = last (filter (fun arc => key_of arc = key) archive_json).
Proof.
  induction archive_json as [ | arc entries IH] using rev_ind.
  - reflexivity.
  - rewrite fetch_archive_app, filter_app.
    destruct (decide (key_of arc = key)) as [<- | Hne].
    + rewrite lookup_insert_eq.
      rewrite filter_cons_True, filter_nil by reflexivity.
      now rewrite last_snoc.
    + rewrite lookup_insert_ne by exact Hne.
      rewrite filter_cons_False, filter_nil by exact Hne.
      now rewrite app_nil_r.
Qed.

(** X25. [fetch_archive] stores every entry of the response under the key
    of its chart, so every record of the fetched archive sits under its
    own key; when the response lists a chart more than once the last entry
    stands; and a chart the response does not list has no record. *)
Theorem X25_fetch_archive_last_entry (archive_json : list DecodeResult) :
  keyed (fetch_archive archive_json)
  /\ (forall key,
        fetch_archive archive_json !! key
        = last (filter (fun arc => key_of arc = key) archive_json))
  /\ (forall key,
        fetch_archive archive_json !! key = None
        <-> forall arc, In arc archive_json -> key_of arc <> key).
Proof.
  assert (Hlookup := fetch_archive_lookup archive_json).
  split; [ | split].
  - intros key record. rewrite Hlookup. intros Hlast.
    apply last_Some in Hlast as [l' Hl'].
    assert (Hin : record ∈ filter (fun arc => key_of arc = key) archive_json).
    { rewrite Hl'. apply elem_of_app. right. apply list_elem_of_singleton.
      reflexivity. }
    apply list_elem_of_filter in Hin as [Hkey _]. now symmetry.
  - exact Hlookup.
  - intros key. rewrite Hlookup, last_None. split.
    + intros Hnil arc Hin Hkey.
      assert (Hel : arc ∈ filter (fun arc => key_of arc = key) archive_json).
      { apply list_elem_of_filter. split; [exact Hkey | ].
        now apply list_elem_of_In. }
      rewrite Hnil in Hel. now apply not_elem_of_nil in Hel.
    + intros Hall.
      destruct (filter (fun arc => key_of arc = key) archive_json)
        as [ | arc rest] eqn:E; [reflexivity | exfalso].
      assert (Hel : arc ∈ filter (fun arc => key_of arc = key) archive_json).
      { rewrite E. apply list_elem_of_here. }
      apply list_elem_of_filter in Hel as [Hkey Hin].
      apply (Hall arc); [now apply list_elem_of_In | exact Hkey].
Qed.

(** ** Archive keys *)

Lemma append_nil (s : string) : "" +:+ s = s.
Proof. reflexivity. Qed.

Lemma append_cons (c : Ascii.ascii) (a s : string) :
  String c a +:+ s = String c (a +:+ s).
Proof. reflexivity. Qed.

Lemma has_bar_app (a b : string) :
  has_bar (a +:+ b) = has_bar a || has_bar b.
Proof.
  induction a as [ | c a IH]; rewrite ?append_nil, ?append_cons;
    cbn [has_bar]; [reflexivity | ].
  now rewrite IH, orb_assoc.
Qed.

Lemma pretty_N_char_no_bar (x : N) :
  Ascii.eqb (pretty_N_char x) bar = false.
Proof.
  unfold pretty_N_char.
  repeat match goal with
  | |- context [match ?y with _ => _ end] => destruct y
  end; reflexivity.
Qed.

Lemma pretty_N_go_no_bar (x : N) :
  forall s, has_bar s = false -> has_bar (pretty_N_go x s) = false.
Proof.
  induction (N.lt_wf_0 x) as [x _ IH]. intros s Hs.
  destruct (N.eq_dec x 0%N) as [-> | Hne].
  - now rewrite pretty_N_go_0.
  - rewrite pretty_N_go_step by lia. apply IH.
    + apply N.div_lt; lia.
    + cbn [has_bar]. now rewrite pretty_N_char_no_bar, Hs.
Qed.

Lemma pretty_Z_no_bar (z : Z) : has_bar (pretty z) = false.
Proof.
  assert (HN : forall n : N, has_bar (pretty n) = false).
  { intros n. unfold pretty, pretty_N.
    destruct (decide (n = 0%N)); [reflexivity | ].
    now apply pretty_N_go_no_bar. }
  destruct z as [ | p | p]; unfold pretty, pretty_Z; [reflexivity | apply HN | ].
  rewrite has_bar_app. cbn [has_bar orb]. apply HN.
Qed.

(** Two texts that agree up to their first separator. *)
Lemma split_first_bar (a a' rest rest' : string) :
  has_bar a = false -> has_bar a' = false ->
  a +:+ "|" +:+ rest = a' +:+ "|" +:+ rest' ->
  a = a' /\ rest = rest'.
Proof.
  revert a'. induction a as [ | c a IH]; intros [ | c' a'];
    repeat (rewrite append_nil || rewrite append_cons); cbn [has_bar];
    intros Ha Ha' Heq.
  - injection Heq as ->. auto.
  - injection Heq as <- _. discriminate.
  - injection Heq as -> _. discriminate.
  - injection Heq as <- Heq.
    apply orb_false_iff in Ha as [_ Ha]. apply orb_false_iff in Ha' as [_ Ha'].
    destruct (IH a' Ha Ha' Heq) as [-> ->]. auto.
Qed.

(** Two texts that agree from their last separator on. *)
Lemma split_last_bar (d d' last last' : string) :
  has_bar last = false -> has_bar last' = false ->
  d +:+ "|" +:+ last = d' +:+ "|" +:+ last' ->
  d = d' /\ last = last'.
Proof.
  intros Hlast Hlast'. revert d'. induction d as [ | c d IH]; intros [ | c' d'];
    repeat (rewrite append_nil || rewrite append_cons); intros Heq.
  - injection Heq as ->. auto.
  - injection Heq as _ Heq. rewrite Heq, has_bar_app in Hlast.
    cbn [has_bar] in Hlast.
    change (Ascii.eqb _ bar) with true in Hlast.
    rewrite orb_true_r in Hlast. discriminate.
  - injection Heq as _ Heq. rewrite <- Heq, has_bar_app in Hlast'.
    cbn [has_bar] in Hlast'.
    change (Ascii.eqb _ bar) with true in Hlast'.
    rewrite orb_true_r in Hlast'. discriminate.
  - injection Heq as <- Heq. destruct (IH d' Heq) as [-> ->]. auto.
Qed.

Lemma archive_key_inj (id line : Z) (difficulty : string) (level : Z)
    (id' line' : Z) (difficulty' : string) (level' : Z) :
  archive_key id line difficulty level = archive_key id' line' difficulty' level' ->
  id = id' /\ line = line' /\ difficulty = difficulty' /\ level = level'.
Proof.
  unfold archive_key. intros Heq.
  apply split_first_bar in Heq as [Hid Heq]; try apply pretty_Z_no_bar.
  apply split_first_bar in Heq as [Hline Heq]; try apply pretty_Z_no_bar.
  apply split_last_bar in Heq as [Hdifficulty Hlevel]; try apply pretty_Z_no_bar.
  apply (inj pretty) in Hid, Hline, Hlevel. auto.
Qed.

(** X26. An archive key names one chart: two keys are equal exactly when
    the song ids, line counts, difficulties and levels they are made of
    are, whatever text the difficulty is. So a report is compared with,
    and can replace, only a record of its own chart. *)
Theorem X26_archive_key_names_one_chart :
  (forall id line difficulty level id' line' difficulty' level',
     archive_key id line difficulty level
     = archive_key id' line' difficulty' level'
     <-> id = id' /\ line = line' /\ difficulty = difficulty' /\ level = level')
  /\ (forall report record,
        report_key report = key_of record
        <-> song_id (report_song report) = decode_song_id record
            /\ report_line report = decode_line record
            /\ report_difficulty report = decode_difficulty record
            /\ report_level report = decode_level record).
Proof.
  split.
  - intros id line difficulty level id' line' difficulty' level'. split.
    + apply archive_key_inj.
    + intros (-> & -> & -> & ->). reflexivity.
  - intros report record. unfold report_key, key_of. split.
    + apply archive_key_inj.
    + intros (-> & -> & -> & ->). reflexivity.
Qed.

(** ** Flags of a result-screen report *)

(** X27. On a result screen whose five judgement counts are read
    non-negative and add up to the total read, for a chart of at most
    491520 notes, the flags of the report agree with the counts: it is a
    perfect decode exactly when no judgement is below top-tier, a full
    combo exactly when there is no miss, so a perfect decode is always a
    full combo; and a maximum rating is a perfect decode. *)
Theorem X27_result_flags (jacket_hash_map : list (Z * Song))
    (img : ResultReadings) (report : AnalysisReport) :
  analyze_result_screen jacket_hash_map img = Return report ->
  0 <= result_perfect_high img -> 0 <= result_perfect img ->
  0 <= result_great img -> 0 <= result_good img -> 0 <= result_miss img ->
  result_total_notes img
  = result_perfect_high img + result_perfect img + result_great img
    + result_good img + result_miss img ->
  result_total_notes img <= 491520 ->
  (report_is_perfect_decode report = true
   <-> result_great img = 0 /\ result_good img = 0 /\ result_miss img = 0)
  /\ (report_is_full_combo report = true <-> result_miss img = 0)
  /\ (report_is_perfect_decode report = true ->
      report_is_full_combo report = true)
  /\ (report_is_maximum_patch report = true ->
      report_is_perfect_decode report = true).
Proof.
  intros Hret Hph Hp Hg Hd Hm Hsum Hbound.
  assert (Hperfect : report_is_perfect_decode report = true
                     <-> result_great img = 0 /\ result_good img = 0
                         /\ result_miss img = 0).
  { revert Hret. unfold analyze_result_screen.
    destruct (get_best_match_song _ _) as [[song distance] | ]; [ | discriminate].
    destruct (distance >? 5); [discriminate | ].
    rewrite (verify_notes_count_consistent _ _ _ _ _ _ Hsum).
    destruct (result_difficulty_color img) as [[r g] b].
    destruct (Z.eq_dec (result_total_notes img) 0) as [Hzero | Hpos].
    - unfold calculate_judge_rate, int_truediv.
      rewrite <- Hsum, Hzero. discriminate.
    - destruct (calculate_judge_rate_exact _ _ _ _ _ Hph Hp Hg Hd Hm
                  ltac:(lia)) as (judge & -> & Hiff).
      cbn [rbind].
      destruct (calculate_patch _ _ _ _) as [formula | ]; [ | discriminate].
      cbn [rbind].
      destruct (feq judge f100) eqn:Eperfect;
        [destruct (int_truediv _ (result_total_notes img)) as [density | ];
           [ | discriminate] | ];
        cbn [rbind]; intros H; injection H as <-;
        cbn [report_is_perfect_decode]; exact Hiff. }
  assert (Hcombo : report_is_full_combo report = true <-> result_miss img = 0).
  { revert Hret. unfold analyze_result_screen.
    destruct (get_best_match_song _ _) as [[song distance] | ]; [ | discriminate].
    destruct (distance >? 5); [discriminate | ].
    rewrite (verify_notes_count_consistent _ _ _ _ _ _ Hsum).
    destruct (result_difficulty_color img) as [[r g] b].
    destruct (calculate_judge_rate _ _ _ _ _) as [judge | ]; [ | discriminate].
    cbn [rbind].
    destruct (calculate_patch _ _ _ _) as [formula | ]; [ | discriminate].
    cbn [rbind].
    destruct (feq judge f100);
      [destruct (int_truediv _ (result_total_notes img)) as [density | ];
         [ | discriminate] | ];
      cbn [rbind]; intros H; injection H as <-;
      cbn [report_is_full_combo]; apply Z.eqb_eq. }
  split; [exact Hperfect | ]. split; [exact Hcombo | ]. split.
  - intros H. apply Hcombo. now apply Hperfect in H.
  - revert Hret. unfold analyze_result_screen.
    destruct (get_best_match_song _ _) as [[song distance] | ]; [ | discriminate].
    destruct (distance >? 5); [discriminate | ].
    destruct (verify_notes_count _ _ _ _ _ _) as [[[[ph p] gr] gd] mi].
    destruct (result_difficulty_color img) as [[r g] b].
    destruct (calculate_judge_rate _ _ _ _ _) as [judge | ]; [ | discriminate].
    cbn [rbind].
    destruct (calculate_patch _ _ _ _) as [formula | ]; [ | discriminate].
    cbn [rbind].
    destruct (feq judge f100);
      [destruct (int_truediv _ (result_total_notes img)) as [density | ];
         [ | discriminate] | ];
      cbn [rbind]; intros H; injection H as <-;
      cbn [report_is_perfect_decode report_is_maximum_patch]; auto.
Qed.

(** The sample perfect play, taken through [X27_result_flags]: a perfect
    decode and a full combo. *)
Lemma X27_result_flags_witness :
  exists report,
    analyze_result_screen Sample.hash_map Plays.perfect_result = Return report
    /\ (report_is_perfect_decode report = true ->
        report_is_full_combo report = true).
Proof.
  eexists. split; [vm_compute; reflexivity | ].
  match goal with
  | |- report_is_perfect_decode ?r = true -> _ =>
      apply (X27_result_flags Sample.hash_map Plays.perfect_result r)
  end.
  - vm_compute. reflexivity.
  - cbn. lia.
  - cbn. lia.
  - cbn. lia.
  - cbn. lia.
  - cbn. lia.
  - reflexivity.
  - cbn. lia.
Defined.
